(** * MOE idiom dictionary scraper: a shallow embedding of [dictionary.py]

    The development follows the layout of the program:
    - Python strings as lists of code points, with the [str] methods the
      program calls ([strip], [replace], [join], [splitlines]);
    - the fragment of [re] that the program's patterns use: sequences of
      greedy quantified character classes between an optional one-character
      look-behind and look-ahead, matched by backtracking;
    - the text utilities ([norm_space], [condense_zhuyin], ...);
    - [parse_idiom] over an interface for the BeautifulSoup document,
      [write_item] over a file store, and the crawl loop of [main] as a step
      function on the loop variables.                                       *)

From Stdlib Require Import ZArith List Bool Lia Sorted.
From stdpp Require Import base list gmap strings pretty.

Local Open Scope Z_scope.

(* ------------------------------------------------------------------ *)
(** ** Code points and strings *)

(** A Python [str] is a sequence of Unicode code points. *)
Abbreviation str := (list Z).

(** ASCII literals of the source, as code points. *)
Fixpoint lit (s : string) : str :=
  match s with
  | EmptyString => []
  | String a t => Z.of_N (Ascii.N_of_ascii a) :: lit t
  end.

Definition in_range (lo hi c : Z) : bool := (lo <=? c) && (c <=? hi).

(** [str.isspace] on one code point; it is also what [\s] matches in a
    [str] pattern and what [str.strip()] removes. *)
Definition isspace (c : Z) : bool :=
  in_range 0x09 0x0D c || in_range 0x1C 0x20 c
  || (c =? 0x85) || (c =? 0xA0) || (c =? 0x1680)
  || in_range 0x2000 0x200A c
  || (c =? 0x2028) || (c =? 0x2029) || (c =? 0x202F) || (c =? 0x205F)
  || (c =? 0x3000).

Definition NL : Z := 0x0A.
Definition SP : Z := 0x20.
Definition UNDERSCORE : Z := 0x5F.
Definition HYPHEN : Z := 0x2D.
Definition BACKSLASH : Z := 0x5C.
(** U+FF0C FULLWIDTH COMMA *)
Definition FW_COMMA : Z := 0xFF0C.

(** ASCII letters and digits. *)
Definition ascii_letter (c : Z) : bool :=
  in_range 0x41 0x5A c || in_range 0x61 0x7A c.
Definition ascii_digit (c : Z) : bool := in_range 0x30 0x39 c.

(** The Unicode character database is not part of the program: the two
    tables that [\w] and [\d] consult are parameters, known to extend their
    ASCII parts. *)
Class Unicode := {
  isalnum : Z -> bool;
  isdecimal : Z -> bool;
  isalnum_ascii :
    forall c, ascii_letter c || ascii_digit c = true -> isalnum c = true;
  isdecimal_ascii : forall c, ascii_digit c = true -> isdecimal c = true
}.

(** [BPMF] and [CJK], the two character ranges of the source. *)
Definition BPMF (c : Z) : bool :=
  in_range 0x3105 0x3129 c || in_range 0x31A0 0x31BA c
  || (c =? 0x02D9) || (c =? 0x02CA) || (c =? 0x02C7) || (c =? 0x02CB).

Definition CJK (c : Z) : bool :=
  in_range 0x4E00 0x9FFF c || in_range 0x3400 0x4DBF c.

(** *** [str] methods *)

Fixpoint lstrip_by (p : Z -> bool) (s : str) : str :=
  match s with
  | [] => []
  | c :: t => if p c then lstrip_by p t else s
  end.

Definition rstrip_by (p : Z -> bool) (s : str) : str :=
  rev (lstrip_by p (rev s)).

(** [s.strip()] and [s.strip(chars)] for a one-character [chars]. *)
Definition strip_by (p : Z -> bool) (s : str) : str :=
  rstrip_by p (lstrip_by p s).
Definition strip (s : str) : str := strip_by isspace s.
Definition strip_char (c : Z) (s : str) : str := strip_by (Z.eqb c) s.

(** [s.replace(old, new)] for a one-character [old]. *)
Fixpoint replace_char (old : Z) (new : str) (s : str) : str :=
  match s with
  | [] => []
  | c :: t => (if c =? old then new else [c]) ++ replace_char old new t
  end.

(** [sep.join(parts)] *)
Fixpoint join (sep : str) (parts : list str) : str :=
  match parts with
  | [] => []
  | [p] => p
  | p :: rest => p ++ sep ++ join sep rest
  end.

Definition is_empty (s : str) : bool :=
  match s with [] => true | _ => false end.

(** [str(n)] for an [int]. *)
Definition py_str (n : Z) : str := lit (pretty n).

(* ------------------------------------------------------------------ *)
(** ** Regular expressions

    Every pattern of the program is a sequence of greedy quantified
    character classes, optionally between a one-character look-behind (or
    [^]) and a one-character look-ahead (or [$]).  A match is found by
    backtracking: each class first takes as many characters as it can and
    gives them back one at a time until the rest of the pattern matches. *)

Definition cclass := Z -> bool.

Record atom := Atom {
  a_cls : cclass;
  a_min : nat;
  a_max : option nat
}.

Inductive behind := NoBehind | BehindIn (c : cclass) | AtStart.
Inductive ahead := NoAhead | AheadIn (c : cclass) | AtEnd.

Record regex := Regex {
  re_behind : behind;
  re_atoms : list atom;
  re_ahead : ahead
}.

Definition one (c : cclass) : atom := Atom c 1 (Some 1%nat).
Definition opt (c : cclass) : atom := Atom c 0 (Some 1%nat).
Definition star (c : cclass) : atom := Atom c 0 None.
Definition plus (c : cclass) : atom := Atom c 1 None.
Definition at_least (n : nat) (c : cclass) : atom := Atom c n None.

Definition chr (c : Z) : cclass := fun x => x =? c.
Definition neg (c : cclass) : cclass := fun x => negb (c x).
Definition either (c d : cclass) : cclass := fun x => c x || d x.
Definition one_of (l : str) : cclass := fun x => existsb (Z.eqb x) l.

(** Length of the longest prefix of [s] made of characters of [c]. *)
Fixpoint run_length (c : cclass) (s : str) : nat :=
  match s with
  | [] => O
  | x :: t => if c x then S (run_length c t) else O
  end.

Definition behind_ok (b : behind) (prev : option Z) : bool :=
  match b, prev with
  | NoBehind, _ => true
  | BehindIn c, Some p => c p
  | BehindIn _, None => false
  | AtStart, None => true
  | AtStart, Some _ => false
  end.

(** [$] matches at the end and before a newline that ends the string. *)
Definition ahead_ok (a : ahead) (s : str) : bool :=
  match a, s with
  | NoAhead, _ => true
  | AheadIn c, x :: _ => c x
  | AheadIn _, [] => false
  | AtEnd, [] => true
  | AtEnd, [x] => x =? NL
  | AtEnd, _ => false
  end.

(** Try [hi], [hi - 1], ..., [lo] characters for the current class; [k j]
    matches the rest of the pattern after [j] characters. *)
Fixpoint backtrack (k : nat -> option (list nat)) (lo hi : nat)
  : option (list nat) :=
  if (hi <? lo)%nat then None else
  match k hi with
  | Some ls => Some (hi :: ls)
  | None => match hi with
            | O => None
            | S h => backtrack k lo h
            end
  end.

(** The lengths taken by each class of the pattern, in order. *)
Fixpoint match_atoms (la : ahead) (atoms : list atom) (s : str)
  : option (list nat) :=
  match atoms with
  | [] => if ahead_ok la s then Some [] else None
  | a :: rest =>
    let avail := run_length (a_cls a) s in
    let hi := match a_max a with
              | Some m => Nat.min m avail
              | None => avail
              end in
    backtrack (fun j => match_atoms la rest (drop j s)) (a_min a) hi
  end.

(** A match attempt at one position; [prev] is the character before it. *)
Definition attempt (r : regex) (prev : option Z) (s : str)
  : option (list nat) :=
  if behind_ok (re_behind r) prev then match_atoms (re_ahead r) (re_atoms r) s
  else None.

Definition total (ls : list nat) : nat := fold_right Nat.add O ls.

(** Replacement templates: literal text, references to the text taken by
    the [i]-th class of the pattern (the program's groups each enclose one
    class), and the whole match. *)
Inductive piece := TLit (s : str) | TGrp (i : nat) | TAll.

Definition group_text (ls : list nat) (s : str) (i : nat) : str :=
  take (nth i ls O) (drop (total (take i ls)) s).

Fixpoint expand (t : list piece) (ls : list nat) (s : str) : str :=
  match t with
  | [] => []
  | TLit l :: t' => l ++ expand t' ls s
  | TGrp i :: t' => group_text ls s i ++ expand t' ls s
  | TAll :: t' => take (total ls) s ++ expand t' ls s
  end.

(** [re.sub]: scan left to right; at a match emit the replacement and
    resume after it, otherwise copy one character.  No pattern of the
    program matches the empty string, so an empty match is no match. *)
Fixpoint sub_go (r : regex) (t : list piece) (prev : option Z) (skip : nat)
  (s : str) : str :=
  match s with
  | [] => []
  | c :: s' =>
    match skip with
    | S k => sub_go r t (Some c) k s'
    | O =>
      match attempt r prev s with
      | Some ls =>
        match total ls with
        | S k => expand t ls s ++ sub_go r t (Some c) k s'
        | O => c :: sub_go r t (Some c) O s'
        end
      | None => c :: sub_go r t (Some c) O s'
      end
    end
  end.

Definition re_sub (r : regex) (t : list piece) (s : str) : str :=
  sub_go r t None O s.

(** [re.search]: the first position with a match, as the text before it,
    the lengths taken there, and the text from it on. *)
Fixpoint search_go (r : regex) (prev : option Z) (before : str) (s : str)
  : option (str * list nat * str) :=
  match attempt r prev s with
  | Some ls => Some (rev before, ls, s)
  | None =>
    match s with
    | [] => None
    | c :: s' => search_go r (Some c) (c :: before) s'
    end
  end.

Definition re_search (r : regex) (s : str) : bool :=
  match search_go r None [] s with Some _ => true | None => false end.

(** [re.split(r, s, maxsplit=1)] for a pattern without groups. *)
Definition re_split1 (r : regex) (s : str) : list str :=
  match search_go r None [] s with
  | Some (before, ls, from) => [before; drop (total ls) from]
  | None => [s]
  end.

(** [re.split(r, s)] for a pattern without groups: the texts between the
    matches, the empty ones too. *)
Fixpoint split_go (r : regex) (prev : option Z) (skip : nat) (cur : str)
  (s : str) : list str :=
  match s with
  | [] => [rev cur]
  | c :: s' =>
    match skip with
    | S k => split_go r (Some c) k cur s'
    | O =>
      match attempt r prev s with
      | Some ls =>
        match total ls with
        | S k => rev cur :: split_go r (Some c) k [] s'
        | O => split_go r (Some c) O (c :: cur) s'
        end
      | None => split_go r (Some c) O (c :: cur) s'
      end
    end
  end.

Definition re_split (r : regex) (s : str) : list str := split_go r None O [] s.

(** [s.startswith(p)] and [needle in hay]. *)
Fixpoint starts_with (p s : str) : bool :=
  match p, s with
  | [], _ => true
  | x :: p', y :: s' => (x =? y) && starts_with p' s'
  | _ :: _, [] => false
  end.

Fixpoint contains (needle hay : str) : bool :=
  starts_with needle hay
  || match hay with
     | [] => false
     | _ :: hay' => contains needle hay'
     end.

(* ------------------------------------------------------------------ *)
(** ** utils *)

(** The class of space, tab, U+00A0 and U+200B. *)
Definition hspace : cclass := one_of [SP; 0x09; 0xA0; 0x200B].

Definition norm_space (s : str) : str :=
  if is_empty s then s else
  let s := re_sub (Regex NoBehind [plus hspace] NoAhead) [TLit [SP]] s in
  let s := re_sub (Regex NoBehind [plus isspace; one (chr NL)] NoAhead)
                  [TLit [NL]] s in
  strip s.

Definition rm_blanklines (s : str) : str :=
  if is_empty s then s else
  re_sub (Regex NoBehind [at_least 2 (chr NL)] NoAhead) [TLit [NL]] (strip s).

Definition strip_newlines (s : str) : str :=
  if is_empty s then s else replace_char NL [] s.

Definition condense_zhuyin (s : str) : str :=
  if is_empty s then s else
  re_sub (Regex (BehindIn BPMF) [plus isspace] (AheadIn BPMF)) [] s.

Definition strip_bpmf_adjacent_newlines (s : str) : str :=
  if is_empty s then s else
  let s := re_sub (Regex NoBehind
                     [one BPMF; star isspace; plus (chr NL); star isspace]
                     NoAhead) [TGrp 0] s in
  let s := re_sub (Regex NoBehind
                     [star isspace; plus (chr NL); star isspace; one BPMF]
                     NoAhead) [TGrp 3] s in
  s.

(** UTF-8 literals of the source (messages, labels, class members), decoded
    to code points. *)
Fixpoint utf8_go (acc : Z) (need : nat) (s : string) : str :=
  match s with
  | EmptyString => []
  | String a t =>
    let b := Z.of_N (Ascii.N_of_ascii a) in
    match need with
    | S O => (acc * 64 + b mod 64) :: utf8_go 0 O t
    | S n => utf8_go (acc * 64 + b mod 64) n t
    | O =>
      if b <? 0x80 then b :: utf8_go 0 O t
      else if b <? 0xE0 then utf8_go (b mod 32) 1 t
      else if b <? 0xF0 then utf8_go (b mod 16) 2 t
      else utf8_go (b mod 8) 3 t
    end
  end.

Definition u (s : string) : str := utf8_go 0 O s.

(** The pattern that matches the text [s] itself ([re.escape]). *)
Definition literal (s : str) : list atom := map (fun c => one (chr c)) s.

Definition replace_arrow_notes `{Unicode} (text : str) : str :=
  if is_empty text then text else
  re_sub (Regex NoBehind
            [one (chr NL); star isspace; plus isdecimal; star isspace;
             one (one_of (u ">〉"))]
            NoAhead)
         [TLit (lit "["); TGrp 2; TLit (lit "]")] text.

Definition cjk_or_bracket : cclass := either CJK (chr 0x5D).
Definition cjk_or_opening : cclass := either CJK (one_of (u "“「『（(")).

Definition newline_to_cjk_comma (text : str) : str :=
  if is_empty text then text else
  let text := re_sub (Regex (BehindIn cjk_or_bracket)
                        [star isspace; plus (chr NL); star isspace]
                        (AheadIn cjk_or_opening))
                     [TLit [FW_COMMA]] text in
  let text := replace_char NL [] text in
  let text := re_sub (Regex NoBehind [at_least 2 (chr FW_COMMA)] NoAhead)
                     [TLit [FW_COMMA]] text in
  text.

Definition marker : cclass := one_of (u "＃△").
Definition opening : cclass := one_of (u "「『（(《").
Definition closing : cclass := one_of (u "」』）)》").

Definition fix_inline_markers_and_quotes (text : str) : str :=
  if is_empty text then text else
  let text := re_sub (Regex NoBehind
                        [one (chr NL); star isspace; one marker; star isspace]
                        NoAhead) [TGrp 2] text in
  let text := re_sub (Regex NoBehind
                        [one marker; star isspace; one (chr NL); star isspace;
                         one opening]
                        NoAhead) [TGrp 0; TGrp 4] text in
  let text := re_sub (Regex NoBehind
                        [one opening; star isspace; one (chr NL); star isspace]
                        NoAhead) [TGrp 0] text in
  let text := re_sub (Regex NoBehind
                        [star isspace; one (chr NL); star isspace; one closing]
                        NoAhead) [TGrp 3] text in
  text.

(** [\w]: alphanumeric or underscore. *)
Definition word `{Unicode} : cclass := either isalnum (chr UNDERSCORE).

(** [[\w\-CJK]], the characters [safe_slug] keeps. *)
Definition slug_class `{Unicode} : cclass :=
  either (either word (chr HYPHEN)) CJK.

Definition NA : str := lit "NA".

Definition safe_slug `{Unicode} (s : str) : str :=
  if is_empty s then NA else
  let s := strip s in
  let s := re_sub (Regex NoBehind [plus (neg slug_class)] NoAhead)
                  [TLit [UNDERSCORE]] s in
  let s := re_sub (Regex NoBehind [at_least 2 (chr UNDERSCORE)] NoAhead)
                  [TLit [UNDERSCORE]] s in
  let s := strip_char UNDERSCORE s in
  if is_empty s then NA else s.

(** [str.splitlines()] *)
Definition linebreak (c : Z) : bool :=
  in_range 0x0A 0x0D c || in_range 0x1C 0x1E c
  || (c =? 0x85) || (c =? 0x2028) || (c =? 0x2029).

Fixpoint splitlines_go (after_cr : bool) (cur : str) (s : str) : list str :=
  match s with
  | [] => match cur with [] => [] | _ => [rev cur] end
  | c :: t =>
    if after_cr && (c =? NL) then splitlines_go false cur t
    else if linebreak c then rev cur :: splitlines_go (c =? 0x0D) [] t
    else splitlines_go false (c :: cur) t
  end.

Definition splitlines (s : str) : list str := splitlines_go false [] s.

Definition nonblank (s : str) : bool := negb (is_empty (strip s)).

(* ------------------------------------------------------------------ *)
(** ** Replacement templates of [Pattern.sub]

    [pat.sub(repl, s)] compiles [repl] before it looks for a match: a
    backslash introduces an escape, and an escape that [re] does not know
    raises [re.error] whether or not [s] has a match.  The program's only
    computed template belongs to a pattern without groups, so that a group
    reference other than group 0 is an error as well. *)

Inductive tmode := TNormal | TName (seen zero : bool).

Definition octal_digit (c : Z) : bool := in_range 0x30 0x37 c.

Definition escape_of (e : Z) : option Z :=
  if e =? 0x61 then Some 0x07 else if e =? 0x62 then Some 0x08
  else if e =? 0x66 then Some 0x0C else if e =? 0x6E then Some 0x0A
  else if e =? 0x72 then Some 0x0D else if e =? 0x74 then Some 0x09
  else if e =? 0x76 then Some 0x0B else if e =? BACKSLASH then Some BACKSLASH
  else None.

Fixpoint parse_template_go (m : tmode) (s : str) : option (list piece) :=
  match m, s with
  | TNormal, [] => Some []
  | TName _ _, [] => None
  | TName seen zero, c :: rest =>
    if c =? 0x3E then
      if seen && zero then cons TAll <$> parse_template_go TNormal rest
      else None
    else parse_template_go (TName true (zero && (c =? 0x30))) rest
  | TNormal, c :: rest =>
    if negb (c =? BACKSLASH) then cons (TLit [c]) <$> parse_template_go TNormal rest
    else
      match rest with
      | [] => None
      | e :: rest1 =>
        if e =? 0x67 then
          match rest1 with
          | lt :: rest2 =>
            if lt =? 0x3C then parse_template_go (TName false true) rest2
            else None
          | [] => None
          end
        else if e =? 0x30 then
          match rest1 with
          | d1 :: rest2 =>
            if octal_digit d1 then
              match rest2 with
              | d2 :: rest3 =>
                if octal_digit d2 then
                  cons (TLit [Z.land ((d1 - 0x30) * 8 + (d2 - 0x30)) 0xFF])
                    <$> parse_template_go TNormal rest3
                else cons (TLit [d1 - 0x30]) <$> parse_template_go TNormal rest2
              | [] => Some [TLit [d1 - 0x30]]
              end
            else cons (TLit [0]) <$> parse_template_go TNormal rest1
          | [] => Some [TLit [0]]
          end
        else if ascii_digit e then
          match rest1 with
          | d2 :: d3 :: rest3 =>
            let v := (e - 0x30) * 64 + (d2 - 0x30) * 8 + (d3 - 0x30) in
            if octal_digit e && octal_digit d2 && octal_digit d3 && (v <=? 0xFF)
            then cons (TLit [v]) <$> parse_template_go TNormal rest3
            else None
          | _ => None
          end
        else
          match escape_of e with
          | Some c' => cons (TLit [c']) <$> parse_template_go TNormal rest1
          | None =>
            if ascii_letter e then None
            else cons (TLit [BACKSLASH])
                   <$> (cons (TLit [e]) <$> parse_template_go TNormal rest1)
          end
      end
  end.

Definition parse_template (repl : str) : option (list piece) :=
  parse_template_go TNormal repl.

(* ------------------------------------------------------------------ *)
(** ** URLs and the HTTP session *)

Definition BASE : str := lit "https://dict.idioms.moe.edu.tw".
Definition VIEW : str := lit "/idiomView.jsp".

(** A URL as [urlparse] and [parse_qs] see it: the part before [?] and the
    query as an ordered dictionary. *)
Record URL := MkURL {
  u_base : str;
  u_query : list (str * str)
}.

#[global] Instance url_eq_dec : EqDecision URL.
Proof. solve_decision. Defined.

(** [q[k] = v] on an insertion-ordered dictionary. *)
Fixpoint dict_set {V : Type} (k : str) (v : V) (q : list (str * V))
  : list (str * V) :=
  match q with
  | [] => [(k, v)]
  | (k', v') :: q' =>
    if decide (k' = k) then (k, v) :: q' else (k', v') :: dict_set k v q'
  end.

(** [parse_qs] drops the fields whose value is blank. *)
Definition parse_qs (q : list (str * str)) : list (str * str) :=
  filter (fun kv => is_empty (snd kv) = false) q.

Definition add_params (url : URL) (params : list (str * str)) : URL :=
  let q := parse_qs (u_query url) in
  let q := fold_left (fun q kv => dict_set (fst kv) (snd kv) q) params q in
  MkURL (u_base url) q.

(** The URL [f"{BASE}{VIEW}?ID={id_value}"]. *)
Definition view_url (id_value : str) : URL :=
  MkURL (BASE ++ VIEW) [(lit "ID", id_value)].

(** [urlencode] and [urlunparse]; the values the program sends are the
    decimal IDs and [2] and [0], which need no quoting. *)
Definition url_text (url : URL) : str :=
  u_base url ++
  match u_query url with
  | [] => []
  | q => lit "?" ++ join (lit "&") (map (fun kv => fst kv ++ lit "=" ++ snd kv) q)
  end.

(** What the server answers to a GET: a page, or a failure that [s.get] or
    [raise_for_status] turns into an exception. *)
Inductive response := Page (html : str) | Failed.

(** The session is the list of the requests made so far; the answer to a
    request may depend on it. *)
Definition session := list URL.

Class Network := {
  http_get : session -> URL -> response
}.

(** The exceptions that reach [main]: [NotFound], and the others, which
    [except Exception] treats alike: a failed request, [re.error], a
    [KeyError] or [AttributeError] on the record, and the [OSError] of a
    file that cannot be opened. *)
Inductive exn := NotFound | RequestError | ReError | DataError | OsError.

#[global] Instance exn_eq_dec : EqDecision exn.
Proof. solve_decision. Defined.

Inductive result (A : Type) := Return (a : A) | Raise (e : exn).
Arguments Return {A} a.
Arguments Raise {A} e.

(** Computations that use the session and may raise. *)
Definition M (A : Type) : Type := session -> result A * session.

Definition ret {A} (a : A) : M A := fun s => (Return a, s).
Definition raise {A} (e : exn) : M A := fun s => (Raise e, s).
Definition bind {A B} (m : M A) (k : A -> M B) : M B :=
  fun s => match m s with
           | (Return a, s') => k a s'
           | (Raise e, s') => (Raise e, s')
           end.

Notation "'let!' x ':=' m 'in' k" := (bind m (fun x => k))
  (at level 10, x name, m at level 100, k at level 200).

(* ------------------------------------------------------------------ *)
(** ** The document

    BeautifulSoup is a library: its parser and the queries that the
    program makes on a tag are an interface.  [decompose_all css t] is [t]
    after [for x in t.select(css): x.decompose()]; [get_text sep t] is
    [t.get_text(sep, strip=True)]; [next_siblings t] is the chain
    [t.next_sibling], [t.next_sibling.next_sibling], ..., of tags and
    strings, and [get_attr k t] is [None] where [t.get(k, d)] gives [d]. *)

Class Html := {
  Tag : Type;
  parse_html : str -> Tag;
  select_one : string -> Tag -> option Tag;
  select : string -> Tag -> list Tag;
  find : string -> Tag -> option Tag;
  find_all : list string -> Tag -> list Tag;
  next_siblings : Tag -> list (Tag + str);
  tag_name : Tag -> string;
  get_attr : string -> Tag -> option str;
  get_text : str -> Tag -> str;
  decompose_all : string -> Tag -> Tag
}.

(** The dictionaries that the two cell walkers return. *)
Record usage := Usage {
  usage_meaning : str;
  usage_category : str;
  usage_examples : list str
}.

Record syn_ant := SynAnt {
  synonyms : list str;
  synonym_links : list str;
  antonyms : list str;
  antonym_links : list str;
  comparison : str
}.

(** *** The notes of the source

    [(?m)^[ \t]*([CJK]+：.*?)(?=^[ \t]*[CJK]+：|\Z)] with [re.S]: a note
    begins at the start of a line with a head of CJK characters and a
    full-width colon, and its lazy body runs to the next start of a line at
    which such a head begins, or to the end of the text. *)

Definition blank : cclass := one_of [SP; 0x09].

(** [[ \t]*[CJK]+：] matches at the head of [s]. *)
Definition note_head (s : str) : bool :=
  bool_decide (is_Some (attempt
    (Regex NoBehind [star blank; plus CJK; one (chr 0xFF1A)] NoAhead) None s)).

(** [^] in multi-line mode. *)
Definition line_start (prev : option Z) : bool :=
  match prev with
  | None => true
  | Some p => p =? NL
  end.

(** The scanner is between two notes, in the blanks before the group of a
    note, or in the group, whose text so far it holds in reverse. *)
Inductive note_scan := Between | Indent | Note (text : str).

Fixpoint notes_go (prev : option Z) (st : note_scan) (s : str) : list str :=
  match s with
  | [] => match st with Note text => [rev text] | _ => [] end
  | c :: s' =>
    let begin :=
      if blank c then notes_go (Some c) Indent s'
      else notes_go (Some c) (Note [c]) s' in
    match st with
    | Between =>
      if line_start prev && note_head s then begin
      else notes_go (Some c) Between s'
    | Indent =>
      if blank c then notes_go (Some c) Indent s'
      else notes_go (Some c) (Note [c]) s'
    | Note text =>
      if line_start prev && note_head s then rev text :: begin
      else notes_go (Some c) (Note (c :: text)) s'
    end
  end.

(** [[m.group(1) for m in pattern.finditer(txt)]] *)
Definition note_items (txt : str) : list str := notes_go None Between txt.

(** [[。！？」』」)]$] *)
Definition closed_note : regex :=
  Regex NoBehind [one (one_of (u "。！？」』」)"))] AtEnd.

Definition enumerate_source_notes (notes_raw : str) : str :=
  if is_empty notes_raw then [] else
  let txt := condense_zhuyin notes_raw in
  let txt := strip_bpmf_adjacent_newlines txt in
  let txt := rm_blanklines txt in
  concat (imap (fun i group =>
                  let item := replace_char NL [] (norm_space group) in
                  let item := if re_search closed_note item then item
                              else item ++ u "。" in
                  lit "[" ++ py_str (Z.of_nat (S i)) ++ lit "]" ++ item)
               (note_items txt)).

Section Document.
Context `{Unicode} `{Network} `{Html}.

Definition get_soup (url : URL) : M Tag :=
  fun sess =>
    match http_get sess url with
    | Page html => (Return (parse_html html), sess ++ [url])
    | Failed => (Raise RequestError, sess ++ [url])
    end.

Definition only_article (soup : Tag) : Tag :=
  let art := match select_one "article#idiomPage" soup with
             | Some a => a
             | None => match select_one "#mainContent" soup with
                       | Some a => a
                       | None => soup
                       end
             end in
  fold_left (fun art sel => decompose_all sel art)
    ["script"; "style"; ".panel"; ".panel2"; ".banner2"; "#goTop";
     "footer nav"; "header nav"]%string art.

Definition idiom_table (art : Tag) : option Tag := select_one "#idiomTab" art.

Fixpoint first_td (th_regex : regex) (rows : list Tag) : option Tag :=
  match rows with
  | [] => None
  | tr :: rows' =>
    match find "th" tr, find "td" tr with
    | Some th, Some td =>
      if re_search th_regex (get_text (lit " ") th) then Some td
      else first_td th_regex rows'
    | _, _ => first_td th_regex rows'
    end
  end.

Definition td_by_th (table : option Tag) (th_regex : regex) : option Tag :=
  match table with
  | None => None
  | Some table => first_td th_regex (select "tr" table)
  end.

Definition text_in_td (table : option Tag) (th_regex : regex) : str :=
  match td_by_th table th_regex with
  | Some td => norm_space (get_text [NL] td)
  | None => []
  end.

Definition parse_citations_td (td : option Tag) : str :=
  match td with
  | None => []
  | Some td =>
    let items := map (fun li => norm_space (get_text (lit " ") li))
                     (select "ol > li, ul > li" td) in
    match items with
    | [] => norm_space (get_text [NL] td)
    | _ => join [NL] items
    end
  end.

(** *** The cell of the usage *)

Definition is_heading (t : Tag) : bool :=
  bool_decide (tag_name t ∈ ["h4"; "strong"]%string).

(** The nodes that [while node:] visits from [h.next_sibling] on: it ends at
    the next heading, at a string that is empty, or after the last
    sibling. *)
Fixpoint until_heading (nodes : list (Tag + str)) : list (Tag + str) :=
  match nodes with
  | [] => []
  | inl t :: rest => if is_heading t then [] else inl t :: until_heading rest
  | inr s :: rest => if is_empty s then [] else inr s :: until_heading rest
  end.

Definition clean_text (t : Tag) : str :=
  strip_newlines (norm_space (get_text (lit " ") t)).

(** What a node under a heading adds to [examples] and to
    [content_chunks]. *)
Definition listed_examples (node : Tag + str) : list str :=
  match node with
  | inl t => if decide (tag_name t = "ol"%string)
             then map clean_text (select "li" t) else []
  | inr _ => []
  end.

Definition content_chunk (node : Tag + str) : list str :=
  match node with
  | inl t => if decide (tag_name t = "ol"%string) then []
             else [norm_space (get_text (lit " ") t)]
  | inr _ => []
  end.

Definition nonempty (s : str) : bool := negb (is_empty s).

(** One pass of [for h4 in td.find_all(["h4", "strong"])] over the
    variables [meaning], [category] and [examples]. *)
Definition usage_heading (acc : str * str * list str) (h4 : Tag)
  : str * str * list str :=
  let '(meaning, category, examples) := acc in
  let title := get_text (lit " ") h4 in
  let nodes := until_heading (next_siblings h4) in
  let examples := examples ++ flat_map listed_examples nodes in
  let content_chunks := flat_map content_chunk nodes in
  let txt := norm_space (join [NL] (filter (fun c => nonempty c = true)
                                           content_chunks)) in
  if contains (u "語義說明") title then (txt, category, examples)
  else if contains (u "使用類別") title then (meaning, txt, examples)
  else if contains (u "例句") title then
    (meaning, category,
     if is_empty txt then examples
     else examples
          ++ filter (fun line => nonempty line = true)
               (map strip_newlines
                  (re_split (Regex NoBehind [plus (chr NL)] NoAhead) txt)))
  else (meaning, category, examples).

Definition parse_usage_td (td : option Tag) : usage :=
  match td with
  | None => Usage [] [] []
  | Some td =>
    let '(meaning, category, examples) :=
      fold_left usage_heading (find_all ["h4"; "strong"]%string td)
        ([], [], []) in
    Usage meaning category
      (map (fun x => norm_space (strip_newlines x)) examples)
  end.

(** *** The cell of the synonyms and antonyms *)

(** [[、,，]\s*] *)
Definition comma_sep : regex :=
  Regex NoBehind [one (one_of (u "、,，")); star isspace] NoAhead.

(** One link of a node: its text joins the terms, its address the links. *)
Definition anchor_step (acc : list str * list str) (a : Tag)
  : list str * list str :=
  let '(terms, links) := acc in
  let txt := clean_text a in
  let href := default [] (get_attr "href" a) in
  (if is_empty txt then terms else terms ++ [txt],
   if nonempty href && starts_with (lit "/idiomView.jsp") href
   then links ++ [BASE ++ href] else links).

(** One piece of the text of a node, between commas. *)
Definition term_step (label : str) (terms : list str) (term : str)
  : list str :=
  let term := strip_newlines term in
  if nonempty term && negb (bool_decide (term ∈ terms))
     && negb (contains label term) && (length term <=? 8)%nat
  then terms ++ [term] else terms.

Definition node_terms (label : str) (t : Tag) (terms : list str) : list str :=
  fold_left (term_step label)
    (re_split comma_sep (norm_space (get_text (lit " ") t))) terms.

Definition synonym_node (acc : list str * list str) (node : Tag + str)
  : list str * list str :=
  match node with
  | inl t =>
    let '(terms, links) := fold_left anchor_step (select "a[href]" t) acc in
    (node_terms (u "近義成語") t terms, links)
  | inr _ => acc
  end.

(** The words that mark a text as a comparison. *)
Definition comparison_words : list str :=
  [u "及"; u "都有"; u "側重於"; u "例句"; u "我們已下"; u "希望大家"; u "∼"].

Definition antonym_node (acc : list str * list str) (node : Tag + str)
  : list str * list str :=
  match node with
  | inl t =>
    if decide (tag_name t = "p"%string) then acc else
    let '(terms, links) := fold_left anchor_step (select "a[href]" t) acc in
    let raw := norm_space (get_text (lit " ") t) in
    if existsb (fun x => contains x raw) comparison_words then (terms, links)
    else (node_terms (u "反義成語") t terms, links)
  | inr _ => acc
  end.

Definition under_heading (label : str)
  (visit : list str * list str -> Tag + str -> list str * list str)
  (acc : list str * list str) (h : Tag) : list str * list str :=
  if contains label (get_text (lit " ") h)
  then fold_left visit (until_heading (next_siblings h)) acc
  else acc.

(** The first occurrence of each string that is not empty. *)
Fixpoint dedupe (seen : list str) (l : list str) : list str :=
  match l with
  | [] => []
  | x :: rest =>
    if nonempty x && negb (bool_decide (x ∈ seen))
    then x :: dedupe (x :: seen) rest
    else dedupe seen rest
  end.

Definition parse_synonyms_antonyms_td (td : option Tag) : syn_ant :=
  match td with
  | None => SynAnt [] [] [] [] []
  | Some td =>
    let headings := find_all ["h4"; "strong"]%string td in
    let '(synonyms, synonym_links) :=
      fold_left (under_heading (u "近義成語") synonym_node) headings ([], []) in
    let '(antonyms, antonym_links) :=
      fold_left (under_heading (u "反義成語") antonym_node) headings ([], []) in
    let comparison_parts :=
      map clean_text (select "div.lab" td)
      ++ filter (fun t => nonempty t = true)
           (map clean_text (select "table.compTab" td)) in
    SynAnt (dedupe [] synonyms) (dedupe [] synonym_links)
      (dedupe [] antonyms) (dedupe [] antonym_links)
      (join (u "；") comparison_parts)
  end.

Definition split_source_title_body (source_all : str) : str * str :=
  if is_empty source_all then ([], []) else
  let lines := filter (fun ln => nonblank ln = true) (splitlines source_all) in
  match lines with
  | [] => ([], [])
  | title :: rest => (title, join [NL] rest)
  end.

Definition format_source_body (body : str) : str :=
  let body := replace_arrow_notes body in
  let body := condense_zhuyin body in
  let body := strip_bpmf_adjacent_newlines body in
  let body := newline_to_cjk_comma body in
  body.

(** The loop of [format_references_for_fulltext]: the finished items in
    reverse, and the item being built. *)
Definition reference_line (acc : list str * str) (line : str)
  : list str * str :=
  let '(result_lines, current_item) := acc in
  if (length line <=? 6)%nat
     && bool_decide (is_Some (attempt (Regex AtStart [plus CJK] AtEnd) None line))
  then
    ((if is_empty current_item then result_lines
      else strip current_item :: result_lines), line)
  else
    if is_empty current_item then (line :: result_lines, current_item)
    else (result_lines, current_item ++ line).

Definition format_references_for_fulltext (ref_raw : str) : str :=
  if is_empty ref_raw then [] else
  let s := condense_zhuyin ref_raw in
  let s := strip_bpmf_adjacent_newlines s in
  let s := rm_blanklines s in
  let lines := map strip (filter (fun ln => nonblank ln = true) (splitlines s)) in
  let '(result_lines, current_item) := fold_left reference_line lines ([], []) in
  let result_lines :=
    if is_empty current_item then result_lines
    else strip current_item :: result_lines in
  join (u "；") (rev result_lines).
End Document.

(* ------------------------------------------------------------------ *)
(** ** The record of an idiom *)

(** The values of the record: strings and lists of strings. *)
Inductive value := VStr (s : str) | VList (l : list str).

(** A Python [dict] with string keys, in insertion order. *)
Definition dict := list (string * value).

Fixpoint dict_get (k : string) (d : dict) : option value :=
  match d with
  | [] => None
  | (k', v) :: d' => if decide (k' = k) then Some v else dict_get k d'
  end.

Definition keys (d : dict) : list string := map fst d.

Section ParseIdiom.
Context `{Unicode} `{Network} `{Html}.

(** The header patterns of the table rows. *)
Definition anchored (atoms : list atom) : regex := Regex AtStart atoms AtEnd.
Definition gap (a b : string) : list atom :=
  literal (u a) ++ [star isspace] ++ literal (u b).

Definition th_title : regex :=
  anchored ([one (one_of (u "成詞")); star isspace] ++ literal (u "語")).
Definition th_bopomofo : regex := anchored (gap "注" "音").
Definition th_pinyin : regex := anchored (literal (u "漢語拼音")).
Definition th_definition : regex := anchored (gap "釋" "義").
Definition th_source : regex := anchored (gap "典" "源").
Definition th_story : regex := anchored (literal (u "典故說明")).
Definition th_citations : regex := anchored (gap "書" "證").
Definition th_usage : regex := anchored (literal (u "用法說明")).
Definition th_syn_ant : regex := anchored (gap "辨" "識").
Definition th_references : regex :=
  Regex NoBehind (literal (u "參考詞語")) NoAhead.

(** [\n?\s*〔?注解〕?\s*\n?] *)
Definition notes_heading : regex :=
  Regex NoBehind
    ([opt (chr NL); star isspace; opt (one_of (u "〔"))] ++ literal (u "注解")
     ++ [opt (one_of (u "〕")); star isspace; opt (chr NL)])
    NoAhead.

(** [\s*{re.escape(title)}\s*] *)
Definition around (title : str) : regex :=
  Regex NoBehind ([star isspace] ++ literal title ++ [star isspace]) NoAhead.

(** [[pat.sub(title, ex) for ex in usage_examples]]: the template is
    compiled at each call, so that an empty list compiles nothing. *)
Definition tighten_examples (title : str) (usage_examples : list str)
  : M (list str) :=
  match usage_examples with
  | [] => ret []
  | _ =>
    match parse_template title with
    | Some t => ret (map (re_sub (around title) t) usage_examples)
    | None => raise ReError
    end
  end.

Definition fulltext_lines (title bopomofo pinyin definition source_title
    source_body source_notes story citations : str)
    (usage_examples synonyms antonyms : list str)
    (comparison references_fmt : str) : list str :=
  [u "成語：" ++ title; u "注音：" ++ bopomofo; u "漢語拼音：" ++ pinyin;
   u "釋義：" ++ definition]
  ++ (if is_empty source_title then []
      else if is_empty source_body then []
      else if bool_decide (source_title = u "＃")
           then [u "典源：" ++ source_body]
           else [u "典源：" ++ source_title ++ source_body])
  ++ (if is_empty source_notes then [] else [u "注解：" ++ source_notes])
  ++ (if is_empty story then [] else [u "典故說明：" ++ story])
  ++ (if is_empty citations then [] else [u "書證：" ++ citations])
  ++ (match usage_examples with
      | [] => []
      | _ => [u "例句：" ++ join (u "；") usage_examples]
      end)
  ++ (match synonyms with
      | [] => []
      | _ => [u "近義成語：" ++ join (u "、") synonyms]
      end)
  ++ (match antonyms with
      | [] => []
      | _ => [u "反義成語：" ++ join (u "、") antonyms]
      end)
  ++ (if is_empty comparison then [] else [u "比較說明：" ++ comparison])
  ++ (if is_empty references_fmt then []
      else [u "參考詞語：" ++ references_fmt]).

(** The title without the characters outside [\w] and U+4E00-U+9FFF. *)
Definition title_clean (title : str) : str :=
  re_sub (Regex NoBehind [one (neg (either word (in_range 0x4E00 0x9FFF)))]
            NoAhead) [] (strip title).

Definition parse_idiom (id_value : str) : M dict :=
  let url := add_params (view_url id_value)
               [(lit "webMd", py_str 2); (lit "la", py_str 0)] in
  let! soup := get_soup url in
  let art := only_article soup in
  let table := idiom_table art in
  match table with
  | None => raise NotFound
  | Some _ =>
    let title := text_in_td table th_title in
    let bopomofo := text_in_td table th_bopomofo in
    let pinyin := text_in_td table th_pinyin in

    let bopomofo := strip_newlines (condense_zhuyin bopomofo) in

    let definition := text_in_td table th_definition in
    let definition := replace_arrow_notes definition in
    let definition := condense_zhuyin definition in
    let definition := strip_bpmf_adjacent_newlines definition in
    let definition := fix_inline_markers_and_quotes definition in

    let td_source := td_by_th table th_source in
    let source_all := match td_source with
                      | Some td => norm_space (get_text [NL] td)
                      | None => []
                      end in
    let parts := re_split1 notes_heading source_all in
    let source_text := nth 0 parts [] in
    let source_notes_raw := nth 1 parts [] in
    let '(source_title, source_body_raw) :=
      split_source_title_body source_text in
    let source_body := format_source_body source_body_raw in
    let source_notes := enumerate_source_notes source_notes_raw in

    let story := text_in_td table th_story in
    let story := condense_zhuyin story in
    let story := strip_bpmf_adjacent_newlines story in
    let story := fix_inline_markers_and_quotes story in

    let citations := parse_citations_td (td_by_th table th_citations) in
    let citations := condense_zhuyin citations in
    let citations := strip_bpmf_adjacent_newlines citations in

    let usage := parse_usage_td (td_by_th table th_usage) in

    let! examples :=
      (if is_empty title then ret (usage_examples usage)
       else tighten_examples title (usage_examples usage)) in

    let syn_ant := parse_synonyms_antonyms_td (td_by_th table th_syn_ant) in
    let synonyms_ := map strip_newlines (synonyms syn_ant) in
    let antonyms_ := map strip_newlines (antonyms syn_ant) in

    let references_raw := text_in_td table th_references in
    let references_fmt := format_references_for_fulltext references_raw in

    let fulltext :=
      rm_blanklines (join [NL]
        (fulltext_lines title bopomofo pinyin definition source_title
           source_body source_notes story citations examples synonyms_
           antonyms_ (comparison syn_ant) references_fmt)) in

    if is_empty title || is_empty (strip title) then raise NotFound
    else if (length (title_clean title) <? 2)%nat then raise NotFound
    else if is_empty (strip bopomofo) && is_empty (strip definition)
    then raise NotFound
    else
      ret [("id", VStr id_value);
           ("url", VStr (url_text url));
           ("title", VStr title);
           ("bopomofo", VStr bopomofo);
           ("pinyin", VStr pinyin);
           ("definition", VStr definition);
           ("source_title", VStr source_title);
           ("source", VStr source_body);
           ("source_notes", VStr source_notes);
           ("story", VStr story);
           ("citations", VStr citations);
           ("usage_meaning", VStr (usage_meaning usage));
           ("usage_category", VStr (usage_category usage));
           ("usage_examples", VList examples);
           ("synonyms", VList synonyms_);
           ("synonym_links", VList (synonym_links syn_ant));
           ("antonyms", VList antonyms_);
           ("antonym_links", VList (antonym_links syn_ant));
           ("comparison", VStr (comparison syn_ant));
           ("references", VStr references_raw);
           ("fulltext", VStr fulltext)]%string
  end.
End ParseIdiom.

(* ------------------------------------------------------------------ *)
(** ** [json.dumps] and [json.dump] with [ensure_ascii=False] *)

Definition QUOTE : Z := 0x22.

Definition hex_digit (n : Z) : Z :=
  if n <? 10 then 0x30 + n else 0x61 + (n - 10).

Definition escape_char (c : Z) : str :=
  if c =? QUOTE then [BACKSLASH; QUOTE]
  else if c =? BACKSLASH then [BACKSLASH; BACKSLASH]
  else if c =? 0x0A then lit "\n"
  else if c =? 0x0D then lit "\r"
  else if c =? 0x09 then lit "\t"
  else if c =? 0x08 then lit "\b"
  else if c =? 0x0C then lit "\f"
  else if in_range 0 0x1F c
       then lit "\u00" ++ [hex_digit (c / 16); hex_digit (c mod 16)]
  else [c].

Definition encode_str (s : str) : str :=
  [QUOTE] ++ flat_map escape_char s ++ [QUOTE].

(** One line, items separated by a comma and a space. *)
Definition dumps_value (v : value) : str :=
  match v with
  | VStr s => encode_str s
  | VList l => lit "[" ++ join (lit ", ") (map encode_str l) ++ lit "]"
  end.

Definition dumps (d : dict) : str :=
  lit "{"
  ++ join (lit ", ")
       (map (fun kv => encode_str (lit (fst kv)) ++ lit ": " ++ dumps_value (snd kv)) d)
  ++ lit "}".

(** [indent=2]: one member or item a line. *)
Definition dump_value_indent (v : value) : str :=
  match v with
  | VStr s => encode_str s
  | VList [] => lit "[]"
  | VList l =>
    lit "[" ++ [NL] ++ lit "    "
    ++ join (lit "," ++ [NL] ++ lit "    ") (map encode_str l)
    ++ [NL] ++ lit "  ]"
  end.

Definition dump_indent (d : dict) : str :=
  match d with
  | [] => lit "{}"
  | _ =>
    lit "{" ++ [NL] ++ lit "  "
    ++ join (lit "," ++ [NL] ++ lit "  ")
         (map (fun kv => encode_str (lit (fst kv)) ++ lit ": "
                         ++ dump_value_indent (snd kv)) d)
    ++ [NL] ++ lit "}"
  end.

(* ------------------------------------------------------------------ *)
(** ** Files *)

(** The file store: the content of each file, and the directories made. *)
Record fs := Fs {
  files : gmap str str;
  dirs : gset str
}.

Definition SLASH : Z := 0x2F.

(** [os.path.join(a, b)] *)
Definition path_join (a b : str) : str :=
  match b with
  | c :: _ =>
    if c =? SLASH then b
    else match last a with
         | None => b
         | Some e => if e =? SLASH then a ++ b else a ++ [SLASH] ++ b
         end
  | [] =>
    match last a with
    | None => []
    | Some e => if e =? SLASH then a else a ++ [SLASH]
    end
  end.

(** [os.makedirs(path, exist_ok=True)] *)
Definition makedirs (path : str) (disk : fs) : fs :=
  Fs (files disk) ({[path]} ∪ dirs disk).

(** The operating system's answer to [open(path, mode)] with a mode that
    writes: whether the file at [path] can be opened in the present store.
    It refuses, and [open] raises [OSError], a name longer than the file
    system allows, a folder that may not be written, and the like. *)
Class Os := {
  can_open : fs -> str -> bool
}.

Section Open.
Context `{Os}.

(** [with open(path, "w") as f: f.write(text)]: [None] is the [OSError] of
    [open], which leaves the store as it was; an opened file is emptied
    before [text] is written, and the write to an opened file is taken to
    complete. *)
Definition write_file (path text : str) (disk : fs) : option fs :=
  if can_open disk path
  then Some (Fs (<[path := text]> (files disk)) (dirs disk))
  else None.

(** [with open(path, "a") as f: f.write(text)] *)
Definition append_file (path text : str) (disk : fs) : option fs :=
  if can_open disk path
  then Some (Fs (<[path := default [] (files disk !! path) ++ text]>
                   (files disk)) (dirs disk))
  else None.
End Open.

Definition read_file (path : str) (disk : fs) : str :=
  default [] (files disk !! path).

Section WriteItem.
Context `{Unicode} `{Os}.

(** [data[k]] where the program needs a string. *)
Definition item (k : string) (data : dict) : option str :=
  match dict_get k data with
  | Some (VStr s) => Some s
  | _ => None
  end.

Definition write_item (out_dir : str) (data : dict) (disk : fs)
  : result (str * str * str) * fs :=
  let title := match dict_get "title" data with
               | None => Some []
               | Some (VStr s) => Some s
               | Some (VList _) => None
               end in
  match title, item "id" data with
  | Some title, Some id =>
    let title_slug := safe_slug title in
    let base := id ++ lit "_" ++ title_slug in
    let json_dir := path_join out_dir (lit "json") in
    let txt_dir := path_join out_dir (lit "txt") in
    let disk := makedirs json_dir disk in
    let disk := makedirs txt_dir disk in
    let js_path := path_join json_dir (base ++ lit ".json") in
    let tx_path := path_join txt_dir (base ++ lit ".txt") in
    let jl_path := path_join out_dir (lit "moe_idioms.jsonl") in
    match write_file js_path (dump_indent data) disk with
    | None => (Raise OsError, disk)
    | Some disk =>
      match item "fulltext" data with
      | Some fulltext =>
        match write_file tx_path (fulltext ++ [NL]) disk with
        | None => (Raise OsError, disk)
        | Some disk =>
          match append_file jl_path (dumps data ++ [NL]) disk with
          | None => (Raise OsError, disk)
          | Some disk => (Return (js_path, tx_path, jl_path), disk)
          end
        end
      | None =>
        (* the file is open, and empty, when [data["fulltext"]] fails *)
        match write_file tx_path [] disk with
        | None => (Raise OsError, disk)
        | Some disk => (Raise DataError, disk)
        end
      end
    end
  | _, _ => (Raise DataError, disk)
  end.
End WriteItem.

(* ------------------------------------------------------------------ *)
(** ** The crawl loop of [main] *)

Record args := Args {
  start_id : Z;
  step : Z;
  out_dir : str;
  max_misses : Z
}.

(** The variables of the loop, the session, the file store, and the
    number of [time.sleep(0.1)] calls made. *)
Record loop_state := LoopState {
  idx : Z;
  consecutive_miss : Z;
  ok_cnt : Z;
  miss_cnt : Z;
  err_cnt : Z;
  sess : session;
  disk : fs;
  sleeps : nat
}.

Inductive status := Running | Stopped.

#[global] Instance status_eq_dec : EqDecision status.
Proof. solve_decision. Defined.

Section Main.
Context `{Unicode} `{Network} `{Html} `{Os}.

(** [idx += args.step; time.sleep(0.1)] *)
Definition advance (a : args) (st : loop_state) : loop_state :=
  LoopState (idx st + step a) (consecutive_miss st) (ok_cnt st) (miss_cnt st)
    (err_cnt st) (sess st) (disk st) (S (sleeps st)).

(** One pass through the body of [while True]. *)
Definition iteration (a : args) (st : loop_state) : status * loop_state :=
  let '(r, sess') := parse_idiom (py_str (idx st)) (sess st) in
  match r with
  | Return data =>
    match write_item (out_dir a) data (disk st) with
    | (Return _, disk') =>
      (Running,
       advance a (LoopState (idx st) 0 (ok_cnt st + 1) (miss_cnt st)
                    (err_cnt st) sess' disk' (sleeps st)))
    | (Raise _, disk') =>
      (Running,
       advance a (LoopState (idx st) 0 (ok_cnt st) (miss_cnt st)
                    (err_cnt st + 1) sess' disk' (sleeps st)))
    end
  | Raise NotFound =>
    let st' := LoopState (idx st) (consecutive_miss st + 1) (ok_cnt st)
                 (miss_cnt st + 1) (err_cnt st) sess' (disk st) (sleeps st) in
    if consecutive_miss st' >=? max_misses a then (Stopped, st')
    else (Running, advance a st')
  | Raise _ =>
    (Running,
     advance a (LoopState (idx st) 0 (ok_cnt st) (miss_cnt st)
                  (err_cnt st + 1) sess' (disk st) (sleeps st)))
  end.

(** At most [n] passes. *)
Fixpoint run (a : args) (n : nat) (st : loop_state) : status * loop_state :=
  match n with
  | O => (Running, st)
  | S n' =>
    match iteration a st with
    | (Running, st') => run a n' st'
    | (Stopped, st') => (Stopped, st')
    end
  end.

(** The state in which [main] enters the loop. *)
Definition initial (a : args) (disk : fs) : loop_state :=
  LoopState (start_id a) 0 0 0 0 [] (makedirs (out_dir a) disk) O.

Definition main (a : args) (n : nat) (disk : fs) : status * loop_state :=
  run a n (initial a disk).
End Main.

(* ------------------------------------------------------------------ *)
(** ** Specification of the crawl *)

Section CrawlSpec.
Context `{Unicode} `{Network} `{Html}.

(** The URL that [parse_idiom] requests for an ID. *)
Definition request_url (id_value : str) : URL :=
  add_params (view_url id_value)
    [(lit "webMd", py_str 2); (lit "la", py_str 0)].

(** The ID of pass [k], and the requests made by the first [n] passes. *)
Definition nth_id (a : args) (k : nat) : Z := start_id a + Z.of_nat k * step a.

Definition requests (a : args) (n : nat) : session :=
  map (fun k => request_url (py_str (nth_id a k))) (seq 0 n).

(** What [parse_idiom] answers in pass [k]. *)
Definition nth_result (a : args) (k : nat) : result dict :=
  fst (parse_idiom (py_str (nth_id a k)) (requests a k)).

Definition is_not_found {A} (r : result A) : bool :=
  match r with Raise NotFound => true | _ => false end.

Definition missed (a : args) (k : nat) : bool := is_not_found (nth_result a k).

(** The number of consecutive NotFound results that end the first [n]
    results. *)
Fixpoint misses_upto (a : args) (n : nat) : Z :=
  match n with
  | O => 0
  | S k => if missed a k then misses_upto a k + 1 else 0
  end.

(** Result [k] is a NotFound that brings the number of consecutive
    NotFound results to the limit. *)
Definition reaches_limit (a : args) (k : nat) : Prop :=
  missed a k = true /\ max_misses a <= misses_upto a (S k).

Definition first_reach (a : args) (k : nat) : Prop :=
  reaches_limit a k /\ forall j, (j < k)%nat -> ~ reaches_limit a j.

(** While the loop runs, its variables are those of the specification. *)
Definition in_step (a : args) (n : nat) (st : loop_state) : Prop :=
  idx st = nth_id a n /\ consecutive_miss st = misses_upto a n
  /\ sess st = requests a n /\ sleeps st = n.
End CrawlSpec.


(* ------------------------------------------------------------------ *)
(** ** Sample worlds

    Small instances of the interfaces, on which the definitions can be
    run: a character table that knows ASCII and the CJK ranges, a server
    that always gives the same answer, and documents that are either empty
    or one table of rows, each a header text and a cell; a cell holds a
    text, or a heading followed by a numbered list. *)

Definition basic_alnum (c : Z) : bool := ascii_letter c || ascii_digit c || CJK c.

#[program] Definition basic_unicode : Unicode :=
  {| isalnum := basic_alnum; isdecimal := ascii_digit |}.
Next Obligation. intros c Hc. unfold basic_alnum. rewrite Hc. reflexivity. Qed.
Next Obligation. intros c Hc. exact Hc. Qed.

Definition always (r : response) : Network := {| http_get := fun _ _ => r |}.

Inductive cell :=
| Text (text : str)
| Examples (heading : str) (items : list str).

Inductive sample :=
| Blank
| Table (rows : list (str * cell))
| Row (th : str) (td : cell)
| Cell (content : cell)
| Heading (text : str) (items : list str)
| Items (items : list str)
| Item (text : str).

Definition sample_name (t : sample) : string :=
  match t with
  | Blank => "[document]"
  | Table _ => "table"
  | Row _ _ => "tr"
  | Cell _ => "td"
  | Heading _ _ => "h4"
  | Items _ => "ol"
  | Item _ => "li"
  end.

Definition sample_text (sep : str) (t : sample) : str :=
  match t with
  | Cell (Text text) | Item text | Heading text _ => text
  | Cell (Examples heading items) => join sep (heading :: items)
  | Items items => join sep items
  | _ => []
  end.

Definition sample_html (page : sample) : Html :=
  {| Tag := sample;
     parse_html := fun _ => page;
     select_one := fun css t =>
       match t with
       | Table _ => if decide (css = "#idiomTab"%string) then Some t else None
       | _ => None
       end;
     select := fun css t =>
       match t with
       | Table rows =>
         if decide (css = "tr"%string) then map (fun r => Row (fst r) (snd r)) rows
         else []
       | Items items =>
         if decide (css = "li"%string) then map Item items else []
       | _ => []
       end;
     find := fun name t =>
       match t with
       | Row th td =>
         if decide (name = "th"%string) then Some (Cell (Text th))
         else if decide (name = "td"%string) then Some (Cell td)
         else None
       | _ => None
       end;
     find_all := fun names t =>
       match t with
       | Cell (Examples heading items) =>
         if bool_decide ("h4"%string ∈ names) then [Heading heading items]
         else []
       | _ => []
       end;
     next_siblings := fun t =>
       match t with
       | Heading _ items => [inl (Items items)]
       | _ => []
       end;
     tag_name := sample_name;
     get_attr := fun _ _ => None;
     get_text := sample_text;
     decompose_all := fun _ t => t |}.

(** A page with an idiom, and the same page with a backslash in its title;
    the cell of the usage is [<h4>例句</h4><ol><li>...</li></ol>]. *)
Definition idiom_page : sample :=
  Table [(u "成語", Text (u "一心一意"));
         (u "注音", Text (u "ㄧ ㄒㄧㄣ ㄧ ㄧˋ"));
         (u "釋義", Text (u "心意專一"));
         (u "用法說明", Examples (u "例句") [u "他 一心一意 地工作"])].

Definition backslash_page : sample :=
  Table [(u "成語", Text (u "ab\q")); (u "注音", Text (u "ㄧ ㄒㄧㄣ"));
         (u "釋義", Text (u "心意專一"));
         (u "用法說明", Examples (u "例句") [u "例句一"])].


(** *** The claims about a NotFound pass and about re-fetching, as stated *)

Section CrawlAsStated.
Context `{Unicode} `{Network} `{Html} `{Os}.

(** After a NotFound the loop goes on to the next ID, after one more
    sleep, and has changed neither the files nor the other counters. *)
Definition skipped_and_advanced (a : args) (st : loop_state) : Prop :=
  let st' := snd (iteration a st) in
  fst (iteration a st) = Running
  /\ idx st' = idx st + step a /\ sleeps st' = S (sleeps st)
  /\ disk st' = disk st
  /\ ok_cnt st' = ok_cnt st /\ err_cnt st' = err_cnt st.

(** No URL is requested twice in a run. *)
Definition never_refetched (a : args) (n : nat) (d : fs) : Prop :=
  NoDup (sess (snd (main a n d))).

(** The pass from [st] advances the ID by [step]. *)
Definition advances (a : args) (st : loop_state) : Prop :=
  idx (snd (iteration a st)) = idx st + step a.

End CrawlAsStated.


(** The keys of the record of an idiom, in the order of the source. *)
Definition record_keys : list string :=
  ["id"; "url"; "title"; "bopomofo"; "pinyin"; "definition"; "source_title";
   "source"; "source_notes"; "story"; "citations"; "usage_meaning";
   "usage_category"; "usage_examples"; "synonyms"; "synonym_links";
   "antonyms"; "antonym_links"; "comparison"; "references"; "fulltext"]%string.


(* ------------------------------------------------------------------ *)
(** ** Specification of [parse_idiom] *)

Section ParseSpec.
Context `{Unicode} `{Network} `{Html}.

(** The table of a page, and the three fields that decide whether the
    page counts as an idiom. *)
Definition table_of (html : str) : option Tag :=
  idiom_table (only_article (parse_html html)).

Definition title_of (table : option Tag) : str := text_in_td table th_title.

Definition bopomofo_of (table : option Tag) : str :=
  strip_newlines (condense_zhuyin (text_in_td table th_bopomofo)).

Definition definition_of (table : option Tag) : str :=
  fix_inline_markers_and_quotes
    (strip_bpmf_adjacent_newlines
       (condense_zhuyin
          (replace_arrow_notes (text_in_td table th_definition)))).

Definition examples_of (table : option Tag) : list str :=
  usage_examples (parse_usage_td (td_by_th table th_usage)).

(** The title reduced to word and CJK characters has fewer than two
    characters, or bopomofo and definition are both blank. *)
Definition no_content (table : option Tag) : bool :=
  (length (title_clean (title_of table)) <? 2)%nat
  || (is_empty (strip (bopomofo_of table))
      && is_empty (strip (definition_of table))).

(** The title is not a replacement template although there are examples
    to rewrite with it. *)
Definition template_fails (table : option Tag) : bool :=
  negb (is_empty (title_of table))
  && negb (bool_decide (examples_of table = []))
  && negb (bool_decide (is_Some (parse_template (title_of table)))).
End ParseSpec.

(** The page [backslash_page] without its bopomofo and definition. *)
Definition backslash_blank_page : sample :=
  Table [(u "成語", Text (u "ab\q"));
         (u "用法說明", Examples (u "例句") [u "例句一"])].



(** The number of bytes of a text in UTF-8, and the last component of a
    path. *)
Definition utf8_length (s : str) : Z :=
  fold_right (fun c n =>
    (if c <? 0x80 then 1 else if c <? 0x800 then 2
     else if c <? 0x10000 then 3 else 4) + n) 0 s.

Fixpoint basename (path : str) : str :=
  match path with
  | [] => []
  | c :: rest =>
    if existsb (Z.eqb SLASH) rest then basename rest
    else if c =? SLASH then rest else path
  end.

(** A file system that opens every file whose name has at most 255 bytes,
    the limit of the common Linux file systems, and raises [OSError] (file
    name too long) for the others. *)
#[global] Instance name_limit : Os :=
  {| can_open := fun _ path => utf8_length (basename path) <=? 255 |}.


(** *** Runs on the sample worlds *)

(** A server whose pages have no idiom table: every ID is NotFound. *)
Definition nothing_there {A} (f : Unicode -> Network -> Html -> A) : A :=
  f basic_unicode (always (Page [])) (sample_html Blank).

(** A server whose page is [idiom_page], with one example of usage. *)
Definition idiom_there {A}
  (f : Unicode -> Network -> Html -> A) : A :=
  f basic_unicode (always (Page [])) (sample_html idiom_page).

(** [parse_idiom] on a sample page served to every request, and the
    specification of [parse_idiom] on that page. *)
Definition on_sample (page : sample) : result dict :=
  fst (@parse_idiom basic_unicode (always (Page [])) (sample_html page)
         (py_str 7) []).

Definition sample_table (page : sample) : option sample :=
  @table_of (sample_html page) [].

Definition sample_no_content (page : sample) : bool :=
  @no_content basic_unicode (sample_html page) (Some page).


(* ------------------------------------------------------------------ *)
(** ** Specification of the substitutions *)

(** Each run of characters of [cls] replaced by the one character [y];
    [in_run] tells whether the character before belongs to such a run. *)
Fixpoint squash (cls : cclass) (y : Z) (in_run : bool) (s : str) : str :=
  match s with
  | [] => []
  | c :: t =>
    if cls c then
      if in_run then squash cls y true t else y :: squash cls y true t
    else c :: squash cls y false t
  end.


(** No two neighbours of [s] are related by [bad]. *)
Fixpoint no_pair (bad : Z -> Z -> bool) (s : str) : Prop :=
  match s with
  | x :: (y :: _) as t => bad x y = false /\ no_pair bad t
  | _ => True
  end.


(** The pattern [\s+\n] of [norm_space]. *)
Definition spaces_newline : regex :=
  Regex NoBehind [plus isspace; one (chr NL)] NoAhead.


(** *** The shape of a normalised string *)

(** The character before a string, if any, in front of it. *)
Definition with_prev (prev : option Z) (s : str) : str :=
  match prev with
  | Some p => p :: s
  | None => s
  end.

(** Horizontal white space is single spaces. *)
Definition single_spaced (s : str) : Prop :=
  Forall (fun c => hspace c = true -> c = SP) s
  /\ no_pair (fun a b => hspace a && hspace b) s.

(** No white space before a newline. *)
Definition tight_newlines (s : str) : Prop :=
  no_pair (fun a b => isspace a && (b =? NL)) s.

(** Neither end is white space. *)
Definition stripped (s : str) : Prop :=
  match s with
  | [] => True
  | c :: _ => isspace c = false /\ exists e, last s = Some e /\ isspace e = false
  end.


(** *** [condense_zhuyin], as the claim words it *)

(** The first character of [s] that is not white space. *)
Fixpoint next_nonspace (s : str) : option Z :=
  match s with
  | [] => None
  | c :: t => if isspace c then next_nonspace t else Some c
  end.

Definition is_bpmf (o : option Z) : bool :=
  match o with
  | Some c => BPMF c
  | None => false
  end.

(** A white-space character is deleted when the nearest characters that are
    not white space, on its left ([left]) and on its right, are both
    bopomofo: its run lies strictly between two bopomofo characters.  Every
    other character is kept. *)
Fixpoint drop_flanked (left : option Z) (s : str) : str :=
  match s with
  | [] => []
  | c :: t =>
    if isspace c then
      if is_bpmf left && is_bpmf (next_nonspace t) then drop_flanked left t
      else c :: drop_flanked left t
    else c :: drop_flanked (Some c) t
  end.

(** The pattern of [condense_zhuyin]. *)
Definition between_bpmf : regex :=
  Regex (BehindIn BPMF) [plus isspace] (AheadIn BPMF).

(** What the loop of the substitution knows about the left neighbour when
    it stands on white space. *)
Definition left_agrees (prev left : option Z) (s : str) : Prop :=
  match s with
  | c :: _ =>
    if isspace c then
      match prev with
      | None => left = None
      | Some p =>
        if isspace p then is_bpmf left && is_bpmf (next_nonspace s) = false
        else left = Some p
      end
    else True
  | [] => True
  end.


(** *** Matches as splits of the text *)

(** The most that a class can take at the head of [s]. *)
Definition most (a : atom) (s : str) : nat :=
  match a_max a with
  | Some m => Nat.min m (run_length (a_cls a) s)
  | None => run_length (a_cls a) s
  end.

(** [ls] gives each class of the pattern a count within its bounds, and the
    look-ahead holds after them. *)
Fixpoint splits (la : ahead) (atoms : list atom) (s : str) (ls : list nat)
  : Prop :=
  match atoms, ls with
  | [], [] => ahead_ok la s = true
  | a :: atoms', j :: ls' =>
    (a_min a <= j <= most a s)%nat /\ splits la atoms' (drop j s) ls'
  | _, _ => False
  end.


(** *** [newline_to_cjk_comma], as the claim words it *)

Definition in_class (cls : cclass) (o : option Z) : bool :=
  match o with
  | Some c => cls c
  | None => false
  end.

(** The white-space run at the head of [s] has a newline. *)
Fixpoint has_newline (s : str) : bool :=
  match s with
  | [] => false
  | c :: t => isspace c && ((c =? NL) || has_newline t)
  end.

(** Where a scan stands with respect to the white-space runs: outside, in
    a run that is kept, or in a run that a comma has replaced. *)
Inductive run_state := Outside | Kept | Replaced.

(** A white-space run with a newline, between a CJK character or [']'] on
    its left ([left], the nearest character that is not white space) and a
    CJK character or opening quote or bracket on its right, becomes one
    fullwidth comma.  Every other character is kept. *)
Fixpoint wrap_commas (left : option Z) (st : run_state) (s : str) : str :=
  match s with
  | [] => []
  | c :: t =>
    if isspace c then
      match st with
      | Outside =>
        if in_class cjk_or_bracket left && has_newline s
           && in_class cjk_or_opening (next_nonspace s)
        then FW_COMMA :: wrap_commas left Replaced t
        else c :: wrap_commas left Kept t
      | Kept => c :: wrap_commas left Kept t
      | Replaced => wrap_commas left Replaced t
      end
    else c :: wrap_commas (Some c) Outside t
  end.

(** The newlines deleted. *)
Definition delete_newlines (s : str) : str :=
  filter (fun c => c <> NL) s.

(** The first pattern of [newline_to_cjk_comma]. *)
Definition wrapped_line : regex :=
  Regex (BehindIn cjk_or_bracket)
    [star isspace; plus (chr NL); star isspace] (AheadIn cjk_or_opening).

(** What the loop of the substitution knows about the scan of
    [wrap_commas] when it stands on white space. *)
Definition scan_agrees (prev left : option Z) (st : run_state) (s : str)
  : Prop :=
  match s with
  | c :: _ =>
    if isspace c then
      match prev with
      | None => left = None /\ st = Outside
      | Some p => if isspace p then st = Kept else left = Some p /\ st = Outside
      end
    else True
  | [] => True
  end.


(** *** [safe_slug], as the claim words it *)

Section SlugSpec.
Context `{Unicode}.

(** The input stripped, every run of other characters made one underscore,
    the underscores that follow one another made one, and the underscores
    at the ends taken off. *)
Definition slug_core (s : str) : str :=
  strip_char UNDERSCORE
    (squash (chr UNDERSCORE) UNDERSCORE false
       (squash (neg slug_class) UNDERSCORE false (strip s))).
End SlugSpec.

(* ------------------------------------------------------------------ *)
(** ** Chinese numerals *)

Definition CN_NUM : gmap Z str :=
  list_to_map [(1, u "一"); (2, u "二"); (3, u "三"); (4, u "四"); (5, u "五");
               (6, u "六"); (7, u "七"); (8, u "八"); (9, u "九"); (10, u "十")].

(** [cn_index(n)]; [None] is the [KeyError] of a number that [CN_NUM] does
    not have. *)
Definition cn_index (n : Z) : option str :=
  if n <=? 10 then CN_NUM !! n
  else if n <? 20 then x ← CN_NUM !! (n - 10); Some (u "十" ++ x)
  else
    let a := n `div` 10 in
    let b := n `mod` 10 in
    x ← CN_NUM !! a;
    y ← (if b =? 0 then Some [] else CN_NUM !! b);
    Some (x ++ u "十" ++ y).

(** The numerals of 1, 2, ..., 109. *)
Definition numerals : list (option str) :=
  (fun k => cn_index (Z.of_nat (S k))) <$> seq 0 109.

(* ------------------------------------------------------------------ *)
(** ** The corpus file *)

(** The path of [moe_idioms.jsonl] for a run, and the number of lines of a
    text that ends each of its lines with a newline. *)
Definition jsonl_path (a : args) : str :=
  path_join (out_dir a) (lit "moe_idioms.jsonl").

Definition line_count (s : str) : Z :=
  Z.of_nat (length (filter (fun c => c = NL) s)).

(** What holds of the loop variables and of the corpus file before and after
    every pass; [lines] is the number of lines that the corpus had before
    the run. *)
Definition loop_inv (a : args) (lines : Z) (st : loop_state) : Prop :=
  ok_cnt st + miss_cnt st + err_cnt st = Z.of_nat (length (sess st))
  /\ 0 <= consecutive_miss st <= miss_cnt st
  /\ 0 <= ok_cnt st /\ 0 <= err_cnt st
  /\ line_count (read_file (jsonl_path a) (disk st)) = lines + ok_cnt st.

(* ------------------------------------------------------------------ *)
(** ** Templates whose literals have a property *)

Definition piece_ok (P : Z -> Prop) (p : piece) : Prop :=
  match p with
  | TLit l => Forall P l
  | _ => True
  end.

(* ------------------------------------------------------------------ *)
(** ** The text of a string *)

(** The characters of [s] that are not white space, in order. *)
Definition visible (s : str) : str := filter (fun c => isspace c = false) s.


(** A text as [norm_space] leaves it. *)
Definition normalised (s : str) : Prop :=
  single_spaced s /\ tight_newlines s /\ stripped s.

(** What holds of the terms and links that the walk of a heading's
    siblings collects. *)
Definition collected (acc : list str * list str) : Prop :=
  Forall (fun t => NL ∉ t) (fst acc)
  /\ Forall (fun l => starts_with (BASE ++ VIEW) l = true) (snd acc).

(* ------------------------------------------------------------------ *)
(** ** The characters that count in a title *)

(** [[\w一-鿿]], the characters that the check of the title keeps. *)
Definition title_char `{Unicode} : cclass :=
  either word (in_range 0x4E00 0x9FFF).

(* ------------------------------------------------------------------ *)
(** ** The parts of a match *)

(** The texts that the classes of a pattern took, given the lengths. *)
Fixpoint segments (ls : list nat) (s : str) : list str :=
  match ls with
  | [] => []
  | j :: ls' => take j s :: segments ls' (drop j s)
  end.

(* ------------------------------------------------------------------ *)
(** ** The files of a run *)

Section RunFiles.
Context `{Unicode} `{Network} `{Html} `{Os}.

(** The name that [write_item] gives to the files of a record, and the
    paths of its JSON and TXT files. *)
Definition base_name (id title : str) : str :=
  id ++ lit "_" ++ safe_slug title.

Definition json_path (a : args) (id title : str) : str :=
  path_join (path_join (out_dir a) (lit "json"))
    (base_name id title ++ lit ".json").

Definition txt_path (a : args) (id title : str) : str :=
  path_join (path_join (out_dir a) (lit "txt"))
    (base_name id title ++ lit ".txt").

(** In the store [now], the records of those of the first [n] passes of
    the run from [d] that succeeded are in their files.  Pass [k]
    succeeded when [parse_idiom] returned a record and [write_item]
    returned, on the store that the passes before had left. *)
Definition on_disk (a : args) (d : fs) (n : nat) (now : fs) : Prop :=
  forall k data paths title fulltext,
    (k < n)%nat -> nth_result a k = Return data ->
    fst (write_item (out_dir a) data (disk (snd (main a k d)))) = Return paths ->
    dict_get "title" data = Some (VStr title) ->
    dict_get "fulltext" data = Some (VStr fulltext) ->
    files now !! json_path a (py_str (nth_id a k)) title = Some (dump_indent data)
    /\ files now !! txt_path a (py_str (nth_id a k)) title
       = Some (fulltext ++ [NL]).
End RunFiles.

(* ================================================================== *)
(** * Properties *)

(** ** The utilities on small inputs *)

Example norm_space_sample :
  norm_space (lit "  a " ++ [0x09; 0xA0] ++ lit "b  " ++ [NL] ++ lit " c ")
  = lit "a b" ++ [NL] ++ lit " c".
Proof. reflexivity. Qed.

Example condense_zhuyin_sample :
  condense_zhuyin (u "ㄅ ㄆ  ㄇ a ㄈ ") = u "ㄅㄆㄇ a ㄈ ".
Proof. reflexivity. Qed.

Example newline_to_cjk_comma_sample :
  newline_to_cjk_comma (u "中 " ++ [NL] ++ u " 文，" ++ [NL] ++ u "，「a]"
                        ++ [NL] ++ u "（b" ++ [NL] ++ u "c")
  = u "中，文，「a]，（bc".
Proof. reflexivity. Qed.

Example safe_slug_sample :
  @safe_slug basic_unicode (u " 一心/一意 (a_b)! ") = u "一心_一意_a_b".
Proof. reflexivity. Qed.

Example parse_template_sample :
  parse_template (lit "a\nb") = Some [TLit [0x61]; TLit [NL]; TLit [0x62]]
  /\ parse_template (lit "ab\q") = None.
Proof. split; reflexivity. Qed.

Example enumerate_source_notes_sample :
  enumerate_source_notes (u "甲乙：一二" ++ [NL] ++ u "三四" ++ [NL]
                          ++ u " 丙：五六」")
  = u "[1]甲乙：一二三四。[2]丙：五六」".
Proof. vm_compute. reflexivity. Qed.

Example parse_usage_td_sample :
  @parse_usage_td (sample_html Blank)
    (Some (Cell (Examples (u "例句") [u " 他 一心一意" ++ [NL] ++ u "地工作"])))
  = Usage [] [] [u "他 一心一意地工作"].
Proof. vm_compute. reflexivity. Qed.

(** ** The session of [parse_idiom] *)

Section Crawl.
Context `{Unicode} `{Network} `{Html} `{Os}.

Lemma tighten_examples_session title exs s :
  snd (tighten_examples title exs s) = s.
Proof. unfold tighten_examples, ret, raise. repeat case_match; reflexivity. Qed.

(** [parse_idiom] makes one request, for [request_url]. *)
Lemma parse_idiom_session id_value s :
  snd (parse_idiom id_value s) = s ++ [request_url id_value].
Proof.
  unfold parse_idiom, bind, get_soup. fold (request_url id_value).
  destruct (http_get s (request_url id_value)); [|reflexivity].
  destruct (idiom_table _) as [t|]; [|reflexivity].
  destruct (split_source_title_body _) as [st sb].
  match goal with
  | |- context [if is_empty ?t then ret ?a else tighten_examples ?b ?c] =>
    pose proof (tighten_examples_session b c (s ++ [request_url id_value])) as Ht;
    destruct (is_empty t)
  end.
  - unfold ret, raise. cbv beta iota. repeat case_match; reflexivity.
  - destruct (tighten_examples _ _ _) as [[ex|e] s']; simpl in Ht; subst s';
      [|reflexivity].
    unfold ret, raise. repeat case_match; reflexivity.
Qed.

Lemma parse_idiom_eq id_value s :
  parse_idiom id_value s
  = (fst (parse_idiom id_value s), s ++ [request_url id_value]).
Proof. rewrite <- parse_idiom_session. apply surjective_pairing. Qed.

Lemma requests_S a n :
  requests a (S n) = requests a n ++ [request_url (py_str (nth_id a n))].
Proof. unfold requests. rewrite seq_S, map_app. reflexivity. Qed.

Lemma length_requests a n : length (requests a n) = n.
Proof. unfold requests. rewrite length_map. apply length_seq. Qed.

Lemma nth_id_S a n : nth_id a (S n) = nth_id a n + step a.
Proof. unfold nth_id. lia. Qed.

(** *** One pass *)

(** The pass of a NotFound. *)
Lemma iteration_not_found a st :
  fst (parse_idiom (py_str (idx st)) (sess st)) = Raise NotFound ->
  iteration a st =
    let st' := LoopState (idx st) (consecutive_miss st + 1) (ok_cnt st)
                 (miss_cnt st + 1) (err_cnt st)
                 (sess st ++ [request_url (py_str (idx st))]) (disk st)
                 (sleeps st) in
    if consecutive_miss st + 1 >=? max_misses a then (Stopped, st')
    else (Running, advance a st').
Proof.
  intros Hr. unfold iteration. rewrite parse_idiom_eq, Hr. reflexivity.
Qed.

(** The pass of any other result. *)
Lemma iteration_other a st :
  is_not_found (fst (parse_idiom (py_str (idx st)) (sess st))) = false ->
  exists st', iteration a st = (Running, st')
    /\ idx st' = idx st + step a
    /\ consecutive_miss st' = 0
    /\ miss_cnt st' = miss_cnt st
    /\ sess st' = sess st ++ [request_url (py_str (idx st))]
    /\ sleeps st' = S (sleeps st).
Proof.
  intros Hr. unfold iteration. rewrite parse_idiom_eq.
  destruct (fst (parse_idiom _ _)) as [data|e].
  - destruct (write_item _ _ _) as [[p|e] d]; eexists; split; try reflexivity;
      simpl; auto.
  - destruct e; try discriminate Hr; eexists; split; try reflexivity;
      simpl; auto.
Qed.

Lemma run_snoc a n st :
  run a (S n) st =
    match run a n st with
    | (Running, st') => iteration a st'
    | (Stopped, st') => (Stopped, st')
    end.
Proof.
  revert st. induction n as [|n IH]; intros st.
  - simpl. destruct (iteration a st) as [[|] st']; reflexivity.
  - change (run a (S (S n)) st) with
      (match iteration a st with
       | (Running, st') => run a (S n) st'
       | (Stopped, st') => (Stopped, st')
       end).
    destruct (iteration a st) as [[|] st'] eqn:E.
    + rewrite IH. simpl. rewrite E. reflexivity.
    + simpl. rewrite E. reflexivity.
Qed.

Lemma run_stopped a n m st st' :
  run a n st = (Stopped, st') -> (n <= m)%nat -> run a m st = (Stopped, st').
Proof.
  intros Hn Hle. induction Hle as [|m Hle IH]; [exact Hn|].
  rewrite run_snoc, IH. reflexivity.
Qed.

(** *** The trace of the loop *)

Lemma iteration_in_step a n st :
  in_step a n st ->
  fst (parse_idiom (py_str (idx st)) (sess st)) = nth_result a n.
Proof. intros (Hi & _ & Hs & _). unfold nth_result. rewrite Hi, Hs. reflexivity. Qed.

Lemma run_trace a d n :
  (exists st, main a n d = (Running, st) /\ in_step a n st
              /\ forall k, (k < n)%nat -> ~ reaches_limit a k)
  \/ (exists k st, (k < n)%nat /\ first_reach a k
        /\ main a n d = (Stopped, st)
        /\ idx st = nth_id a k /\ consecutive_miss st = misses_upto a (S k)
        /\ sess st = requests a (S k) /\ sleeps st = k).
Proof.
  induction n as [|n IH].
  - left. exists (initial a d). split; [reflexivity|]. split.
    + unfold in_step, nth_id. simpl. repeat split; lia.
    + intros k Hk. lia.
  - unfold main in *. rewrite run_snoc.
    destruct IH as [(st & -> & Hin & Hno) | (k & st & Hk & Hf & -> & Hst)].
    + pose proof (iteration_in_step _ _ _ Hin) as Hres.
      destruct Hin as (Hi & Hc & Hs & Hsl).
      destruct (is_not_found (nth_result a n)) eqn:Hm.
      * assert (Hnf : nth_result a n = Raise NotFound).
        { destruct (nth_result a n) as [?|[]]; try discriminate Hm; reflexivity. }
        rewrite iteration_not_found by (rewrite Hres; exact Hnf).
        cbv zeta.
        assert (Hcount : misses_upto a (S n) = consecutive_miss st + 1).
        { simpl. unfold missed. rewrite Hm, Hc. reflexivity. }
        destruct (consecutive_miss st + 1 >=? max_misses a) eqn:Hge.
        -- right. exists n. eexists. split; [lia|]. split; [|split; [reflexivity|]].
           ++ split.
              ** split; [exact Hm|]. rewrite Hcount. lia.
              ** intros j Hj. apply Hno. exact Hj.
           ++ cbn [idx consecutive_miss sess sleeps].
              rewrite Hi, Hs, Hsl, requests_S, Hcount. auto.
        -- left. eexists. split; [reflexivity|]. split.
           ++ unfold in_step, advance. cbn [idx consecutive_miss sess sleeps].
              rewrite Hi, Hs, Hsl, requests_S, nth_id_S, Hcount. auto.
           ++ intros k Hk [Hmk Hlim].
              destruct (decide (k = n)) as [->|Hne].
              ** rewrite Hcount in Hlim. lia.
              ** apply (Hno k); [lia|]. split; assumption.
      * destruct (iteration_other a st) as (st' & -> & Hi' & Hc' & _ & Hs' & Hsl').
        { rewrite Hres. exact Hm. }
        left. exists st'. split; [reflexivity|]. split.
        -- unfold in_step. rewrite Hi', Hc', Hs', Hsl', Hi, Hs, Hsl.
           rewrite requests_S, nth_id_S. simpl. unfold missed. rewrite Hm. auto.
        -- intros k Hk [Hmk Hlim].
           destruct (decide (k = n)) as [->|Hne].
           ++ unfold missed in Hmk. congruence.
           ++ apply (Hno k); [lia|]. split; assumption.
    + right. exists k, st. split; [lia|]. split; [exact Hf|]. split; [reflexivity|].
      exact Hst.
Qed.
End Crawl.

(** ** The claims about the crawl loop *)

Section CrawlClaims.
Context `{Unicode} `{Network} `{Html} `{Os}.

Lemma run_trace_running a d n st :
  main a n d = (Running, st) ->
  in_step a n st /\ forall k, (k < n)%nat -> ~ reaches_limit a k.
Proof.
  intros Hm.
  destruct (run_trace a d n) as [(st' & Hm' & Hin & Hno) | (k & st' & _ & _ & Hm' & _)];
    rewrite Hm in Hm'; [|discriminate].
  injection Hm' as ->. split; assumption.
Qed.

Lemma first_reach_unique a j k : first_reach a j -> first_reach a k -> j = k.
Proof.
  intros [Hj Hj'] [Hk Hk'].
  destruct (lt_eq_lt_dec j k) as [[Hlt| ->]|Hlt]; [|reflexivity|].
  - exfalso. exact (Hk' j Hlt Hj).
  - exfalso. exact (Hj' k Hlt Hk).
Qed.

(** C1. The crawl loop stops exactly when the number of consecutive
    NotFound results reaches [max_misses]: while the loop runs, its
    counter is the number of NotFound results that end the results seen
    so far (a NotFound adds one, any other result resets it); the loop is
    running before pass [k] and stopped after it exactly when result [k]
    is the first NotFound that brings this number to the limit; and once
    stopped, more passes fetch nothing: the requests stay those of the
    first [k + 1] IDs. *)
Theorem crawl_stops_at_limit a d k :
  (first_reach a k <->
     fst (main a k d) = Running /\ fst (main a (S k) d) = Stopped)
  /\ (first_reach a k ->
      forall m, (k < m)%nat ->
        main a m d = main a (S k) d
        /\ sess (snd (main a m d)) = requests a (S k)
        /\ consecutive_miss (snd (main a m d)) = misses_upto a (S k))
  /\ (forall st, main a k d = (Running, st) ->
        consecutive_miss st = misses_upto a k)
  /\ (1 <= max_misses a ->
      (reaches_limit a k <-> max_misses a <= misses_upto a (S k))).
Proof.
  assert (Hstop : forall k, first_reach a k -> forall m, (k < m)%nat ->
            exists st, main a m d = (Stopped, st)
              /\ sess st = requests a (S k)
              /\ consecutive_miss st = misses_upto a (S k)).
  { clear k. intros k Hf m Hm.
    destruct (run_trace a d m) as [(st & _ & _ & Hno) | (j & st & _ & Hj & Hrun & _ & Hc & Hs & _)].
    - exfalso. exact (Hno k Hm (proj1 Hf)).
    - rewrite (first_reach_unique _ _ _ Hf Hj). eauto. }
  split; [|split; [|split]].
  - split.
    + intros Hf. split.
      * destruct (run_trace a d k) as [(st & -> & _) | (j & st & Hj & Hfj & _)];
          [reflexivity|].
        exfalso. destruct Hf as [Hr Hno]. exact (Hno j Hj (proj1 Hfj)).
      * destruct (Hstop k Hf (S k)) as (st & -> & _); [lia|reflexivity].
    + intros [Hrun Hstopk].
      destruct (run_trace a d (S k)) as [(st & Hm & _) | (j & st & Hj & Hfj & _)].
      * rewrite Hm in Hstopk. discriminate.
      * destruct (decide (j = k)) as [->|Hne]; [exact Hfj|].
        destruct (Hstop j Hfj k) as (st' & Hm' & _); [lia|].
        rewrite Hm' in Hrun. discriminate.
  - intros Hf m Hm.
    destruct (Hstop k Hf m Hm) as (st & Hst & Hs & Hc).
    destruct (Hstop k Hf (S k)) as (st' & Hst' & _); [lia|].
    rewrite Hst. simpl. split; [|split; assumption].
    rewrite Hst'. f_equal.
    assert (Hsame : main a m d = (Stopped, st')).
    { unfold main in *. eapply run_stopped; [exact Hst'|lia]. }
    congruence.
  - intros st Hm. apply run_trace_running in Hm. apply Hm.
  - intros Hpos. unfold reaches_limit. split; [tauto|].
    intros Hle. split; [|exact Hle].
    simpl in Hle. destruct (missed a k); [reflexivity|lia].
Qed.
End CrawlClaims.

Section CrawlClaims2.
Context `{Unicode} `{Network} `{Html} `{Os}.

(** C2, amended. A pass in which [parse_idiom] raises NotFound makes its
    one request and changes nothing but the two miss counters: the file
    store (per-entry JSON and TXT files, JSONL corpus) is as before, and
    so are the other counters.  Unless this miss brings the consecutive
    misses to [max_misses], the loop then sleeps once and goes on to the
    next ID, [idx + step]; if it does, the loop ends at this ID. *)
Theorem not_found_is_skipped a st :
  fst (parse_idiom (py_str (idx st)) (sess st)) = Raise NotFound ->
  let st' := snd (iteration a st) in
  disk st' = disk st
  /\ ok_cnt st' = ok_cnt st /\ err_cnt st' = err_cnt st
  /\ miss_cnt st' = miss_cnt st + 1
  /\ consecutive_miss st' = consecutive_miss st + 1
  /\ sess st' = sess st ++ [request_url (py_str (idx st))]
  /\ (if consecutive_miss st + 1 >=? max_misses a
      then fst (iteration a st) = Stopped
           /\ idx st' = idx st /\ sleeps st' = sleeps st
      else fst (iteration a st) = Running
           /\ idx st' = idx st + step a /\ sleeps st' = S (sleeps st)).
Proof.
  intros Hnf. rewrite (iteration_not_found a st Hnf). cbv zeta.
  destruct (consecutive_miss st + 1 >=? max_misses a); simpl; auto 10.
Qed.

(** *** Requests *)

Lemma lit_inj s1 s2 : lit s1 = lit s2 -> s1 = s2.
Proof.
  revert s2. induction s1 as [|a1 s1 IH]; intros [|a2 s2] Heq;
    try discriminate Heq; [reflexivity|].
  simpl in Heq. injection Heq as Ha Hs. f_equal; [|apply IH; exact Hs].
  apply N2Z.inj in Ha.
  rewrite <- (Ascii.ascii_N_embedding a1), <- (Ascii.ascii_N_embedding a2), Ha.
  reflexivity.
Qed.

Lemma py_str_inj n m : py_str n = py_str m -> n = m.
Proof. intros Heq. apply lit_inj in Heq. exact (inj pretty _ _ Heq). Qed.

(** The query that [add_params] builds: the ID (unless it is blank), then
    [webMd=2] and [la=0]. *)
Lemma request_url_query id_value :
  u_base (request_url id_value) = BASE ++ VIEW
  /\ u_query (request_url id_value)
     = (if is_empty id_value then [] else [(lit "ID", id_value)])
       ++ [(lit "webMd", lit "2"); (lit "la", lit "0")].
Proof. split; [reflexivity|]. destruct id_value; reflexivity. Qed.

Lemma request_url_inj id1 id2 : request_url id1 = request_url id2 -> id1 = id2.
Proof.
  intros Heq. apply (f_equal u_query) in Heq.
  rewrite !(proj2 (request_url_query _)) in Heq.
  destruct id1, id2; simpl in Heq; congruence.
Qed.

Lemma requests_NoDup a n : step a <> 0 -> NoDup (requests a n).
Proof.
  intros Hstep. unfold requests.
  change (NoDup ((fun k => request_url (py_str (nth_id a k))) <$> seq 0 n)).
  apply NoDup_fmap_2_strong; [|apply NoDup_seq].
  intros x y _ _ Heq. apply request_url_inj, py_str_inj in Heq.
  unfold nth_id in Heq. nia.
Qed.

Lemma iteration_session a st :
  sess (snd (iteration a st)) = sess st ++ [request_url (py_str (idx st))].
Proof.
  unfold iteration. rewrite parse_idiom_eq.
  destruct (fst (parse_idiom _ _)) as [data|e].
  - destruct (write_item _ _ _) as [[p|e] d]; reflexivity.
  - destruct e; try reflexivity. simpl. destruct (_ >=? _); reflexivity.
Qed.

(** C7, amended. A call of [parse_idiom] makes exactly one request, for
    the URL of its ID with [webMd=2] and [la=0] added; each pass of the
    loop makes exactly that one request for its ID; and when [step] is not
    zero no URL is requested twice in a run, so that an ID that failed is
    never fetched again. *)
Theorem one_get_per_id a d n id_value s :
  snd (parse_idiom id_value s) = s ++ [request_url id_value]
  /\ u_base (request_url id_value) = BASE ++ VIEW
  /\ u_query (request_url id_value)
     = (if is_empty id_value then [] else [(lit "ID", id_value)])
       ++ [(lit "webMd", lit "2"); (lit "la", lit "0")]
  /\ (forall st,
        sess (snd (iteration a st))
        = sess st ++ [request_url (py_str (idx st))])
  /\ (step a <> 0 -> never_refetched a n d).
Proof.
  split; [apply parse_idiom_session|].
  split; [apply request_url_query|].
  split; [apply request_url_query|].
  split; [intros st; apply iteration_session|].
  intros Hstep. unfold never_refetched.
  destruct (run_trace a d n) as [(st & -> & Hin & _) | (k & st & _ & _ & -> & _ & _ & Hs & _)].
  - destruct Hin as (_ & _ & Hs & _). cbn [snd]. rewrite Hs.
    apply requests_NoDup, Hstep.
  - cbn [snd]. rewrite Hs. apply requests_NoDup, Hstep.
Qed.
(** What a pass does to the ID: it goes on by [step] when the loop goes
    on, and stays when the loop stops, which only a NotFound does. *)
Lemma iteration_idx a st :
  (fst (iteration a st) = Running -> idx (snd (iteration a st)) = idx st + step a)
  /\ (fst (iteration a st) = Stopped ->
      idx (snd (iteration a st)) = idx st
      /\ fst (parse_idiom (py_str (idx st)) (sess st)) = Raise NotFound
      /\ max_misses a <= consecutive_miss st + 1).
Proof.
  destruct (is_not_found (fst (parse_idiom (py_str (idx st)) (sess st)))) eqn:Hm.
  - assert (Hnf : fst (parse_idiom (py_str (idx st)) (sess st)) = Raise NotFound).
    { destruct (fst (parse_idiom _ _)) as [?|[]]; try discriminate Hm; reflexivity. }
    rewrite (iteration_not_found _ _ Hnf). cbv zeta.
    destruct (consecutive_miss st + 1 >=? max_misses a) eqn:Hge; cbn [fst snd].
    + split; [discriminate|]. intros _. split; [reflexivity|].
      split; [exact Hnf|]. lia.
    + split; [reflexivity|discriminate].
  - destruct (iteration_other a st Hm) as (st2 & -> & Hi & _).
    cbn [fst snd]. split; [intros _; exact Hi|discriminate].
Qed.

(** C4, amended. The IDs attempted are [start_id], [start_id + step],
    [start_id + 2 * step], ..., one request each and in this order: while
    the loop runs, [n] passes have requested the first [n] of them and the
    ID is [start_id + n * step]; once it has stopped, at the first pass [k]
    whose NotFound brings the consecutive misses to the limit, the
    requests are those of passes [0] to [k] and the ID is still that of
    pass [k].  For a single pass: it requests the page of its ID; if the
    loop goes on after it (success, NotFound below the limit, or any other
    error) the ID has advanced by exactly [step]; if the loop stops, which
    only a NotFound at the limit does, the ID has not advanced. *)
Theorem ids_follow_stride a d n :
  (fst (main a n d) = Running ->
     sess (snd (main a n d))
     = map (fun k => request_url (py_str (start_id a + Z.of_nat k * step a)))
           (seq 0 n)
     /\ idx (snd (main a n d)) = start_id a + Z.of_nat n * step a)
  /\ (fst (main a n d) = Stopped ->
      exists k, (k < n)%nat /\ first_reach a k
        /\ sess (snd (main a n d))
           = map (fun k => request_url (py_str (start_id a + Z.of_nat k * step a)))
                 (seq 0 (S k))
        /\ idx (snd (main a n d)) = start_id a + Z.of_nat k * step a)
  /\ (forall st,
        sess (snd (iteration a st)) = sess st ++ [request_url (py_str (idx st))]
        /\ (fst (iteration a st) = Running -> advances a st)
        /\ (fst (iteration a st) = Stopped ->
            idx (snd (iteration a st)) = idx st
            /\ fst (parse_idiom (py_str (idx st)) (sess st)) = Raise NotFound
            /\ max_misses a <= consecutive_miss st + 1)
        /\ (fst (parse_idiom (py_str (idx st)) (sess st)) <> Raise NotFound ->
            fst (iteration a st) = Running /\ advances a st)).
Proof.
  split; [|split].
  - destruct (run_trace a d n) as [(st & -> & Hin & _) | (k & st & _ & _ & -> & _)];
      [|discriminate].
    intros _. destruct Hin as (Hi & _ & Hs & _). cbn [snd]. auto.
  - destruct (run_trace a d n) as [(st & -> & _) | (k & st & Hk & Hf & -> & Hi & _ & Hs & _)];
      [discriminate|].
    intros _. exists k. cbn [snd]. auto.
  - intros st. pose proof (iteration_idx a st) as [Hrun Hstop].
    split; [apply iteration_session|]. split; [exact Hrun|]. split; [exact Hstop|].
    intros Hnf.
    assert (Hr : fst (iteration a st) = Running).
    { destruct (fst (iteration a st)) eqn:E; [reflexivity|].
      exfalso. apply Hnf. apply Hstop. reflexivity. }
    split; [exact Hr|exact (Hrun Hr)].
Qed.
End CrawlClaims2.

(** *** On the sample worlds *)

(** C2, counterexample. With [max_misses = 1] the first NotFound ends the
    loop: the ID is not advanced and there is no sleep. *)
Lemma last_miss_does_not_advance :
  let a := Args 1 1 (lit "out") 1 in
  nothing_there (fun U N D =>
    let st := initial a (Fs ∅ ∅) in
    fst (parse_idiom (py_str (idx st)) (sess st)) = Raise NotFound
    /\ ~ skipped_and_advanced a st).
Proof.
  split; [reflexivity|]. intros [Hrun _]. vm_compute in Hrun. discriminate Hrun.
Qed.

(** C7, counterexample. With [step = 0] the second pass requests the URL of
    the first pass again. *)
Lemma zero_step_refetches :
  nothing_there (fun U N D =>
    ~ never_refetched (Args 5 0 (lit "out") 3) 2 (Fs ∅ ∅)).
Proof.
  unfold nothing_there, never_refetched. intros Hnd.
  apply NoDup_cons in Hnd as [Hnotin _]. apply Hnotin. left.
Qed.

(** C1 on a server without idioms and [max_misses = 2]: the second
    NotFound is the first to reach the limit, and the loop stops there. *)
Lemma crawl_stops_at_limit_witness :
  nothing_there (fun U N D =>
    let a := Args 1 1 (lit "out") 2 in
    let d := Fs ∅ ∅ in
    first_reach a 1 /\ 1 <= max_misses a
    /\ (fst (main a 1 d) = Running /\ fst (main a 2 d) = Stopped)
    /\ (forall m, (1 < m)%nat -> sess (snd (main a m d)) = requests a 2)
    /\ (reaches_limit a 1 <-> max_misses a <= misses_upto a 2)).
Proof.
  unfold nothing_there.
  pose (a := Args 1 1 (lit "out") 2). pose (d := Fs ∅ ∅).
  pose proof (@crawl_stops_at_limit basic_unicode (always (Page []))
                (sample_html Blank) name_limit a d 1%nat)
    as (Hiff & Hafter & _ & Hpos).
  assert (Hf : @first_reach basic_unicode (always (Page []))
                 (sample_html Blank) a 1).
  { split.
    - split; [reflexivity|]. vm_compute. discriminate.
    - intros j Hj [_ Hle]. destruct j as [|j]; [|lia].
      vm_compute in Hle. apply Hle. reflexivity. }
  assert (Hp : 1 <= max_misses a) by (vm_compute; discriminate).
  split; [exact Hf|]. split; [exact Hp|].
  split; [exact (proj1 Hiff Hf)|].
  split; [|exact (Hpos Hp)].
  intros m Hm. exact (proj1 (proj2 (Hafter Hf m Hm))).
Defined.

(** C2 on the same server with [max_misses = 3]: the first NotFound is
    skipped and the loop goes on to ID 2. *)
Lemma not_found_is_skipped_witness :
  nothing_there (fun U N D =>
    let a := Args 1 1 (lit "out") 3 in
    let st := initial a (Fs ∅ ∅) in
    fst (parse_idiom (py_str (idx st)) (sess st)) = Raise NotFound
    /\ disk (snd (iteration a st)) = disk st
    /\ fst (iteration a st) = Running
    /\ idx (snd (iteration a st)) = 2).
Proof.
  unfold nothing_there.
  pose (a := Args 1 1 (lit "out") 3). pose (st := initial a (Fs ∅ ∅)).
  assert (Hnf : fst (@parse_idiom basic_unicode (always (Page []))
                       (sample_html Blank)
                       (py_str (idx st)) (sess st)) = Raise NotFound)
    by reflexivity.
  pose proof (@not_found_is_skipped basic_unicode (always (Page []))
                (sample_html Blank) name_limit a st Hnf)
    as (Hd & _ & _ & _ & _ & _ & Hgo).
  change (consecutive_miss st + 1 >=? max_misses a) with false in Hgo.
  destruct Hgo as (Hrun & Hidx & _).
  split; [exact Hnf|]. split; [exact Hd|]. split; [exact Hrun|].
  etransitivity; [exact Hidx|reflexivity].
Defined.

(** C4, counterexample. With [max_misses = 1] the pass of ID 1 is a
    NotFound that ends the loop, and the ID is still 1 after it: this pass
    has not advanced the ID by [step]. *)
Lemma limit_pass_keeps_id :
  let a := Args 1 1 (lit "out") 1 in
  nothing_there (fun U N D =>
    let st := initial a (Fs ∅ ∅) in
    ~ advances a st
    /\ iteration a st = (Stopped, snd (iteration a st))
    /\ idx st = 1 /\ idx (snd (iteration a st)) = 1).
Proof.
  split; [|split; [reflexivity|split; reflexivity]].
  intros Hadv. vm_compute in Hadv. discriminate Hadv.
Qed.

(** C4 on the same server with [max_misses = 3]: two passes have requested
    IDs 1 and 2 and the ID is 3; the third pass ends the loop, after the
    requests for IDs 1, 2 and 3, with the ID still 3. *)
Lemma ids_follow_stride_witness :
  nothing_there (fun U N D =>
    let a := Args 1 1 (lit "out") 3 in
    let d := Fs ∅ ∅ in
    fst (main a 2 d) = Running
    /\ sess (snd (main a 2 d)) = [request_url (lit "1"); request_url (lit "2")]
    /\ idx (snd (main a 2 d)) = 3
    /\ fst (main a 3 d) = Stopped
    /\ sess (snd (main a 3 d))
       = [request_url (lit "1"); request_url (lit "2"); request_url (lit "3")]
    /\ idx (snd (main a 3 d)) = 3).
Proof.
  unfold nothing_there.
  pose (a := Args 1 1 (lit "out") 3). pose (d := Fs ∅ ∅).
  pose proof (@ids_follow_stride basic_unicode (always (Page []))
                (sample_html Blank) name_limit a d 2%nat) as (Hrun & _ & _).
  pose proof (@ids_follow_stride basic_unicode (always (Page []))
                (sample_html Blank) name_limit a d 3%nat) as (_ & Hstop & _).
  assert (H2 : fst (@main basic_unicode (always (Page [])) (sample_html Blank)
                      name_limit a 2 d) = Running) by reflexivity.
  assert (H3 : fst (@main basic_unicode (always (Page [])) (sample_html Blank)
                      name_limit a 3 d) = Stopped) by reflexivity.
  destruct (Hrun H2) as [Hs2 Hi2].
  destruct (Hstop H3) as (k & Hk & _ & Hs3 & Hi3).
  assert (Hk2 : k = 2%nat).
  { apply (f_equal (@length _)) in Hs3. rewrite length_map, length_seq in Hs3.
    vm_compute in Hs3. lia. }
  subst k.
  split; [exact H2|]. split; [exact Hs2|]. split; [exact Hi2|].
  split; [exact H3|]. split; [exact Hs3|exact Hi3].
Defined.

(** C7 on the same server with [step = 1]: two passes request two
    different URLs. *)
Lemma one_get_per_id_witness :
  nothing_there (fun U N D =>
    let a := Args 1 1 (lit "out") 3 in
    step a <> 0 /\ never_refetched a 2 (Fs ∅ ∅)).
Proof.
  unfold nothing_there.
  pose (a := Args 1 1 (lit "out") 3).
  assert (Hstep : step a <> 0) by (vm_compute; discriminate).
  split; [exact Hstep|].
  exact (proj2 (proj2 (proj2 (proj2
    (@one_get_per_id basic_unicode (always (Page [])) (sample_html Blank) name_limit a (Fs ∅ ∅) 2%nat [] [])))) Hstep).
Defined.

(** ** The record and its files *)

Section Record.
Context `{Unicode} `{Network} `{Html}.

(** The keys of the record that [parse_idiom] returns. *)
Lemma parse_idiom_returns id_value s data :
  fst (parse_idiom id_value s) = Return data ->
  keys data = record_keys
  /\ dict_get "id" data = Some (VStr id_value)
  /\ exists title fulltext,
       dict_get "title" data = Some (VStr title)
       /\ dict_get "fulltext" data = Some (VStr fulltext).
Proof.
  unfold parse_idiom, bind, get_soup. fold (request_url id_value).
  destruct (http_get s (request_url id_value)); [|discriminate].
  destruct (idiom_table _) as [t|]; [|discriminate].
  destruct (split_source_title_body _) as [st sb].
  match goal with
  | |- context [(if is_empty ?t then ret ?a else tighten_examples ?b ?c) ?s] =>
    destruct ((if is_empty t then ret a else tighten_examples b c) s)
      as [[ex|e] s']
  end; [|discriminate].
  unfold ret, raise.
  repeat (match goal with
          | |- context [if ?b then _ else _] => destruct b
          end; try discriminate).
  cbn [fst]. intros [= <-]. split; [reflexivity|]. split; [reflexivity|].
  eexists _, _. split; reflexivity.
Qed.
End Record.

(** *** Paths *)

Lemma last_path_join a b : b <> [] -> last (path_join a b) = last b.
Proof.
  intros Hb. destruct b as [|c b]; [congruence|]. unfold path_join.
  destruct (c =? SLASH); [reflexivity|].
  destruct (last a) as [e|]; [|reflexivity].
  destruct (e =? SLASH).
  - rewrite last_app. destruct (last (c :: b)) eqn:E; [reflexivity|].
    apply last_None in E. discriminate.
  - rewrite !last_app. simpl last at 2.
    destruct (last (c :: b)) eqn:E; [reflexivity|].
    apply last_None in E. discriminate.
Qed.


(** *** One line of JSON *)

(** Evaluate the ASCII literals of a goal. *)
Ltac eval_lit :=
  repeat match goal with
         | |- context [lit ?s] =>
           let v := eval vm_compute in (lit s) in change (lit s) with v
         end.

Lemma escape_char_no_newline c : NL ∉ escape_char c.
Proof.
  unfold escape_char, in_range.
  repeat match goal with
         | |- context [if ?b then _ else _] => destruct b eqn:?
         end;
    eval_lit; rewrite list_elem_of_In; cbn [In app];
    unfold NL, QUOTE, BACKSLASH, hex_digit in *;
    repeat match goal with
           | |- context [if ?b then _ else _] => destruct b eqn:?
           end;
    repeat match goal with
           | Hb : _ && _ = true |- _ => apply andb_prop in Hb as [? ?]
           end;
    try (pose proof (Z.mod_pos_bound c 16 eq_refl);
         assert (0 <= c / 16) by (apply Z.div_pos; lia));
    lia.
Qed.

Lemma encode_str_no_newline s : NL ∉ encode_str s.
Proof.
  unfold encode_str. rewrite list_elem_of_In, !in_app_iff, in_flat_map.
  intros [Hq|[(c & _ & Hc)|Hq]].
  - destruct Hq as [Hq|[]]. discriminate Hq.
  - apply (escape_char_no_newline c). rewrite list_elem_of_In. exact Hc.
  - destruct Hq as [Hq|[]]. discriminate Hq.
Qed.

Lemma join_no_newline sep parts :
  NL ∉ sep -> Forall (fun p => NL ∉ p) parts -> NL ∉ join sep parts.
Proof.
  intros Hsep Hparts. induction Hparts as [|p parts Hp Hps IH].
  - simpl. apply not_elem_of_nil.
  - destruct parts as [|q parts]; [exact Hp|].
    change (join sep (p :: q :: parts)) with (p ++ sep ++ join sep (q :: parts)).
    rewrite !elem_of_app. tauto.
Qed.

Lemma lit_no_newline_comma : NL ∉ lit ", ".
Proof. rewrite list_elem_of_In. vm_compute. intuition discriminate. Qed.

Lemma dumps_value_no_newline v : NL ∉ dumps_value v.
Proof.
  destruct v as [s|l]; cbn [dumps_value]; [apply encode_str_no_newline|].
  rewrite !elem_of_app. intros [Hb|[Hj|Hb]].
  - revert Hb. rewrite list_elem_of_In. vm_compute. intuition discriminate.
  - revert Hj. apply join_no_newline; [apply lit_no_newline_comma|].
    apply Forall_forall. intros p Hp. apply list_elem_of_In, in_map_iff in Hp.
    destruct Hp as (s & <- & _). apply encode_str_no_newline.
  - revert Hb. rewrite list_elem_of_In. vm_compute. intuition discriminate.
Qed.

(** [json.dumps] writes no newline: what is appended to the corpus is one
    line. *)
Lemma dumps_no_newline d : NL ∉ dumps d.
Proof.
  unfold dumps. rewrite !elem_of_app. intros [Hb|[Hj|Hb]].
  - revert Hb. rewrite list_elem_of_In. vm_compute. intuition discriminate.
  - revert Hj. apply join_no_newline; [apply lit_no_newline_comma|].
    apply Forall_forall. intros p Hp. apply list_elem_of_In, in_map_iff in Hp.
    destruct Hp as ([k v] & <- & _). cbn [fst snd].
    rewrite !elem_of_app. intros [Hk|[Hc|Hv]].
    + exact (encode_str_no_newline _ Hk).
    + revert Hc. rewrite list_elem_of_In. vm_compute. intuition discriminate.
    + exact (dumps_value_no_newline _ Hv).
  - revert Hb. rewrite list_elem_of_In. vm_compute. intuition discriminate.
Qed.

Section WriteClaims.
Context `{Unicode} `{Network} `{Html} `{Os}.

(** [write_item] on a record that has its ID, title and fulltext: the
    three files are opened and written in turn, and the first [open] that
    fails ends the call. *)
Lemma write_item_parsed out_dir data d id_value title fulltext :
  dict_get "id" data = Some (VStr id_value) ->
  dict_get "title" data = Some (VStr title) ->
  dict_get "fulltext" data = Some (VStr fulltext) ->
  let base := id_value ++ lit "_" ++ safe_slug title in
  let js := path_join (path_join out_dir (lit "json")) (base ++ lit ".json") in
  let tx := path_join (path_join out_dir (lit "txt")) (base ++ lit ".txt") in
  let jl := path_join out_dir (lit "moe_idioms.jsonl") in
  exists d0, files d0 = files d
    /\ write_item out_dir data d
       = match write_file js (dump_indent data) d0 with
         | None => (Raise OsError, d0)
         | Some d1 =>
           match write_file tx (fulltext ++ [NL]) d1 with
           | None => (Raise OsError, d1)
           | Some d2 =>
             match append_file jl (dumps data ++ [NL]) d2 with
             | None => (Raise OsError, d2)
             | Some d3 => (Return (js, tx, jl), d3)
             end
           end
         end.
Proof.
  intros Hid Ht Hf base js tx jl.
  exists (makedirs (path_join out_dir (lit "txt"))
            (makedirs (path_join out_dir (lit "json")) d)).
  split; [reflexivity|].
  unfold write_item, item in *. rewrite Ht, Hid, Hf. reflexivity.
Qed.

End WriteClaims.



(** ** The results of [parse_idiom] *)

Section ParseClaims.
Context `{Unicode} `{Network} `{Html}.

Lemma title_clean_blank title :
  is_empty title || is_empty (strip title) = true ->
  (length (title_clean title) < 2)%nat.
Proof.
  intros Hb. assert (Hs : strip title = []).
  { destruct title; [reflexivity|]. simpl in Hb.
    destruct (strip (z :: title)); [reflexivity|discriminate]. }
  unfold title_clean. rewrite Hs. simpl. lia.
Qed.

(** What [parse_idiom] answers on a page that was fetched: NotFound
    without a table; otherwise the error of the template if the title is
    not one; otherwise NotFound if the content is missing, and the record
    with all its keys if not. *)
Lemma parse_idiom_outcome id_value s html :
  http_get s (request_url id_value) = Page html ->
  match table_of html with
  | None => fst (parse_idiom id_value s) = Raise NotFound
  | Some t =>
    if template_fails (Some t) then fst (parse_idiom id_value s) = Raise ReError
    else if no_content (Some t) then fst (parse_idiom id_value s) = Raise NotFound
    else exists data, fst (parse_idiom id_value s) = Return data
                      /\ keys data = record_keys
  end.
Proof.
  intros Hget. unfold table_of, parse_idiom, bind, get_soup.
  fold (request_url id_value). rewrite Hget.
  destruct (idiom_table _) as [t|]; [|reflexivity].
  unfold template_fails, no_content, examples_of, bopomofo_of, definition_of,
    title_of.
  set (table := Some t).
  set (title := text_in_td table th_title).
  destruct (split_source_title_body _) as [st sb].
  pose proof (title_clean_blank title) as Hblank.
  unfold tighten_examples.
  destruct (is_empty title) eqn:Et; cbn [negb andb].
  - unfold ret, raise. cbn [fst orb].
    specialize (Hblank eq_refl). apply Nat.ltb_lt in Hblank.
    rewrite Hblank. reflexivity.
  - destruct (usage_examples _) as [|ex exs] eqn:Ex.
    + rewrite bool_decide_eq_true_2 by reflexivity. cbn [negb andb].
      unfold ret, raise. cbn [fst orb] in *.
      destruct (is_empty (strip title)) eqn:Est.
      * specialize (Hblank eq_refl). apply Nat.ltb_lt in Hblank.
        rewrite Hblank. reflexivity.
      * destruct (_ <? _)%nat; [reflexivity|]. cbn [orb].
        destruct (_ && _); [reflexivity|]. eexists. split; reflexivity.
    + rewrite bool_decide_eq_false_2 by discriminate. cbn [negb andb].
      destruct (parse_template title) as [tpl|] eqn:Etpl.
      * rewrite bool_decide_eq_true_2 by eauto. cbn [negb].
        unfold ret, raise. cbn [fst orb] in *.
        destruct (is_empty (strip title)) eqn:Est.
        -- specialize (Hblank eq_refl). apply Nat.ltb_lt in Hblank.
           rewrite Hblank. reflexivity.
        -- destruct (_ <? _)%nat; [reflexivity|]. cbn [orb].
           destruct (_ && _); [reflexivity|]. eexists. split; reflexivity.
      * rewrite bool_decide_eq_false_2 by (intros [? ?]; discriminate).
        reflexivity.
Qed.
End ParseClaims.

(** C8, the failing input. The page has the idiom table, a title of three
    word characters, a bopomofo and a definition, so that the claim promises
    the record; but the title [ab\q] is not a replacement template, there is
    an example to rewrite, and [parse_idiom] raises the error of [re].  On
    the same page without bopomofo and definition the claim promises
    NotFound, and the same error is raised before the checks are reached. *)
Theorem backslash_title_raises :
  (sample_table backslash_page = Some backslash_page
   /\ sample_no_content backslash_page = false
   /\ on_sample backslash_page = Raise ReError)
  /\ (sample_table backslash_blank_page = Some backslash_blank_page
      /\ sample_no_content backslash_blank_page = true
      /\ on_sample backslash_blank_page = Raise ReError).
Proof. repeat split. Qed.

(** ** The matcher *)

Lemma backtrack_some k lo hi j ls :
  backtrack k lo hi = Some (j :: ls) <->
  (lo <= j <= hi)%nat /\ k j = Some ls /\ forall i, (j < i <= hi)%nat -> k i = None.
Proof.
  induction hi as [|h IH].
  - simpl. destruct (0 <? lo)%nat eqn:E.
    + apply Nat.ltb_lt in E. split; [discriminate|]. intros ([? ?] & _). lia.
    + apply Nat.ltb_ge in E. destruct (k O) as [l0|] eqn:Ek.
      * split.
        -- intros [= <- <-]. split; [lia|]. split; [exact Ek|]. intros i Hi. lia.
        -- intros ([? ?] & Hk & _). assert (j = O) by lia. subst j. congruence.
      * split; [discriminate|]. intros ([? ?] & Hk & _).
        assert (j = O) by lia. subst j. congruence.
  - cbn [backtrack]. destruct (S h <? lo)%nat eqn:E.
    + apply Nat.ltb_lt in E. split; [discriminate|]. intros ([? ?] & _). lia.
    + apply Nat.ltb_ge in E. destruct (k (S h)) as [l0|] eqn:Ek.
      * split.
        -- intros [= <- <-]. split; [lia|]. split; [exact Ek|]. intros i Hi. lia.
        -- intros ([? ?] & Hk & Hno).
           destruct (decide (j = S h)) as [->|Hne]; [congruence|].
           rewrite (Hno (S h)) in Ek by lia. discriminate.
      * rewrite IH. split.
        -- intros ([? ?] & Hk & Hno). split; [lia|]. split; [exact Hk|].
           intros i Hi. destruct (decide (i = S h)) as [->|Hne]; [exact Ek|].
           apply Hno. lia.
        -- intros ([? ?] & Hk & Hno).
           assert (j <> S h) by congruence.
           split; [lia|]. split; [exact Hk|]. intros i Hi. apply Hno. lia.
Qed.

Lemma backtrack_cons k lo hi l :
  backtrack k lo hi = Some l -> exists j ls, l = j :: ls.
Proof.
  induction hi as [|h IH]; cbn [backtrack];
    destruct (_ <? lo)%nat; try discriminate.
  - destruct (k O); [|discriminate]. intros [= <-]. eauto.
  - destruct (k (S h)); [intros [= <-]; eauto|exact IH].
Qed.

Lemma backtrack_none k lo hi :
  backtrack k lo hi = None <-> forall i, (lo <= i <= hi)%nat -> k i = None.
Proof.
  induction hi as [|h IH]; cbn [backtrack].
  - destruct (0 <? lo)%nat eqn:E.
    + apply Nat.ltb_lt in E. split; [|reflexivity]. intros _ i Hi. lia.
    + apply Nat.ltb_ge in E. destruct (k O) as [l0|] eqn:Ek.
      * split; [discriminate|]. intros Hno. rewrite (Hno O) in Ek by lia.
        discriminate.
      * split; [|reflexivity]. intros _ i Hi. assert (i = O) by lia. congruence.
  - destruct (S h <? lo)%nat eqn:E.
    + apply Nat.ltb_lt in E. split; [|reflexivity]. intros _ i Hi. lia.
    + apply Nat.ltb_ge in E. destruct (k (S h)) as [l0|] eqn:Ek.
      * split; [discriminate|]. intros Hno. rewrite (Hno (S h)) in Ek by lia.
        discriminate.
      * rewrite IH. split.
        -- intros Hno i Hi. destruct (decide (i = S h)) as [->|Hne]; [exact Ek|].
           apply Hno. lia.
        -- intros Hno i Hi. apply Hno. lia.
Qed.

(** A pattern that is one class taken at least [n] times matches the whole
    run of the class, if it is long enough. *)
Lemma attempt_at_least c n prev s :
  attempt (Regex NoBehind [at_least n c] NoAhead) prev s
  = if (run_length c s <? n)%nat then None else Some [run_length c s].
Proof.
  unfold attempt. cbn [re_behind behind_ok re_ahead re_atoms match_atoms
    at_least a_cls a_min a_max ahead_ok].
  destruct (run_length c s <? n)%nat eqn:E.
  - apply backtrack_none. intros i Hi. apply Nat.ltb_lt in E. lia.
  - apply backtrack_some. apply Nat.ltb_ge in E. split; [lia|].
    split; [reflexivity|]. intros i Hi. lia.
Qed.

(** *** Substitution *)

Lemma sub_go_nil r t prev k : sub_go r t prev k [] = [].
Proof. destruct k; reflexivity. Qed.

(** Skipping [k] characters is dropping them; the character before the
    rest is the last one skipped. *)
Lemma sub_go_skip r t c k s :
  sub_go r t (Some c) k s = sub_go r t (last (c :: take k s)) O (drop k s).
Proof.
  revert c s. induction k as [|k IH]; intros c s.
  - rewrite take_0, drop_0. reflexivity.
  - destruct s as [|c' s]; [reflexivity|].
    cbn [sub_go take drop]. rewrite IH. reflexivity.
Qed.

(** One step of [re.sub] at a position where nothing is being skipped. *)
Lemma sub_go_step r t prev c s :
  sub_go r t prev O (c :: s)
  = match attempt r prev (c :: s) with
    | Some ls =>
      match total ls with
      | S k => expand t ls (c :: s)
               ++ sub_go r t (last (c :: take k s)) O (drop k s)
      | O => c :: sub_go r t (Some c) O s
      end
    | None => c :: sub_go r t (Some c) O s
    end.
Proof.
  cbn [sub_go]. destruct (attempt r prev (c :: s)) as [ls|]; [|reflexivity].
  destruct (total ls) as [|k]; [reflexivity|]. rewrite sub_go_skip. reflexivity.
Qed.

(** *** Runs of one class replaced by one character *)

Lemma run_length_app c s :
  Forall (fun x => c x = true) (take (run_length c s) s)
  /\ match drop (run_length c s) s with
     | x :: _ => c x = false
     | [] => True
     end.
Proof.
  induction s as [|x s IH]; [split; [constructor|exact I]|].
  cbn [run_length]. destruct (c x) eqn:E.
  - cbn [take drop]. split; [constructor; [exact E|apply IH]|apply IH].
  - cbn [take drop]. split; [constructor|exact E].
Qed.

Lemma squash_outside cls y s :
  run_length cls s = O -> squash cls y true s = squash cls y false s.
Proof.
  destruct s as [|c s]; [reflexivity|]. cbn [run_length squash].
  destruct (cls c); [discriminate|reflexivity].
Qed.

Lemma sub_plus_squash cls y s :
  (forall prev, sub_go (Regex NoBehind [plus cls] NoAhead) [TLit [y]] prev O s
                = squash cls y false s)
  /\ (forall prev, sub_go (Regex NoBehind [plus cls] NoAhead) [TLit [y]] prev
                     (run_length cls s) s
                   = squash cls y true s).
Proof.
  induction s as [|c s [IH0 IHk]]; [split; reflexivity|].
  assert (H0 : forall prev,
    sub_go (Regex NoBehind [plus cls] NoAhead) [TLit [y]] prev O (c :: s)
    = squash cls y false (c :: s)).
  { intros prev. cbn [sub_go]. change (plus cls) with (at_least 1 cls).
    rewrite attempt_at_least. cbn [run_length squash].
    destruct (cls c) eqn:E.
    - cbn [Nat.ltb Nat.leb total fold_right Nat.add expand app].
      rewrite Nat.add_0_r, IHk. reflexivity.
    - cbn [Nat.ltb Nat.leb]. rewrite IH0. reflexivity. }
  split; [exact H0|]. intros prev. cbn [run_length].
  destruct (cls c) eqn:E.
  - cbn [sub_go squash]. rewrite E, IHk. reflexivity.
  - rewrite H0. cbn [squash]. rewrite E. reflexivity.
Qed.

(** [re.sub] of a class taken one or more times by one character. *)
Lemma re_sub_plus cls y s :
  re_sub (Regex NoBehind [plus cls] NoAhead) [TLit [y]] s = squash cls y false s.
Proof. apply sub_plus_squash. Qed.

Lemma run_length_chr_tail y c s :
  run_length (chr y) (c :: s) = 1%nat -> run_length (chr y) s = O.
Proof. cbn [run_length]. destruct (chr y c); [|discriminate]. lia. Qed.

Lemma sub_two_squash y s :
  (forall prev,
     sub_go (Regex NoBehind [at_least 2 (chr y)] NoAhead) [TLit [y]] prev O s
     = squash (chr y) y false s)
  /\ (forall prev,
        sub_go (Regex NoBehind [at_least 2 (chr y)] NoAhead) [TLit [y]] prev
          (run_length (chr y) s) s
        = squash (chr y) y true s).
Proof.
  induction s as [|c s [IH0 IHk]]; [split; reflexivity|].
  assert (H0 : forall prev,
    sub_go (Regex NoBehind [at_least 2 (chr y)] NoAhead) [TLit [y]] prev O (c :: s)
    = squash (chr y) y false (c :: s)).
  { intros prev. cbn [sub_go]. rewrite attempt_at_least. cbn [run_length squash].
    destruct (chr y c) eqn:E.
    - destruct (run_length (chr y) s) as [|k] eqn:Ek.
      + cbn [Nat.ltb Nat.leb]. rewrite IH0, <- (squash_outside _ _ _ Ek).
        unfold chr in E. apply Z.eqb_eq in E. subst c. reflexivity.
      + cbn [Nat.ltb Nat.leb total fold_right Nat.add expand app].
        rewrite Nat.add_0_r, IHk. reflexivity.
    - cbn [Nat.ltb Nat.leb]. rewrite IH0. reflexivity. }
  split; [exact H0|]. intros prev. cbn [run_length].
  destruct (chr y c) eqn:E.
  - cbn [sub_go squash]. rewrite E, IHk. reflexivity.
  - rewrite H0. cbn [squash]. rewrite E. reflexivity.
Qed.

(** [re.sub] of two or more of a character by one of them: every run of
    the character becomes one. *)
Lemma re_sub_two y s :
  re_sub (Regex NoBehind [at_least 2 (chr y)] NoAhead) [TLit [y]] s
  = squash (chr y) y false s.
Proof. apply sub_two_squash. Qed.

(** *** What a squashed string looks like *)

Lemma no_pair_cons bad x y s :
  no_pair bad (x :: y :: s) <-> bad x y = false /\ no_pair bad (y :: s).
Proof. reflexivity. Qed.

Lemma no_pair_tail bad x s : no_pair bad (x :: s) -> no_pair bad s.
Proof. destruct s as [|y s]; [intros _; exact I|]. intros [_ Hs]. exact Hs. Qed.

Lemma no_pair_app bad s1 s2 :
  no_pair bad (s1 ++ s2) -> no_pair bad s1 /\ no_pair bad s2.
Proof.
  induction s1 as [|x s1 IH]; [intros Hs; split; [exact I|exact Hs]|].
  intros Hs. destruct s1 as [|y s1].
  - split; [exact I|]. exact (no_pair_tail _ _ _ Hs).
  - destruct Hs as [Hxy Hs]. destruct (IH Hs) as [H1 H2].
    split; [|exact H2]. split; assumption.
Qed.

Lemma squash_chars cls y b s :
  Forall (fun c => c = y \/ cls c = false) (squash cls y b s).
Proof.
  revert b. induction s as [|c s IH]; intros b; [constructor|].
  cbn [squash]. destruct (cls c) eqn:E.
  - destruct b; [apply IH|]. constructor; [left; reflexivity|apply IH].
  - constructor; [right; exact E|apply IH].
Qed.

(** After a squash, a [y] is never followed by a character of the class. *)
Lemma squash_no_pair cls y s :
  cls y = true ->
  no_pair (fun a b => (a =? y) && cls b) (squash cls y false s)
  /\ no_pair (fun a b => (a =? y) && cls b) (y :: squash cls y true s).
Proof.
  intros Hy. induction s as [|c s [IH0 IH1]].
  - split; exact I.
  - cbn [squash]. destruct (cls c) eqn:E.
    + split; [exact IH1|exact IH1].
    + assert (Hc : (c =? y) = false).
      { apply Z.eqb_neq. intros ->. congruence. }
      split.
      * destruct (squash cls y false s) as [|x s'] eqn:Es; [exact I|].
        split; [rewrite Hc; reflexivity|exact IH0].
      * split; [rewrite E; apply andb_false_r|].
        destruct (squash cls y false s) as [|x s'] eqn:Es; [exact I|].
        split; [rewrite Hc; reflexivity|exact IH0].
Qed.

(** A string without a pair to squash is left as it is. *)
Lemma squash_fixed cls y s :
  Forall (fun c => cls c = true -> c = y) s ->
  no_pair (fun a b => cls a && cls b) s ->
  squash cls y false s = s.
Proof.
  induction s as [|c s IH]; [reflexivity|]. intros Hall Hpair.
  apply Forall_cons in Hall as [Hc Hall]. cbn [squash].
  destruct (cls c) eqn:E.
  - rewrite (Hc eq_refl). f_equal.
    destruct s as [|c' s]; [reflexivity|]. destruct Hpair as [Hcc Hpair].
    rewrite E in Hcc. cbn [andb] in Hcc.
    rewrite squash_outside by (cbn [run_length]; rewrite Hcc; reflexivity).
    apply IH; assumption.
  - f_equal. apply IH; [exact Hall|exact (no_pair_tail _ _ _ Hpair)].
Qed.

(** *** Generalities on [sub_go] *)

(** What [re.sub] writes comes from the string or from the template. *)
Lemma sub_go_Forall (P : Z -> Prop) r l prev k s :
  Forall P l -> Forall P s -> Forall P (sub_go r [TLit l] prev k s).
Proof.
  intros Hl. revert prev k. induction s as [|c s IH]; intros prev k Hs.
  - rewrite sub_go_nil. constructor.
  - apply Forall_cons in Hs as [Hc Hs]. cbn [sub_go]. destruct k as [|k].
    + destruct (attempt r prev (c :: s)) as [ls|].
      * destruct (total ls).
        -- constructor; [exact Hc|apply IH, Hs].
        -- cbn [expand]. rewrite app_nil_r. apply Forall_app. split; [exact Hl|].
           apply IH, Hs.
      * constructor; [exact Hc|apply IH, Hs].
    + apply IH, Hs.
Qed.

Lemma no_pair_lookup bad s i a b :
  no_pair bad s -> s !! i = Some a -> s !! S i = Some b -> bad a b = false.
Proof.
  revert i. induction s as [|x s IH]; intros i Hs Ha Hb; [discriminate|].
  destruct s as [|y s]; [discriminate|]. destruct Hs as [Hxy Hs].
  destruct i as [|i].
  - cbn in Ha, Hb. congruence.
  - exact (IH i Hs Ha Hb).
Qed.

Lemma no_pair_weaken (bad bad' : Z -> Z -> bool) s :
  (forall a b, a ∈ s -> bad' a b = true -> bad a b = true) ->
  no_pair bad s -> no_pair bad' s.
Proof.
  induction s as [|x s IH]; intros Himp Hs; [exact I|].
  destruct s as [|y s]; [exact I|]. destruct Hs as [Hxy Hs]. split.
  - destruct (bad' x y) eqn:E; [|reflexivity].
    rewrite (Himp x y) in Hxy; [discriminate|left|exact E].
  - apply IH; [|exact Hs]. intros a b Ha. apply Himp. right. exact Ha.
Qed.

Lemma run_length_lookup c s i :
  (i < run_length c s)%nat -> exists x, s !! i = Some x /\ c x = true.
Proof.
  revert i. induction s as [|y s IH]; intros i Hi; [cbn in Hi; lia|].
  cbn [run_length] in Hi. destruct (c y) eqn:E; [|lia].
  destruct i as [|i]; [exists y; split; [reflexivity|exact E]|].
  apply IH. lia.
Qed.

Lemma run_length_stop c s x :
  s !! run_length c s = Some x -> c x = false.
Proof.
  induction s as [|y s IH]; [discriminate|]. cbn [run_length].
  destruct (c y) eqn:E; [exact IH|]. intros [= <-]. exact E.
Qed.

Lemma last_cons_take (c : Z) s k x :
  (c :: s) !! k = Some x -> last (c :: take k s) = Some x.
Proof.
  revert c s. induction k as [|k IH]; intros c s Hk.
  - rewrite take_0. cbn in *. congruence.
  - destruct s as [|c' s]; [discriminate|]. cbn [take].
    rewrite last_cons_cons. apply IH. exact Hk.
Qed.

Lemma head_drop (s : str) j : head (drop j s) = s !! j.
Proof.
  revert s. induction j as [|j IH]; intros [|c s]; try reflexivity.
  cbn [drop]. rewrite IH. reflexivity.
Qed.

(** One character of a class. *)
Lemma match_one la c s :
  match_atoms la [one c] s
  = match s with
    | x :: s' => if c x && ahead_ok la s' then Some [1%nat] else None
    | [] => None
    end.
Proof.
  cbn [match_atoms one a_cls a_min a_max]. destruct s as [|x s'].
  - reflexivity.
  - cbn [run_length]. destruct (c x) eqn:E.
    + replace (Nat.min 1 (S (run_length c s'))) with 1%nat by lia.
      cbn [backtrack Nat.ltb Nat.leb skipn andb match_atoms]. rewrite drop_0.
      destruct (ahead_ok la s'); reflexivity.
    + reflexivity.
Qed.

(** *** [\s+\n]: the spaces of a run up to its last newline *)

Lemma attempt_spaces_newline prev s ls :
  attempt spaces_newline prev s = Some ls <->
  exists j, ls = [j; 1%nat] /\ (1 <= j <= run_length isspace s)%nat
    /\ s !! j = Some NL
    /\ forall i, (j < i <= run_length isspace s)%nat -> s !! i <> Some NL.
Proof.
  unfold attempt, spaces_newline.
  cbn [re_behind behind_ok re_ahead re_atoms].
  change (match_atoms NoAhead [plus isspace; one (chr NL)] s)
    with (backtrack (fun j => match_atoms NoAhead [one (chr NL)] (drop j s)) 1
            (run_length isspace s)).
  assert (Hk : forall j, match_atoms NoAhead [one (chr NL)] (drop j s)
                         = if bool_decide (s !! j = Some NL) then Some [1%nat] else None).
  { intros j. rewrite match_one. rewrite <- head_drop.
    destruct (drop j s) as [|x s']; [reflexivity|]. cbn [head ahead_ok].
    rewrite andb_true_r. unfold chr. destruct (Z.eqb_spec x NL) as [->|Hne].
    - rewrite bool_decide_eq_true_2; reflexivity.
    - rewrite bool_decide_eq_false_2; [reflexivity|congruence]. }
  split.
  - intros Hb. destruct (backtrack_cons _ _ _ _ Hb) as (j & l' & ->).
    apply backtrack_some in Hb as (Hj & Hkj & Hno). rewrite Hk in Hkj.
    destruct (bool_decide (s !! j = Some NL)) eqn:E; [|discriminate].
    apply bool_decide_eq_true in E. injection Hkj as <-.
    exists j. split; [reflexivity|]. split; [exact Hj|]. split; [exact E|].
    intros i Hi Hnl. specialize (Hno i Hi). rewrite Hk in Hno.
    rewrite bool_decide_eq_true_2 in Hno by exact Hnl. discriminate.
  - intros (j & -> & Hj & Hnl & Hno). apply backtrack_some.
    split; [exact Hj|]. split.
    + rewrite Hk, bool_decide_eq_true_2 by exact Hnl. reflexivity.
    + intros i Hi. rewrite Hk, bool_decide_eq_false_2; [reflexivity|].
      apply Hno, Hi.
Qed.

Lemma attempt_spaces_newline_none prev s :
  attempt spaces_newline prev s = None <->
  forall i, (1 <= i <= run_length isspace s)%nat -> s !! i <> Some NL.
Proof.
  unfold attempt, spaces_newline.
  cbn [re_behind behind_ok re_ahead re_atoms].
  change (match_atoms NoAhead [plus isspace; one (chr NL)] s)
    with (backtrack (fun j => match_atoms NoAhead [one (chr NL)] (drop j s)) 1
            (run_length isspace s)).
  rewrite backtrack_none. split; intros Hno i Hi.
  - intros Hnl. specialize (Hno i Hi). rewrite match_one in Hno.
    pose proof (head_drop s i) as Hh. rewrite Hnl in Hh.
    destruct (drop i s) as [|x s']; [discriminate|]. injection Hh as ->.
    discriminate Hno.
  - rewrite match_one. pose proof (head_drop s i) as Hh.
    destruct (drop i s) as [|x s']; [reflexivity|]. cbn [head] in Hh.
    cbn [ahead_ok]. rewrite andb_true_r. unfold chr.
    destruct (Z.eqb_spec x NL) as [->|Hne]; [|reflexivity].
    destruct (Hno i Hi). symmetry. exact Hh.
Qed.

Lemma run_length_drop c s k :
  (k <= run_length c s)%nat ->
  run_length c (drop k s) = (run_length c s - k)%nat.
Proof.
  revert s. induction k as [|k IH]; intros s Hk; [rewrite drop_0; lia|].
  destruct s as [|x s]; [reflexivity|]. cbn [run_length] in *.
  destruct (c x); [|lia]. cbn [skipn]. rewrite IH by lia. lia.
Qed.

Lemma lookup_cons_drop (c : Z) s j i :
  drop j s !! i = (c :: s) !! (S (j + i)).
Proof. rewrite lookup_drop. reflexivity. Qed.

(** A string with tight newlines has no match. *)
Lemma spaces_newline_fixed s prev :
  tight_newlines s -> sub_go spaces_newline [TLit [NL]] prev O s = s.
Proof.
  revert prev. induction s as [|c s IH]; intros prev Ht; [reflexivity|].
  assert (Hnone : attempt spaces_newline prev (c :: s) = None).
  { apply attempt_spaces_newline_none. intros i Hi Hnl.
    destruct i as [|i]; [lia|].
    destruct (run_length_lookup isspace (c :: s) i) as (x & Hx & Hsp); [lia|].
    pose proof (no_pair_lookup _ _ _ _ _ Ht Hx Hnl) as Hbad.
    cbn beta in Hbad. rewrite Hsp in Hbad. discriminate Hbad. }
  cbn [sub_go]. rewrite Hnone. f_equal. apply IH.
  exact (no_pair_tail _ _ _ Ht).
Qed.

Lemma no_pair_with_prev bad prev x s :
  (forall p, prev = Some p -> bad p x = false) ->
  no_pair bad (x :: s) -> no_pair bad (with_prev prev (x :: s)).
Proof.
  intros Hp Hs. destruct prev as [p|]; [|exact Hs].
  split; [apply Hp; reflexivity|exact Hs].
Qed.

(** After the substitution the newlines are tight. *)
Lemma spaces_newline_tight n : forall s prev,
  (length s <= n)%nat ->
  (forall p, prev = Some p -> isspace p = true ->
     forall i, (i < run_length isspace s)%nat -> s !! i <> Some NL) ->
  tight_newlines (with_prev prev (sub_go spaces_newline [TLit [NL]] prev O s)).
Proof.
  unfold tight_newlines.
  induction n as [|n IH]; intros s prev Hlen Hrun.
  - destruct s; [|cbn in Hlen; lia]. destruct prev; exact I.
  - destruct s as [|c s]; [destruct prev; exact I|]. cbn [length] in Hlen.
    rewrite sub_go_step.
    destruct (attempt spaces_newline prev (c :: s)) as [ls|] eqn:E.
    + apply attempt_spaces_newline in E as (j & -> & Hj & Hjn & Hmax).
      assert (Hlt : (j < run_length isspace (c :: s))%nat).
      { destruct (decide (j = run_length isspace (c :: s))) as [Heq|]; [|lia].
        rewrite Heq in Hjn. apply run_length_stop in Hjn. discriminate Hjn. }
      replace (total [j; 1%nat]) with (S j) by (cbn; lia).
      cbn [expand app]. rewrite (last_cons_take _ _ _ _ Hjn).
      apply no_pair_with_prev.
      * intros p -> . destruct (isspace p) eqn:Ep; [|reflexivity].
        destruct (Hrun p eq_refl Ep j Hlt Hjn).
      * apply (IH (drop j s) (Some NL)).
        -- rewrite length_drop. lia.
        -- intros p [= <-] _ i Hi. rewrite (lookup_cons_drop c).
           apply Hmax.
           change (drop j s) with (drop (S j) (c :: s)) in Hi.
           rewrite run_length_drop in Hi by lia. lia.
    + apply no_pair_with_prev.
      * intros p ->. destruct (isspace p) eqn:Ep; [|reflexivity].
        cbn [andb]. apply Z.eqb_neq. intros ->.
        apply (Hrun p eq_refl Ep O); [cbn; lia|reflexivity].
      * apply (IH s (Some c)); [lia|].
        intros p [= <-] Hc i Hi.
        rewrite attempt_spaces_newline_none in E.
        change (s !! i) with ((c :: s) !! S i). apply E.
        cbn [run_length]. rewrite Hc. lia.
Qed.

Lemma no_pair_head bad x s :
  match s with y :: _ => bad x y = false | [] => True end ->
  no_pair bad s -> no_pair bad (x :: s).
Proof. destruct s as [|y s]; [intros _ _; exact I|]. intros Hxy Hs. split; assumption. Qed.

(** The substitution makes no new pair, when a newline is in none. *)
Lemma spaces_newline_keeps bad n :
  (forall x, bad x NL = false) -> (forall x, bad NL x = false) ->
  forall s prev, (length s <= n)%nat ->
    no_pair bad (with_prev prev s) ->
    no_pair bad (with_prev prev (sub_go spaces_newline [TLit [NL]] prev O s)).
Proof.
  intros Hl Hr. induction n as [|n IH]; intros s prev Hlen Hs.
  - destruct s; [exact Hs|cbn in Hlen; lia].
  - destruct s as [|c s]; [exact Hs|]. cbn [length] in Hlen.
    assert (Hcs : no_pair bad (c :: s)).
    { destruct prev; [exact (no_pair_tail _ _ _ Hs)|exact Hs]. }
    rewrite sub_go_step.
    destruct (attempt spaces_newline prev (c :: s)) as [ls|] eqn:E.
    + apply attempt_spaces_newline in E as (j & -> & Hj & Hjn & Hmax).
      replace (total [j; 1%nat]) with (S j) by (cbn; lia).
      cbn [expand app]. rewrite (last_cons_take _ _ _ _ Hjn).
      apply no_pair_with_prev; [intros p _; apply Hl|].
      apply (IH (drop j s) (Some NL)); [rewrite length_drop; lia|].
      cbn [with_prev]. apply no_pair_head.
      * destruct (drop j s); [exact I|apply Hr].
      * apply no_pair_tail in Hcs. rewrite <- (take_drop j s) in Hcs.
        apply no_pair_app in Hcs. apply Hcs.
    + apply no_pair_with_prev.
      * intros p ->. destruct Hs as [Hpc _]. exact Hpc.
      * apply (IH s (Some c)); [lia|exact Hcs].
Qed.

(** *** [strip] *)

Lemma lstrip_suffix p s : exists w, s = w ++ lstrip_by p s.
Proof.
  induction s as [|c s (w & IH)]; [exists []; reflexivity|].
  cbn [lstrip_by]. destruct (p c).
  - exists (c :: w). cbn. f_equal. exact IH.
  - exists []. reflexivity.
Qed.

Lemma rstrip_prefix p s : exists w, s = rstrip_by p s ++ w.
Proof.
  unfold rstrip_by. destruct (lstrip_suffix p (rev s)) as (w & Hw).
  exists (rev w). rewrite <- rev_app_distr, <- Hw, rev_involutive. reflexivity.
Qed.

Lemma strip_by_middle p s : exists w1 w2, s = w1 ++ strip_by p s ++ w2.
Proof.
  unfold strip_by. destruct (lstrip_suffix p s) as (w1 & H1).
  destruct (rstrip_prefix p (lstrip_by p s)) as (w2 & H2).
  exists w1, w2. rewrite <- H2. exact H1.
Qed.

Lemma strip_by_Forall (P : Z -> Prop) p s :
  Forall P s -> Forall P (strip_by p s).
Proof.
  intros Hs. destruct (strip_by_middle p s) as (w1 & w2 & Hw).
  rewrite Hw in Hs. apply Forall_app in Hs as [_ Hs].
  apply Forall_app in Hs as [Hs _]. exact Hs.
Qed.

Lemma strip_by_no_pair bad p s : no_pair bad s -> no_pair bad (strip_by p s).
Proof.
  intros Hs. destruct (strip_by_middle p s) as (w1 & w2 & Hw).
  rewrite Hw in Hs. apply no_pair_app in Hs as [_ Hs].
  apply no_pair_app in Hs as [Hs _]. exact Hs.
Qed.

Lemma lstrip_head p s :
  match lstrip_by p s with c :: _ => p c = false | [] => True end.
Proof.
  induction s as [|c s IH]; [exact I|]. cbn [lstrip_by].
  destruct (p c) eqn:E; [exact IH|exact E].
Qed.

Lemma lstrip_fixed p s :
  match s with c :: _ => p c = false | [] => True end -> lstrip_by p s = s.
Proof. destruct s as [|c s]; [reflexivity|]. cbn [lstrip_by]. intros ->. reflexivity. Qed.

Lemma head_rev (s : str) : head (rev s) = last s.
Proof.
  induction s as [|c s IH]; [reflexivity|]. cbn [rev].
  destruct s as [|c' s]; [reflexivity|].
  rewrite last_cons_cons, <- IH. cbn [rev].
  destruct (rev s); reflexivity.
Qed.

(** The ends of a stripped string are outside [p]. *)
Lemma strip_by_ends p s :
  match strip_by p s with
  | [] => True
  | c :: _ => p c = false
              /\ exists e, last (strip_by p s) = Some e /\ p e = false
  end.
Proof.
  unfold strip_by. set (a := lstrip_by p s).
  pose proof (lstrip_head p s) as Ha. fold a in Ha.
  destruct (rstrip_prefix p a) as (w & Hw).
  pose proof (lstrip_head p (rev a)) as Hb.
  unfold rstrip_by in *. set (b := lstrip_by p (rev a)) in *.
  destruct (rev b) as [|c t] eqn:Eb; [exact I|]. split.
  - rewrite Hw in Ha. exact Ha.
  - rewrite <- Eb, <- head_rev, rev_involutive.
    destruct b as [|e b']; [discriminate Eb|]. exists e. split; [reflexivity|exact Hb].
Qed.

Lemma strip_by_fixed p s :
  match s with
  | [] => True
  | c :: _ => p c = false /\ exists e, last s = Some e /\ p e = false
  end -> strip_by p s = s.
Proof.
  destruct s as [|c s]; [reflexivity|]. intros (Hc & e & He & Hpe).
  unfold strip_by, rstrip_by. rewrite (lstrip_fixed p (c :: s)) by exact Hc.
  rewrite lstrip_fixed; [apply rev_involutive|].
  pose proof (head_rev (c :: s)) as Hh. rewrite He in Hh.
  destruct (rev (c :: s)) as [|x t]; [exact I|]. injection Hh as ->. exact Hpe.
Qed.

(** *** [norm_space] *)

Lemma hspace_is_space c : hspace c = true -> c <> NL.
Proof. intros Hc ->. discriminate Hc. Qed.

Lemma squash_single_spaced s : single_spaced (squash hspace SP false s).
Proof.
  assert (Hall : Forall (fun c => hspace c = true -> c = SP)
                   (squash hspace SP false s)).
  { eapply Forall_impl; [apply squash_chars|]. cbn beta.
    intros c [->|Hc] Hh; [reflexivity|congruence]. }
  split; [exact Hall|].
  eapply no_pair_weaken; [|apply (squash_no_pair hspace SP s eq_refl)].
  cbn beta. intros a b Ha Hab. apply andb_prop in Hab as [Hha Hhb].
  rewrite Forall_forall in Hall. rewrite (Hall a Ha Hha), Hhb. reflexivity.
Qed.

Section NormSpace.
Variable s : str.

(** The three facts that make a second application change nothing. *)
Lemma norm_space_shape :
  single_spaced (norm_space s) /\ tight_newlines (norm_space s)
  /\ stripped (norm_space s).
Proof.
  unfold norm_space. destruct (is_empty s) eqn:Es.
  { destruct s; [|discriminate]. repeat split; constructor. }
  rewrite re_sub_plus. fold spaces_newline. unfold re_sub, strip.
  set (a := squash hspace SP false s).
  pose proof (squash_single_spaced s) as [Hall Hpair]. fold a in Hall, Hpair.
  split; [split|split].
  - apply strip_by_Forall, sub_go_Forall; [|exact Hall].
    constructor; [discriminate|constructor].
  - apply strip_by_no_pair.
    apply (spaces_newline_keeps _ (length a) (fun _ => andb_false_r _)
             (fun _ => eq_refl) a None (le_n _) Hpair).
  - apply strip_by_no_pair.
    apply (spaces_newline_tight (length a) a None (le_n _)). discriminate.
  - apply strip_by_ends.
Qed.
End NormSpace.

(** C10. [norm_space] is idempotent: after one application horizontal
    white space is single spaces, no white space precedes a newline and the
    ends are stripped, so that a second application changes nothing. *)
Theorem norm_space_idempotent s :
  norm_space (norm_space s) = norm_space s
  /\ single_spaced (norm_space s)
  /\ tight_newlines (norm_space s)
  /\ stripped (norm_space s).
Proof.
  split; [|apply norm_space_shape].
  destruct (norm_space_shape s) as ((Hall & Hpair) & Htight & Hstrip).
  set (t := norm_space s) in *. unfold norm_space at 1.
  destruct (is_empty t); [reflexivity|].
  rewrite re_sub_plus, (squash_fixed hspace SP t Hall Hpair).
  fold spaces_newline. unfold re_sub.
  rewrite (spaces_newline_fixed t None Htight).
  apply strip_by_fixed. exact Hstrip.
Qed.

(** ** [condense_zhuyin] *)

Ltac bool_arith :=
  unfold cjk_or_bracket, cjk_or_opening, hspace, either, one_of in *;
  unfold BPMF, CJK, isspace, chr, in_range, NL, SP, FW_COMMA in *;
  cbn [existsb] in *.

Lemma BPMF_not_space c : BPMF c = true -> isspace c = false.
Proof.
  intros Hb. destruct (isspace c) eqn:Hs; [|reflexivity]. exfalso.
  bool_arith. lia.
Qed.

Lemma next_nonspace_lookup s : next_nonspace s = s !! run_length isspace s.
Proof.
  induction s as [|c s IH]; [reflexivity|]. cbn [next_nonspace run_length].
  destruct (isspace c); [exact IH|reflexivity].
Qed.

Lemma attempt_between_bpmf prev s :
  attempt between_bpmf prev s
  = if is_bpmf prev && is_bpmf (next_nonspace s)
       && (0 <? run_length isspace s)%nat
    then Some [run_length isspace s] else None.
Proof.
  unfold attempt, between_bpmf. cbn [re_behind re_ahead re_atoms].
  assert (Hk : forall j, (j <= run_length isspace s)%nat ->
            (if ahead_ok (AheadIn BPMF) (drop j s) then Some [] else None)
            = if bool_decide (j = run_length isspace s)
                 && is_bpmf (next_nonspace s)
              then Some ([] : list nat) else None).
  { intros j Hj. rewrite next_nonspace_lookup.
    assert (Ha : ahead_ok (AheadIn BPMF) (drop j s) = is_bpmf (s !! j)).
    { rewrite <- head_drop. destruct (drop j s); reflexivity. }
    rewrite Ha. destruct (decide (j = run_length isspace s)) as [->|Hne].
    - rewrite bool_decide_eq_true_2 by reflexivity. reflexivity.
    - rewrite bool_decide_eq_false_2 by exact Hne. cbn [andb].
      destruct (run_length_lookup isspace s j) as (x & -> & Hx); [lia|].
      cbn [is_bpmf]. destruct (BPMF x) eqn:Hb; [|reflexivity].
      apply BPMF_not_space in Hb. congruence. }
  assert (Hb : behind_ok (BehindIn BPMF) prev = is_bpmf prev)
    by (destruct prev; reflexivity).
  rewrite Hb. cbn [match_atoms plus a_cls a_min a_max].
  destruct (is_bpmf prev); [|reflexivity]. cbn [andb].
  destruct (is_bpmf (next_nonspace s)) eqn:En; cbn [andb].
  - destruct (0 <? run_length isspace s)%nat eqn:Er.
    + apply Nat.ltb_lt in Er. apply backtrack_some. split; [lia|]. split.
      * cbn [match_atoms]. rewrite Hk by lia.
        rewrite bool_decide_eq_true_2 by reflexivity. reflexivity.
      * intros i Hi. lia.
    + apply Nat.ltb_ge in Er. apply backtrack_none. intros i Hi. lia.
  - apply backtrack_none. intros i Hi. cbn [match_atoms].
    rewrite Hk by lia. rewrite andb_false_r. reflexivity.
Qed.

Lemma drop_flanked_run left s :
  is_bpmf left = true -> is_bpmf (next_nonspace s) = true ->
  drop_flanked left s = drop_flanked left (drop (run_length isspace s) s).
Proof.
  intros Hl. induction s as [|c s IH]; intros Hn; [reflexivity|].
  cbn [drop_flanked run_length next_nonspace] in *.
  destruct (isspace c) eqn:Ec.
  - rewrite Hl, Hn. cbn [andb skipn]. apply IH, Hn.
  - rewrite drop_0. cbn [drop_flanked]. rewrite Ec. reflexivity.
Qed.

Lemma between_bpmf_spec n : forall s prev left,
  (length s <= n)%nat -> left_agrees prev left s ->
  sub_go between_bpmf [] prev O s = drop_flanked left s.
Proof.
  induction n as [|n IH]; intros s prev left Hlen Hag.
  - destruct s; [reflexivity|cbn in Hlen; lia].
  - destruct s as [|c s]; [reflexivity|]. cbn [length] in Hlen.
    rewrite sub_go_step, attempt_between_bpmf.
    unfold left_agrees in Hag. cbn [drop_flanked run_length next_nonspace] in *.
    destruct (isspace c) eqn:Ec.
    + cbn [Nat.ltb Nat.leb]. rewrite andb_true_r.
      destruct (is_bpmf prev && is_bpmf (next_nonspace s)) eqn:Em.
      * apply andb_prop in Em as [Hp Hn].
        destruct prev as [p|]; [|discriminate Hp]. cbn [is_bpmf] in Hp.
        rewrite (BPMF_not_space _ Hp) in Hag. subst left.
        cbn [is_bpmf]. rewrite Hp, Hn. cbn [andb total fold_right Nat.add].
        rewrite Nat.add_0_r. cbn [expand app].
        rewrite (drop_flanked_run (Some p) s Hp Hn).
        apply IH; [rewrite length_drop; lia|].
        unfold left_agrees. rewrite next_nonspace_lookup in Hn.
        destruct (drop (run_length isspace s) s) as [|x t] eqn:Ed; [exact I|].
        pose proof (head_drop s (run_length isspace s)) as Hh. rewrite Ed in Hh.
        cbn [head] in Hh. symmetry in Hh. rewrite (run_length_stop _ _ _ Hh).
        exact I.
      * assert (Hspec : is_bpmf left && is_bpmf (next_nonspace s) = false).
        { destruct prev as [p|]; [|subst left; reflexivity].
          destruct (isspace p); [exact Hag|]. subst left. exact Em. }
        rewrite Hspec. f_equal. apply IH; [lia|].
        unfold left_agrees. destruct s as [|c' s]; [exact I|].
        destruct (isspace c'); [|exact I]. rewrite Ec. exact Hspec.
    + rewrite andb_false_r. f_equal. apply IH; [lia|].
      unfold left_agrees. destruct s as [|c' s]; [exact I|].
      destruct (isspace c'); [|exact I]. rewrite Ec. reflexivity.
Qed.

(** C5. [condense_zhuyin] removes exactly the white-space runs that lie
    strictly between two bopomofo characters: a white-space character goes
    when the nearest characters that are not white space on both of its
    sides are bopomofo (a code point of U+3105-U+3129 or U+31A0-U+31BA, or one of
    the tone marks U+02D9, U+02CA, U+02C7, U+02CB), and every other
    character stays, in order. *)
Theorem condense_zhuyin_exact s :
  condense_zhuyin s = drop_flanked None s
  /\ forall c, BPMF c = true <->
       0x3105 <= c <= 0x3129 \/ 0x31A0 <= c <= 0x31BA
       \/ c = 0x02D9 \/ c = 0x02CA \/ c = 0x02C7 \/ c = 0x02CB.
Proof.
  split; [|intros c; unfold BPMF, in_range;
           rewrite !orb_true_iff, !andb_true_iff, !Z.leb_le, !Z.eqb_eq; tauto].
  unfold condense_zhuyin. destruct (is_empty s) eqn:Es.
  - destruct s; [reflexivity|discriminate].
  - apply (between_bpmf_spec (length s) s None None (le_n _)).
    unfold left_agrees. destruct s as [|c s]; [exact I|].
    destruct (isspace c); [reflexivity|exact I].
Qed.

(** ** Matches are splits *)

Lemma match_atoms_unfold la a atoms s :
  match_atoms la (a :: atoms) s
  = backtrack (fun j => match_atoms la atoms (drop j s)) (a_min a) (most a s).
Proof. reflexivity. Qed.

(** What the matcher returns is a split. *)
Lemma match_atoms_sound la atoms : forall s ls,
  match_atoms la atoms s = Some ls -> splits la atoms s ls.
Proof.
  induction atoms as [|a atoms IH]; intros s ls Hm.
  - cbn [match_atoms] in Hm. destruct (ahead_ok la s) eqn:E; [|discriminate].
    injection Hm as <-. exact E.
  - rewrite match_atoms_unfold in Hm.
    destruct (backtrack_cons _ _ _ _ Hm) as (j & ls' & ->).
    apply backtrack_some in Hm as (Hj & Hk & _).
    split; [exact Hj|]. apply IH, Hk.
Qed.

(** Where there is a split, the matcher finds a match. *)
Lemma match_atoms_complete la atoms : forall s ls,
  splits la atoms s ls -> match_atoms la atoms s <> None.
Proof.
  induction atoms as [|a atoms IH]; intros s ls Hs.
  - destruct ls; [|destruct Hs]. cbn [splits] in Hs. cbn [match_atoms].
    rewrite Hs. discriminate.
  - destruct ls as [|j ls]; [destruct Hs|]. destruct Hs as [Hj Hs].
    rewrite match_atoms_unfold. intros Hnone.
    rewrite backtrack_none in Hnone. exact (IH _ _ Hs (Hnone j Hj)).
Qed.

Lemma run_length_mono (c d : cclass) s :
  (forall x, c x = true -> d x = true) ->
  (run_length c s <= run_length d s)%nat.
Proof.
  intros Hcd. induction s as [|x s IH]; [reflexivity|]. cbn [run_length].
  destruct (c x) eqn:E; [rewrite (Hcd x E); lia|lia].
Qed.


(** ** [newline_to_cjk_comma] *)

Lemma cjk_or_bracket_not_space c : cjk_or_bracket c = true -> isspace c = false.
Proof.
  intros Hb. destruct (isspace c) eqn:Hs; [|reflexivity]. exfalso.
  bool_arith. lia.
Qed.

Lemma cjk_or_opening_not_space c : cjk_or_opening c = true -> isspace c = false.
Proof.
  intros Hb. destruct (isspace c) eqn:Hs; [|reflexivity]. exfalso.
  unfold cjk_or_opening, either, one_of in Hb.
  change (u "“「『（(") with [0x201C; 0x300C; 0x300E; 0xFF08; 0x28] in Hb.
  bool_arith. lia.
Qed.

Lemma has_newline_spec s :
  has_newline s = true <->
  exists i, (i < run_length isspace s)%nat /\ s !! i = Some NL.
Proof.
  induction s as [|c s IH]; cbn [has_newline run_length].
  - split; [discriminate|]. intros (i & Hi & _). lia.
  - destruct (isspace c) eqn:Ec; cbn [andb].
    + rewrite orb_true_iff, IH, Z.eqb_eq. split.
      * intros [->|(i & Hi & Hn)].
        -- exists O. split; [lia|reflexivity].
        -- exists (S i). split; [lia|exact Hn].
      * intros (i & Hi & Hn). destruct i as [|i].
        -- left. cbn in Hn. congruence.
        -- right. exists i. split; [lia|exact Hn].
    + split; [discriminate|]. intros (i & Hi & _). lia.
Qed.

Lemma run_length_pos (c : cclass) s x :
  s !! O = Some x -> c x = true -> (1 <= run_length c s)%nat.
Proof.
  destruct s as [|y s]; [discriminate|]. intros [= ->] Hx.
  cbn [run_length]. rewrite Hx. lia.
Qed.

Lemma ahead_in_lookup cls s j :
  ahead_ok (AheadIn cls) (drop j s) = in_class cls (s !! j).
Proof. rewrite <- head_drop. destruct (drop j s); reflexivity. Qed.

Lemma chr_is_space x : chr NL x = true -> isspace x = true.
Proof. unfold chr. intros Hx. apply Z.eqb_eq in Hx. subst x. reflexivity. Qed.

(** A match of the pattern is the whole white-space run, which has a
    newline and stands between the two classes. *)
Lemma attempt_wrapped_some prev s ls :
  attempt wrapped_line prev s = Some ls ->
  in_class cjk_or_bracket prev = true /\ has_newline s = true
  /\ in_class cjk_or_opening (next_nonspace s) = true
  /\ total ls = run_length isspace s.
Proof.
  unfold attempt, wrapped_line. cbn [re_behind re_ahead re_atoms].
  assert (Hb : behind_ok (BehindIn cjk_or_bracket) prev
               = in_class cjk_or_bracket prev) by (destruct prev; reflexivity).
  rewrite Hb. destruct (in_class cjk_or_bracket prev); [|discriminate].
  intros Hm. apply match_atoms_sound in Hm.
  destruct ls as [|j1 ls]; [destruct Hm|]. destruct Hm as [[_ H1] Hm].
  destruct ls as [|j2 ls]; [destruct Hm|]. destruct Hm as [[H2 H2'] Hm].
  destruct ls as [|j3 ls]; [destruct Hm|]. destruct Hm as [[_ H3] Ha].
  destruct ls as [|j4 ls]; [|destruct Ha]. cbn [splits] in Ha.
  cbn [most star plus a_max a_cls a_min] in *.
  set (R := run_length isspace s) in *.
  pose proof (run_length_mono (chr NL) isspace (drop j1 s) chr_is_space) as Hle.
  rewrite (run_length_drop isspace) in Hle by exact H1. fold R in Hle.
  rewrite drop_drop in H3, Ha.
  rewrite run_length_drop in H3 by (fold R; lia). fold R in H3.
  rewrite drop_drop, ahead_in_lookup in Ha.
  match type of Ha with
  | context [s !! ?k] => replace k with (j1 + j2 + j3)%nat in Ha by lia
  end.
  destruct (s !! (j1 + j2 + j3)%nat) as [x|] eqn:Ex; [|discriminate Ha].
  cbn [in_class] in Ha.
  assert (Hx : isspace x = false) by (apply cjk_or_opening_not_space, Ha).
  assert (HR : (j1 + j2 + j3)%nat = R).
  { destruct (decide ((j1 + j2 + j3)%nat = R)) as [|Hne]; [assumption|].
    destruct (run_length_lookup isspace s (j1 + j2 + j3)) as (y & Hy & Hsy);
      [fold R; lia|]. congruence. }
  split; [reflexivity|]. split; [|split].
  - apply has_newline_spec. exists j1. split; [fold R; lia|].
    destruct (run_length_lookup (chr NL) (drop j1 s) O) as (y & Hy & Hny); [lia|].
    rewrite lookup_drop, Nat.add_0_r in Hy. unfold chr in Hny.
    apply Z.eqb_eq in Hny. congruence.
  - rewrite next_nonspace_lookup. fold R. rewrite <- HR, Ex. exact Ha.
  - cbn [total fold_right]. lia.
Qed.

Lemma attempt_wrapped_none prev s :
  attempt wrapped_line prev s = None ->
  in_class cjk_or_bracket prev && has_newline s
  && in_class cjk_or_opening (next_nonspace s) = false.
Proof.
  intros Hnone.
  destruct (in_class cjk_or_bracket prev) eqn:Hp; [|reflexivity].
  destruct (has_newline s) eqn:Hn; [|reflexivity].
  destruct (in_class cjk_or_opening (next_nonspace s)) eqn:Hd; [|reflexivity].
  exfalso. revert Hnone. unfold attempt, wrapped_line.
  cbn [re_behind re_ahead re_atoms].
  assert (Hb : behind_ok (BehindIn cjk_or_bracket) prev
               = in_class cjk_or_bracket prev) by (destruct prev; reflexivity).
  rewrite Hb, Hp.
  apply has_newline_spec in Hn as (i & Hi & Hnl).
  set (R := run_length isspace s) in *.
  apply (match_atoms_complete _ _ _ [i; 1%nat; (R - i - 1)%nat]).
  cbn [splits most star plus a_max a_cls a_min]. fold R.
  split; [lia|]. split.
  - split; [lia|]. apply (run_length_pos _ _ NL); [|reflexivity].
    rewrite lookup_drop, Nat.add_0_r. exact Hnl.
  - rewrite drop_drop. split.
    + rewrite run_length_drop by (fold R; lia). fold R. lia.
    + rewrite drop_drop, ahead_in_lookup.
      replace (i + 1 + (R - i - 1))%nat with R by lia.
      rewrite next_nonspace_lookup in Hd. exact Hd.
Qed.

Lemma has_newline_outside c s : isspace c = false -> has_newline (c :: s) = false.
Proof. intros Hc. cbn [has_newline]. rewrite Hc. reflexivity. Qed.

Lemma wrap_commas_replaced left s :
  wrap_commas left Replaced s
  = wrap_commas left Replaced (drop (run_length isspace s) s).
Proof.
  induction s as [|c s IH]; [reflexivity|]. cbn [run_length].
  destruct (isspace c) eqn:Ec.
  - cbn [skipn wrap_commas]. rewrite Ec. exact IH.
  - rewrite drop_0. reflexivity.
Qed.

Lemma wrap_commas_outside left st c s :
  isspace c = false ->
  wrap_commas left st (c :: s) = c :: wrap_commas (Some c) Outside s.
Proof. intros Hc. cbn [wrap_commas]. rewrite Hc. reflexivity. Qed.

Lemma wrapped_line_spec n : forall s prev left st,
  (length s <= n)%nat -> scan_agrees prev left st s ->
  sub_go wrapped_line [TLit [FW_COMMA]] prev O s = wrap_commas left st s.
Proof.
  induction n as [|n IH]; intros s prev left st Hlen Hag.
  - destruct s; [reflexivity|cbn in Hlen; lia].
  - destruct s as [|c s]; [reflexivity|]. cbn [length] in Hlen.
    assert (Hnext : forall p l t,
      (isspace p = false -> l = Some p /\ t = Outside) ->
      (isspace p = true -> t = Kept) ->
      scan_agrees (Some p) l t s).
    { intros p l t H1 H2. unfold scan_agrees. destruct s as [|c' s]; [exact I|].
      destruct (isspace c'); [|exact I].
      destruct (isspace p); [apply H2|apply H1]; reflexivity. }
    rewrite sub_go_step. unfold scan_agrees in Hag.
    destruct (isspace c) eqn:Ec.
    + destruct (attempt wrapped_line prev (c :: s)) as [ls|] eqn:E.
      * apply attempt_wrapped_some in E as (Hp & Hn & Hd & Htot).
        destruct prev as [p|]; [|discriminate Hp]. cbn [in_class] in Hp.
        rewrite (cjk_or_bracket_not_space _ Hp) in Hag.
        destruct Hag as [-> ->].
        rewrite Htot. cbn [run_length]. rewrite Ec.
        cbn [expand app wrap_commas]. rewrite Ec.
        cbn [in_class]. rewrite Hp, Hn, Hd. cbn [andb]. f_equal.
        rewrite wrap_commas_replaced. apply IH; [rewrite length_drop; lia|].
        unfold scan_agrees.
        destruct (drop (run_length isspace s) s) as [|x t] eqn:Ed; [exact I|].
        pose proof (head_drop s (run_length isspace s)) as Hh. rewrite Ed in Hh.
        cbn [head] in Hh. symmetry in Hh. rewrite (run_length_stop _ _ _ Hh).
        exact I.
      * apply attempt_wrapped_none in E. cbn [wrap_commas]. rewrite Ec.
        destruct prev as [p|].
        -- destruct (isspace p) eqn:Ep.
           ++ subst st. f_equal. apply IH; [lia|].
              apply Hnext; [congruence|reflexivity].
           ++ destruct Hag as [-> ->]. rewrite E. f_equal. apply IH; [lia|].
              apply Hnext; [congruence|reflexivity].
        -- destruct Hag as [-> ->]. cbn [in_class andb]. f_equal.
           apply IH; [lia|]. apply Hnext; [congruence|reflexivity].
    + assert (E : attempt wrapped_line prev (c :: s) = None).
      { destruct (attempt wrapped_line prev (c :: s)) as [ls|] eqn:E;
          [|reflexivity].
        apply attempt_wrapped_some in E as (_ & Hn & _).
        rewrite (has_newline_outside _ _ Ec) in Hn. discriminate Hn. }
      rewrite E, (wrap_commas_outside _ _ _ _ Ec). f_equal.
      apply IH; [lia|]. apply Hnext; [intros _; split; reflexivity|congruence].
Qed.

Lemma replace_char_delete s : replace_char NL [] s = delete_newlines s.
Proof.
  unfold delete_newlines. induction s as [|c s IH]; [reflexivity|].
  cbn [replace_char]. rewrite filter_cons.
  destruct (Z.eqb_spec c NL) as [->|Hne].
  - rewrite decide_False by (intros Hn; apply Hn; reflexivity). exact IH.
  - rewrite decide_True by exact Hne. cbn [app]. f_equal. exact IH.
Qed.

(** C6. [newline_to_cjk_comma] repairs wrapped CJK text: each white-space
    run with a newline between a CJK character or [']'] and a CJK character
    or opening quote or bracket becomes a fullwidth comma, the newlines
    that remain are deleted, and every run of fullwidth commas that results
    becomes one comma; the output has no newline, and no two fullwidth
    commas in a row. *)
Theorem newline_to_cjk_comma_repairs s :
  newline_to_cjk_comma s
  = squash (chr FW_COMMA) FW_COMMA false
      (delete_newlines (wrap_commas None Outside s))
  /\ (NL ∉ newline_to_cjk_comma s)
  /\ no_pair (fun a b => (a =? FW_COMMA) && (b =? FW_COMMA))
       (newline_to_cjk_comma s).
Proof.
  assert (Heq : newline_to_cjk_comma s
                = squash (chr FW_COMMA) FW_COMMA false
                    (delete_newlines (wrap_commas None Outside s))).
  { unfold newline_to_cjk_comma. destruct (is_empty s) eqn:Es.
    - destruct s; [reflexivity|discriminate].
    - rewrite re_sub_two, replace_char_delete. fold wrapped_line.
      unfold re_sub.
      rewrite (wrapped_line_spec (length s) s None None Outside (le_n _));
        [reflexivity|].
      unfold scan_agrees. destruct s as [|c s']; [exact I|].
      destruct (isspace c); [split; reflexivity|exact I]. }
  split; [exact Heq|]. rewrite Heq. split.
  - intros Hin.
    pose proof (squash_chars (chr FW_COMMA) FW_COMMA false
                  (delete_newlines (wrap_commas None Outside s))) as Hall.
    assert (Hsub : forall x b t, x ∈ squash (chr FW_COMMA) FW_COMMA b t ->
                     x = FW_COMMA \/ x ∈ t).
    { intros x b t. revert b. induction t as [|c t IHt]; intros b Hx.
      - cbn in Hx. apply elem_of_nil in Hx. destruct Hx.
      - cbn [squash] in Hx. destruct (chr FW_COMMA c); [destruct b|].
        + destruct (IHt _ Hx) as [?|?]; [left; assumption|right; right; assumption].
        + apply elem_of_cons in Hx as [->|Hx]; [left; reflexivity|].
          destruct (IHt _ Hx) as [?|?]; [left; assumption|right; right; assumption].
        + apply elem_of_cons in Hx as [->|Hx]; [right; left|].
          destruct (IHt _ Hx) as [?|?]; [left; assumption|right; right; assumption]. }
    destruct (Hsub _ _ _ Hin) as [Hc|Hd]; [discriminate Hc|].
    unfold delete_newlines in Hd. apply list_elem_of_filter in Hd as [Hne _].
    apply Hne. reflexivity.
  - apply (squash_no_pair (chr FW_COMMA) FW_COMMA _ eq_refl).
Qed.

(** ** [safe_slug] *)

Lemma squash_Forall (P : Z -> Prop) cls y b s :
  P y -> (forall c, c ∈ s -> cls c = false -> P c) ->
  Forall P (squash cls y b s).
Proof.
  intros Hy. revert b. induction s as [|c s IH]; intros b Hs; [constructor|].
  assert (Hs' : forall c', c' ∈ s -> cls c' = false -> P c').
  { intros c' Hc'. apply Hs. right. exact Hc'. }
  cbn [squash]. destruct (cls c) eqn:E.
  - destruct b; [apply IH, Hs'|]. constructor; [exact Hy|apply IH, Hs'].
  - constructor; [apply Hs; [left|exact E]|apply IH, Hs'].
Qed.

Lemma lstrip_all p s : Forall (fun c => p c = true) s -> lstrip_by p s = [].
Proof.
  induction 1 as [|c s Hc _ IH]; [reflexivity|]. cbn [lstrip_by].
  rewrite Hc. exact IH.
Qed.

Lemma strip_by_all p s : Forall (fun c => p c = true) s -> strip_by p s = [].
Proof. intros Hs. unfold strip_by. rewrite (lstrip_all p s Hs). reflexivity. Qed.

Section Slug.
Context `{Unicode}.

Lemma slug_class_underscore : slug_class UNDERSCORE = true.
Proof. unfold slug_class, word, either, chr. rewrite Z.eqb_refl, orb_true_r. reflexivity. Qed.

Lemma NA_slug : Forall (fun c => slug_class c = true) NA.
Proof.
  repeat constructor; unfold slug_class, word, either;
    rewrite isalnum_ascii by reflexivity; reflexivity.
Qed.

Lemma safe_slug_core s :
  safe_slug s
  = if is_empty s || is_empty (slug_core s) then NA else slug_core s.
Proof.
  unfold safe_slug, slug_core. destruct (is_empty s); [reflexivity|].
  rewrite re_sub_plus, re_sub_two. reflexivity.
Qed.

Lemma slug_core_shape s :
  Forall (fun c => slug_class c = true) (slug_core s)
  /\ no_pair (fun a b => (a =? UNDERSCORE) && (b =? UNDERSCORE)) (slug_core s)
  /\ head (slug_core s) <> Some UNDERSCORE
  /\ last (slug_core s) <> Some UNDERSCORE.
Proof.
  unfold slug_core, strip_char. split; [|split].
  - apply strip_by_Forall, squash_Forall; [apply slug_class_underscore|].
    intros c Hc _. revert c Hc. apply Forall_forall.
    apply squash_Forall; [apply slug_class_underscore|].
    intros c _ Hc. unfold neg in Hc. apply negb_false_iff in Hc. exact Hc.
  - apply strip_by_no_pair.
    apply (squash_no_pair (chr UNDERSCORE) UNDERSCORE _ (Z.eqb_refl _)).
  - pose proof (strip_by_ends (Z.eqb UNDERSCORE)
      (squash (chr UNDERSCORE) UNDERSCORE false
         (squash (neg slug_class) UNDERSCORE false (strip s)))) as He.
    destruct (strip_by _ _) as [|c t]; [split; discriminate|].
    destruct He as (Hc & e & He & Hpe). split.
    + intros [= ->]. rewrite Z.eqb_refl in Hc. discriminate Hc.
    + rewrite He. intros [= ->]. rewrite Z.eqb_refl in Hpe. discriminate Hpe.
Qed.

(** C9. [safe_slug] always returns a non-empty string for a file name: it
    is the input stripped, with every run of characters other than word
    characters, hyphens and CJK characters made one underscore, consecutive
    underscores made one and the underscores at the ends removed, or [NA]
    if the input or this result is empty.  Hence every character of the
    output is a word character, a hyphen or a CJK character, no two
    underscores follow one another, and the output neither starts nor ends
    with an underscore; an input of which nothing remains gives [NA]. *)
Theorem safe_slug_is_a_name s :
  safe_slug s = (if is_empty s || is_empty (slug_core s) then NA
                 else slug_core s)
  /\ safe_slug s <> []
  /\ Forall (fun c => isalnum c || (c =? UNDERSCORE) || (c =? HYPHEN) || CJK c
                      = true) (safe_slug s)
  /\ no_pair (fun a b => (a =? UNDERSCORE) && (b =? UNDERSCORE)) (safe_slug s)
  /\ head (safe_slug s) <> Some UNDERSCORE
  /\ last (safe_slug s) <> Some UNDERSCORE
  /\ safe_slug [] = NA
  /\ (Forall (fun c => slug_class c = false \/ c = UNDERSCORE) s ->
      safe_slug s = NA).
Proof.
  split; [apply safe_slug_core|]. rewrite safe_slug_core.
  destruct (slug_core_shape s) as (Hall & Hpair & Hhead & Hlast).
  split; [|split; [|split; [|split; [|split; [|split]]]]].
  - destruct (is_empty s); [discriminate|]. cbn [orb].
    destruct (slug_core s); [discriminate|discriminate].
  - destruct (is_empty s || is_empty (slug_core s)); [apply NA_slug|exact Hall].
  - destruct (is_empty s || is_empty (slug_core s)); [|exact Hpair].
    repeat split.
  - destruct (is_empty s || is_empty (slug_core s)); [discriminate|exact Hhead].
  - destruct (is_empty s || is_empty (slug_core s)); [discriminate|exact Hlast].
  - reflexivity.
  - intros Hjunk.
    assert (Hcore : slug_core s = []).
    { unfold slug_core, strip_char. apply strip_by_all.
      apply squash_Forall; [apply Z.eqb_refl|].
      intros c Hc _. revert c Hc. apply Forall_forall.
      apply squash_Forall; [apply Z.eqb_refl|].
      intros c Hc Hn. unfold neg in Hn. apply negb_false_iff in Hn.
      assert (Hin : c ∈ s).
      { unfold strip in Hc. destruct (strip_by_middle isspace s) as (w1 & w2 & Hw).
        rewrite Hw. rewrite !elem_of_app. right. left. exact Hc. }
      rewrite Forall_forall in Hjunk.
      destruct (Hjunk c Hin) as [Hf| ->]; [congruence|apply Z.eqb_refl]. }
    rewrite Hcore. cbn [is_empty]. rewrite orb_true_r. reflexivity.
Qed.
End Slug.

(** C9 on a string of punctuation and spaces: nothing remains, and the
    slug is [NA]. *)
Lemma safe_slug_is_a_name_witness :
  Forall (fun c => @slug_class basic_unicode c = false \/ c = UNDERSCORE)
    (lit " ?!_ ")
  /\ @safe_slug basic_unicode (lit " ?!_ ") = NA.
Proof.
  assert (Hjunk : Forall (fun c => @slug_class basic_unicode c = false
                                   \/ c = UNDERSCORE) (lit " ?!_ ")).
  { repeat constructor; first [left; reflexivity|right; reflexivity]. }
  split; [exact Hjunk|].
  apply (@safe_slug_is_a_name basic_unicode (lit " ?!_ ")). exact Hjunk.
Defined.

(* ================================================================== *)
(** * Further properties of the utilities *)

(** ** Texts on which a pattern cannot match *)

(** A match takes, for each class of the pattern that must occur, a
    character of that class from the text. *)
Lemma splits_needs la atoms : forall s ls a,
  splits la atoms s ls -> a ∈ atoms -> (1 <= a_min a)%nat ->
  exists x, x ∈ s /\ a_cls a x = true.
Proof.
  induction atoms as [|b atoms IH]; intros s ls a Hs Ha Hmin.
  { inversion Ha. }
  destruct ls as [|j ls]; [destruct Hs|]. destruct Hs as [Hj Hrest].
  apply elem_of_cons in Ha as [->|Ha].
  - assert (Hrun : (1 <= run_length (a_cls b) s)%nat).
    { unfold most in Hj. destruct (a_max b); lia. }
    destruct (run_length_lookup (a_cls b) s O Hrun) as (x & Hx & Hc).
    exists x. split; [|exact Hc]. eapply list_elem_of_lookup_2, Hx.
  - destruct (IH _ _ _ Hrest Ha Hmin) as (x & Hx & Hc).
    exists x. split; [|exact Hc].
    rewrite <- (take_drop j s). apply elem_of_app. right. exact Hx.
Qed.

Lemma attempt_needs r prev s ls a :
  attempt r prev s = Some ls -> a ∈ re_atoms r -> (1 <= a_min a)%nat ->
  exists x, x ∈ s /\ a_cls a x = true.
Proof.
  unfold attempt. destruct (behind_ok _ _); [|discriminate].
  intros Hm. apply match_atoms_sound in Hm. eapply splits_needs, Hm.
Qed.

(** Without a match the substitution copies the text. *)
Lemma sub_go_no_match r t : forall s prev,
  (forall p k, attempt r p (drop k s) = None) -> sub_go r t prev O s = s.
Proof.
  induction s as [|c s IH]; intros prev Hno; [reflexivity|].
  rewrite sub_go_step. pose proof (Hno prev O) as H0. rewrite drop_0 in H0.
  rewrite H0. f_equal.
  apply IH. intros p k. exact (Hno p (S k)).
Qed.

(** A pattern with a class that must occur does not change a text that has
    no character of that class. *)
Lemma re_sub_absent r t a s :
  a ∈ re_atoms r -> (1 <= a_min a)%nat ->
  Forall (fun x => a_cls a x = false) s ->
  forall prev, sub_go r t prev O s = s.
Proof.
  intros Ha Hmin Hall prev. apply sub_go_no_match. intros p k.
  destruct (attempt r p (drop k s)) as [ls|] eqn:Hm; [|reflexivity].
  destruct (attempt_needs _ _ _ _ _ Hm Ha Hmin) as (x & Hx & Hc).
  rewrite Forall_forall in Hall.
  assert (Hin : x ∈ s).
  { rewrite <- (take_drop k s). apply elem_of_app. right. exact Hx. }
  rewrite (Hall x Hin) in Hc. discriminate.
Qed.

Lemma no_newline_Forall (s : str) :
  NL ∉ s -> Forall (fun x => chr NL x = false) s.
Proof.
  intros Hn. apply Forall_forall. intros x Hx. unfold chr.
  apply Z.eqb_neq. intros ->. exact (Hn Hx).
Qed.

Ltac absent_newline a :=
  unfold re_sub;
  apply (fun Ha Hm Hall => re_sub_absent _ _ a _ Ha Hm Hall None);
  [ cbn [re_atoms]; set_solver
  | cbn [a_min one plus]; lia
  | apply no_newline_Forall; assumption ].

Section NewlineRepairs.
Context `{Unicode}.

(** X2. The three repairs of line breaks act at newlines only: a text without
    a newline comes back unchanged from [strip_bpmf_adjacent_newlines],
    from [replace_arrow_notes] and from [fix_inline_markers_and_quotes]. *)
Theorem newline_repairs_need_newline s :
  NL ∉ s ->
  strip_bpmf_adjacent_newlines s = s
  /\ replace_arrow_notes s = s
  /\ fix_inline_markers_and_quotes s = s.
Proof.
  intros Hn. split; [|split].
  - unfold strip_bpmf_adjacent_newlines. destruct (is_empty s); [reflexivity|].
    cbv zeta.
    assert (E : re_sub (Regex NoBehind
                  [one BPMF; star isspace; plus (chr NL); star isspace] NoAhead)
                  [TGrp 0] s = s) by absent_newline (plus (chr NL)).
    rewrite E. absent_newline (plus (chr NL)).
  - unfold replace_arrow_notes. destruct (is_empty s); [reflexivity|].
    absent_newline (one (chr NL)).
  - unfold fix_inline_markers_and_quotes. destruct (is_empty s); [reflexivity|].
    cbv zeta.
    assert (E1 : re_sub (Regex NoBehind
                   [one (chr NL); star isspace; one marker; star isspace]
                   NoAhead) [TGrp 2] s = s) by absent_newline (one (chr NL)).
    rewrite E1.
    assert (E2 : re_sub (Regex NoBehind
                   [one marker; star isspace; one (chr NL); star isspace;
                    one opening] NoAhead) [TGrp 0; TGrp 4] s = s)
      by absent_newline (one (chr NL)).
    rewrite E2.
    assert (E3 : re_sub (Regex NoBehind
                   [one opening; star isspace; one (chr NL); star isspace]
                   NoAhead) [TGrp 0] s = s) by absent_newline (one (chr NL)).
    rewrite E3. absent_newline (one (chr NL)).
Qed.
End NewlineRepairs.

Lemma newline_repairs_need_newline_witness :
  (NL ∉ u "一 ㄧ 1〉「a") /\
  @strip_bpmf_adjacent_newlines (u "一 ㄧ 1〉「a") = u "一 ㄧ 1〉「a"
  /\ @replace_arrow_notes basic_unicode (u "一 ㄧ 1〉「a") = u "一 ㄧ 1〉「a"
  /\ fix_inline_markers_and_quotes (u "一 ㄧ 1〉「a") = u "一 ㄧ 1〉「a".
Proof.
  assert (Hn : NL ∉ u "一 ㄧ 1〉「a").
  { vm_compute. intros Hin. repeat (apply elem_of_cons in Hin as [Hin|Hin]; [discriminate Hin|]).
    inversion Hin. }
  split; [exact Hn|].
  apply (@newline_repairs_need_newline basic_unicode _ Hn).
Defined.

(** ** [rm_blanklines] *)

Lemma squash_last cls y : forall s b e,
  last s = Some e -> cls e = false -> last (squash cls y b s) = Some e.
Proof.
  induction s as [|c s IH]; intros b e Hl He; [discriminate|].
  destruct s as [|c' s'].
  - injection Hl as ->. cbn. rewrite He. reflexivity.
  - change (last (c :: c' :: s')) with (last (c' :: s')) in Hl.
    remember (c' :: s') as t eqn:Et.
    assert (Hne : forall b', squash cls y b' t <> []).
    { intros b' E. specialize (IH b' e Hl He). rewrite E in IH. discriminate. }
    cbn [squash]. destruct (cls c).
    + destruct b; [apply IH; assumption|].
      specialize (IH true e Hl He). specialize (Hne true).
      destruct (squash cls y true t); [congruence|exact IH].
    + specialize (IH false e Hl He). specialize (Hne false).
      destruct (squash cls y false t); [congruence|exact IH].
Qed.

Lemma squash_stripped y s :
  isspace y = true -> stripped s -> stripped (squash (chr y) y false s).
Proof.
  intros Hy Hs. destruct s as [|c s]; [exact I|].
  destruct Hs as (Hc & e & Hl & He).
  assert (Hcy : chr y c = false).
  { unfold chr. apply Z.eqb_neq. intros ->. congruence. }
  assert (Hey : chr y e = false).
  { unfold chr. apply Z.eqb_neq. intros ->. congruence. }
  pose proof (squash_last (chr y) y (c :: s) false e Hl Hey) as Hlast.
  cbn [squash] in *. rewrite Hcy in *. split; [exact Hc|eauto].
Qed.

Lemma squash_delete y : forall s b,
  filter (fun c => c <> y) (squash (chr y) y b s) = filter (fun c => c <> y) s.
Proof.
  induction s as [|c s IH]; intros b; [reflexivity|].
  cbn [squash]. unfold chr at 1. destruct (c =? y) eqn:E.
  - apply Z.eqb_eq in E as ->. rewrite (filter_cons_False _ y s) by (intros Hn; apply Hn; reflexivity).
    destruct b; [apply IH|].
    rewrite filter_cons_False by (intros Hn; apply Hn; reflexivity). apply IH.
  - apply Z.eqb_neq in E. rewrite !filter_cons_True by exact E. f_equal. apply IH.
Qed.

Lemma rm_blanklines_squash s :
  rm_blanklines s = squash (chr NL) NL false (strip s).
Proof.
  unfold rm_blanklines. destruct s as [|c s]; [reflexivity|].
  cbn [is_empty]. apply re_sub_two.
Qed.

Lemma stripped_strip s : stripped (strip s).
Proof. apply strip_by_ends. Qed.

Lemma rm_blanklines_stripped s : stripped (rm_blanklines s).
Proof.
  rewrite rm_blanklines_squash. apply squash_stripped; [reflexivity|].
  apply stripped_strip.
Qed.

Lemma rm_blanklines_no_pair s :
  no_pair (fun a b => (a =? NL) && (b =? NL)) (rm_blanklines s).
Proof.
  rewrite rm_blanklines_squash.
  apply (squash_no_pair (chr NL) NL (strip s) eq_refl).
Qed.

(** X1. [rm_blanklines] returns a text without an empty line and without white
    space at either end, takes nothing but newlines out of the stripped
    text, and changes nothing when it is applied again. *)
Theorem rm_blanklines_normal_form s :
  no_pair (fun a b => (a =? NL) && (b =? NL)) (rm_blanklines s)
  /\ stripped (rm_blanklines s)
  /\ delete_newlines (rm_blanklines s) = delete_newlines (strip s)
  /\ rm_blanklines (rm_blanklines s) = rm_blanklines s.
Proof.
  split; [apply rm_blanklines_no_pair|].
  split; [apply rm_blanklines_stripped|].
  split.
  - rewrite rm_blanklines_squash. apply squash_delete.
  - pose proof (rm_blanklines_stripped s) as Hs.
    pose proof (rm_blanklines_no_pair s) as Hp.
    set (t := rm_blanklines s) in *.
    rewrite (rm_blanklines_squash t). unfold strip.
    rewrite (strip_by_fixed isspace t Hs).
    apply squash_fixed.
    + apply Forall_forall. intros c _ Hc. apply Z.eqb_eq in Hc. exact Hc.
    + exact Hp.
Qed.

(** ** [cn_index] *)

Lemma CN_NUM_dom n : is_Some (CN_NUM !! n) <-> 1 <= n <= 10.
Proof.
  split.
  - intros [x Hx]. destruct (decide (1 <= n <= 10)) as [Hr|Hr]; [exact Hr|].
    exfalso. unfold CN_NUM in Hx.
    apply elem_of_list_to_map_2 in Hx.
    repeat (apply elem_of_cons in Hx as [Hx|Hx]; [injection Hx as -> _; lia|]).
    inversion Hx.
  - intros Hr.
    assert (Hn : n = 1 \/ n = 2 \/ n = 3 \/ n = 4 \/ n = 5 \/ n = 6 \/ n = 7
                 \/ n = 8 \/ n = 9 \/ n = 10) by lia.
    repeat (destruct Hn as [->|Hn]; [vm_compute; eauto|]). subst n.
    vm_compute. eauto.
Qed.

Lemma cn_index_dom n : is_Some (cn_index n) <-> 1 <= n <= 109.
Proof.
  unfold cn_index. destruct (n <=? 10) eqn:E1.
  { rewrite CN_NUM_dom. lia. }
  destruct (n <? 20) eqn:E2.
  { split.
    - intros [x Hx]. lia.
    - intros _. destruct (proj2 (CN_NUM_dom (n - 10)) ltac:(lia)) as [x Hx].
      rewrite Hx. cbn. eauto. }
  cbv zeta. split.
  - intros [x Hx].
    destruct (CN_NUM !! (n `div` 10)) as [a|] eqn:Ea; [|discriminate].
    assert (Hd : 1 <= n `div` 10 <= 10) by (apply CN_NUM_dom; eauto).
    pose proof (Z.div_mod n 10 ltac:(lia)).
    pose proof (Z.mod_pos_bound n 10 ltac:(lia)). lia.
  - intros Hr.
    pose proof (Z.div_mod n 10 ltac:(lia)).
    pose proof (Z.mod_pos_bound n 10 ltac:(lia)).
    destruct (proj2 (CN_NUM_dom (n `div` 10)) ltac:(lia)) as [a Ha].
    rewrite Ha. destruct (n `mod` 10 =? 0) eqn:Eb; [cbn; eauto|].
    destruct (proj2 (CN_NUM_dom (n `mod` 10)) ltac:(lia)) as [b Hb].
    rewrite Hb. cbn. eauto.
Qed.

Lemma numerals_lookup n :
  1 <= n <= 109 -> numerals !! Z.to_nat (n - 1) = Some (cn_index n).
Proof.
  intros Hr. unfold numerals. rewrite list_lookup_fmap.
  rewrite lookup_seq_lt by lia. cbn. do 2 f_equal. lia.
Qed.

Lemma numerals_NoDup : NoDup numerals.
Proof. apply (bool_decide_unpack _). vm_compute. reflexivity. Qed.

(** X4. [cn_index] has a numeral for the numbers from 1 to 109 and raises
    [KeyError] for every other, and different numbers have different
    numerals. *)
Theorem cn_index_numerals n m :
  (is_Some (cn_index n) <-> 1 <= n <= 109)
  /\ (cn_index n = None <-> n <= 0 \/ 110 <= n)
  /\ (is_Some (cn_index n) -> cn_index n = cn_index m -> n = m).
Proof.
  split; [apply cn_index_dom|]. split.
  - rewrite eq_None_not_Some, cn_index_dom. lia.
  - intros Hn E.
    assert (Hm : is_Some (cn_index m)) by (rewrite <- E; exact Hn).
    apply cn_index_dom in Hn, Hm.
    pose proof (numerals_lookup n Hn) as Ln.
    pose proof (numerals_lookup m Hm) as Lm. rewrite <- E in Lm.
    pose proof (NoDup_lookup _ _ _ _ numerals_NoDup Ln Lm). lia.
Qed.

(** ** Invariants of the crawl loop *)

Section LoopInvariants.
Context `{Unicode} `{Network} `{Html} `{Os}.

(** What a call of [write_item] does to the corpus file: one more line if
    it returns, nothing if it raises. *)
Lemma write_item_corpus out data d :
  let jl := path_join out (lit "moe_idioms.jsonl") in
  let d' := snd (write_item out data d) in
  match fst (write_item out data d) with
  | Return _ => read_file jl d' = read_file jl d ++ dumps data ++ [NL]
  | Raise _ => read_file jl d' = read_file jl d
  end.
Proof.
  cbv zeta. unfold write_item.
  destruct (match dict_get "title" data with
            | Some (VStr s) => Some s
            | Some (VList _) => None
            | None => Some []
            end) as [title|]; [|reflexivity].
  destruct (item "id" data) as [id|]; [|reflexivity].
  set (jl := path_join out (lit "moe_idioms.jsonl")).
  set (js := path_join _ ((id ++ _) ++ lit ".json")).
  set (tx := path_join _ ((id ++ _) ++ lit ".txt")).
  assert (Hjl : last jl = Some 0x6C).
  { unfold jl. rewrite last_path_join by discriminate. reflexivity. }
  assert (Hjs : js <> jl).
  { intros E. rewrite <- E in Hjl. unfold js in Hjl.
    rewrite last_path_join in Hjl by (intros E'; apply app_eq_nil in E' as [_ E']; discriminate).
    rewrite last_app in Hjl. discriminate Hjl. }
  assert (Htx : tx <> jl).
  { intros E. rewrite <- E in Hjl. unfold tx in Hjl.
    rewrite last_path_join in Hjl by (intros E'; apply app_eq_nil in E' as [_ E']; discriminate).
    rewrite last_app in Hjl. discriminate Hjl. }
  unfold write_file, append_file.
  destruct (can_open _ js); [|reflexivity].
  destruct (item "fulltext" data) as [fulltext|].
  - destruct (can_open _ tx).
    2:{ cbn [fst snd]. unfold read_file. cbn [files].
        rewrite (lookup_insert_ne _ js jl) by exact Hjs. reflexivity. }
    destruct (can_open _ jl); cbn [fst snd]; unfold read_file; cbn [files].
    + rewrite lookup_insert_eq. cbn [default].
      rewrite (lookup_insert_ne _ tx jl) by exact Htx.
      rewrite (lookup_insert_ne _ js jl) by exact Hjs. reflexivity.
    + rewrite (lookup_insert_ne _ tx jl) by exact Htx.
      rewrite (lookup_insert_ne _ js jl) by exact Hjs. reflexivity.
  - destruct (can_open _ tx); cbn [fst snd]; unfold read_file; cbn [files].
    + rewrite (lookup_insert_ne _ tx jl) by exact Htx.
      rewrite (lookup_insert_ne _ js jl) by exact Hjs. reflexivity.
    + rewrite (lookup_insert_ne _ js jl) by exact Hjs. reflexivity.
Qed.

Lemma line_count_app s t : line_count (s ++ t) = line_count s + line_count t.
Proof. unfold line_count. rewrite filter_app, length_app. lia. Qed.

Lemma line_count_none s : NL ∉ s -> line_count s = 0.
Proof.
  intros Hn. unfold line_count.
  assert (E : filter (fun c => c = NL) s = []).
  { induction s as [|c s IH]; [reflexivity|].
    rewrite filter_cons_False by (intros ->; apply Hn; left).
    apply IH. intros Hin. apply Hn. right. exact Hin. }
  rewrite E. reflexivity.
Qed.

Lemma iteration_inv a lines st :
  loop_inv a lines st -> loop_inv a lines (snd (iteration a st)).
Proof.
  intros (Hsum & Hmiss & Hok & Herr & Hlines).
  unfold iteration. rewrite parse_idiom_eq.
  destruct (fst (parse_idiom (py_str (idx st)) (sess st))) as [data|e].
  - pose proof (write_item_corpus (out_dir a) data (disk st)) as Hw.
    cbv zeta in Hw.
    destruct (write_item (out_dir a) data (disk st)) as [[paths|e] disk'];
      cbn [fst snd] in Hw; unfold loop_inv, advance, jsonl_path;
      cbn [snd ok_cnt miss_cnt err_cnt sess disk consecutive_miss];
      rewrite length_app; cbn [length]; rewrite Hw.
    + rewrite !line_count_app.
      rewrite (line_count_none (dumps data)) by apply dumps_no_newline.
      change (line_count [NL]) with 1. unfold jsonl_path in Hlines. lia.
    + unfold jsonl_path in Hlines. lia.
  - destruct e;
      try (unfold loop_inv, advance;
           cbn [snd ok_cnt miss_cnt err_cnt sess disk consecutive_miss];
           rewrite length_app; cbn [length]; lia).
    cbv zeta. cbn [consecutive_miss].
    destruct (_ >=? _); unfold loop_inv, advance;
      cbn [snd ok_cnt miss_cnt err_cnt sess disk consecutive_miss];
      rewrite length_app; cbn [length]; lia.
Qed.

Lemma run_inv a lines : forall n st,
  loop_inv a lines st -> loop_inv a lines (snd (run a n st)).
Proof.
  induction n as [|n IH]; intros st Hinv; [exact Hinv|].
  cbn [run]. pose proof (iteration_inv a lines st Hinv) as Hstep.
  destruct (iteration a st) as [[|] st']; cbn [snd] in *.
  - apply IH. exact Hstep.
  - exact Hstep.
Qed.

(** X18. Every pass makes one request and adds one to exactly one of the three
    counters; the miss streak is never negative and never exceeds the
    number of misses. *)
Theorem counters_partition_passes a d n :
  let st := snd (main a n d) in
  ok_cnt st + miss_cnt st + err_cnt st = Z.of_nat (length (sess st))
  /\ 0 <= consecutive_miss st <= miss_cnt st
  /\ 0 <= ok_cnt st /\ 0 <= err_cnt st.
Proof.
  cbv zeta. unfold main.
  destruct (run_inv a (line_count (read_file (jsonl_path a) d)) n (initial a d))
    as (Ha & Hb & Hc & Hd & _).
  { unfold loop_inv, initial. cbn. unfold read_file, makedirs. cbn. lia. }
  auto.
Qed.

(** X19. The corpus file grows by exactly one line for each ID that succeeded:
    after any number of passes it has [ok_cnt] lines more than before the
    run. *)
Theorem corpus_has_a_line_per_success a d n :
  let st := snd (main a n d) in
  line_count (read_file (jsonl_path a) (disk st))
  = line_count (read_file (jsonl_path a) d) + ok_cnt st.
Proof.
  cbv zeta. unfold main.
  destruct (run_inv a (line_count (read_file (jsonl_path a) d)) n (initial a d))
    as (_ & _ & _ & _ & He).
  { unfold loop_inv, initial. cbn. unfold read_file, makedirs. cbn. lia. }
  exact He.
Qed.

(** X20. A request that fails is an error, not a miss: if every request fails,
    the loop never stops, whatever [max_misses] is; each pass counts one
    error, resets the streak, writes nothing and goes on to the next ID. *)
Theorem failed_requests_never_stop a d n :
  (forall s url, http_get s url = Failed) ->
  main a n d
  = (Running,
     LoopState (nth_id a n) 0 0 0 (Z.of_nat n) (requests a n)
       (makedirs (out_dir a) d) n).
Proof.
  intros Hfail. unfold main.
  assert (Hstep : forall k,
    iteration a (LoopState (nth_id a k) 0 0 0 (Z.of_nat k) (requests a k)
                   (makedirs (out_dir a) d) k)
    = (Running, LoopState (nth_id a (S k)) 0 0 0 (Z.of_nat (S k))
                  (requests a (S k)) (makedirs (out_dir a) d) (S k))).
  { intros k. unfold iteration, parse_idiom, bind, get_soup.
    cbn [idx sess]. fold (request_url (py_str (nth_id a k))).
    rewrite Hfail. unfold advance.
    cbn [idx consecutive_miss ok_cnt miss_cnt err_cnt sess disk sleeps].
    rewrite requests_S, nth_id_S. do 2 f_equal. rewrite Nat2Z.inj_succ. reflexivity. }
  assert (Hgo : forall m k,
    run a m (LoopState (nth_id a k) 0 0 0 (Z.of_nat k) (requests a k)
               (makedirs (out_dir a) d) k)
    = (Running, LoopState (nth_id a (m + k)) 0 0 0 (Z.of_nat (m + k))
                  (requests a (m + k)) (makedirs (out_dir a) d) (m + k)%nat)).
  { induction m as [|m IH]; intros k; [reflexivity|].
    cbn [run]. rewrite Hstep, IH.
    replace (m + S k)%nat with (S m + k)%nat by lia. reflexivity. }
  specialize (Hgo n O). rewrite Nat.add_0_r in Hgo. rewrite <- Hgo.
  unfold initial, nth_id. f_equal. f_equal. cbn. lia.
Qed.
End LoopInvariants.

Lemma failed_requests_never_stop_witness :
  (forall (s : session) (url : URL), @http_get (always Failed) s url = Failed)
  /\ fst (@main basic_unicode (always Failed) (sample_html Blank) name_limit
            (Args 1 1 (lit "out") 1) 5 (Fs ∅ ∅)) = Running.
Proof.
  assert (Hf : forall (s : session) (url : URL),
             @http_get (always Failed) s url = Failed) by reflexivity.
  split; [exact Hf|].
  rewrite (@failed_requests_never_stop basic_unicode (always Failed)
             (sample_html Blank) name_limit (Args 1 1 (lit "out") 1) (Fs ∅ ∅) 5 Hf).
  reflexivity.
Defined.

(** ** What the substitutions keep *)

Lemma fold_left_inv {A B} (P : A -> Prop) (f : A -> B -> A) l : forall a,
  P a -> (forall a x, P a -> x ∈ l -> P (f a x)) -> P (fold_left f l a).
Proof.
  induction l as [|x l IH]; intros a Ha Hf; [exact Ha|].
  cbn [fold_left]. apply IH.
  - apply Hf; [exact Ha|left].
  - intros a' x' Ha' Hx'. apply Hf; [exact Ha'|right; exact Hx'].
Qed.

Lemma join_Forall (P : Z -> Prop) sep parts :
  Forall P sep -> Forall (Forall P) parts -> Forall P (join sep parts).
Proof.
  intros Hsep Hparts. induction Hparts as [|p parts Hp Hps IH]; [constructor|].
  destruct parts as [|q parts]; [exact Hp|].
  change (join sep (p :: q :: parts)) with (p ++ sep ++ join sep (q :: parts)).
  rewrite !Forall_app. auto.
Qed.

Lemma expand_Forall (P : Z -> Prop) t ls s :
  Forall (piece_ok P) t -> Forall P s -> Forall P (expand t ls s).
Proof.
  intros Ht Hs. induction Ht as [|p t Hp Ht IH]; [constructor|].
  destruct p as [l|i|]; cbn [expand]; apply Forall_app; (split; [|exact IH]).
  - exact Hp.
  - unfold group_text. apply Forall_take, Forall_drop, Hs.
  - apply Forall_take, Hs.
Qed.

(** A substitution puts into the text nothing but the literals of its
    template. *)
Lemma sub_go_Forall_gen (P : Z -> Prop) r t :
  Forall (piece_ok P) t ->
  forall s prev k, Forall P s -> Forall P (sub_go r t prev k s).
Proof.
  intros Ht. induction s as [|c s IH]; intros prev k Hs.
  - rewrite sub_go_nil. constructor.
  - pose proof Hs as Hcs. apply Forall_cons in Hs as [Hc Hs].
    cbn [sub_go]. destruct k as [|k]; [|apply IH, Hs].
    destruct (attempt r prev (c :: s)) as [ls|].
    + destruct (total ls).
      * constructor; [exact Hc|apply IH, Hs].
      * apply Forall_app. split; [apply expand_Forall; assumption|apply IH, Hs].
    + constructor; [exact Hc|apply IH, Hs].
Qed.

Lemma re_sub_Forall (P : Z -> Prop) r t s :
  Forall (piece_ok P) t -> Forall P s -> Forall P (re_sub r t s).
Proof. intros Ht Hs. apply sub_go_Forall_gen; assumption. Qed.

Lemma not_elem_Forall (x : Z) (s : str) : x ∉ s <-> Forall (fun c => c <> x) s.
Proof.
  rewrite Forall_forall. split.
  - intros Hn c Hc ->. exact (Hn Hc).
  - intros Hall Hx. exact (Hall x Hx eq_refl).
Qed.

Lemma strip_newlines_no_newline s : NL ∉ strip_newlines s.
Proof.
  unfold strip_newlines. destruct (is_empty s) eqn:E.
  - destruct s; [apply not_elem_of_nil|discriminate].
  - rewrite replace_char_delete. unfold delete_newlines.
    intros Hin. apply list_elem_of_filter in Hin as [Hne _]. apply Hne. reflexivity.
Qed.

Lemma condense_zhuyin_Forall (P : Z -> Prop) s :
  Forall P s -> Forall P (condense_zhuyin s).
Proof.
  intros Hs. unfold condense_zhuyin. destruct (is_empty s); [exact Hs|].
  apply re_sub_Forall; [constructor|exact Hs].
Qed.

Lemma strip_bpmf_Forall (P : Z -> Prop) s :
  Forall P s -> Forall P (strip_bpmf_adjacent_newlines s).
Proof.
  intros Hs. unfold strip_bpmf_adjacent_newlines.
  destruct (is_empty s); [exact Hs|]. cbv zeta.
  apply re_sub_Forall; [repeat constructor|].
  apply re_sub_Forall; [repeat constructor|exact Hs].
Qed.

Lemma squash_chr_Forall (P : Z -> Prop) y : forall s b,
  Forall P s -> Forall P (squash (chr y) y b s).
Proof.
  induction s as [|c s IH]; intros b Hs; [constructor|].
  apply Forall_cons in Hs as [Hc Hs]. cbn [squash]. unfold chr at 1.
  destruct (Z.eqb_spec c y) as [->|Hne].
  - destruct b; [apply IH, Hs|]. constructor; [exact Hc|apply IH, Hs].
  - constructor; [exact Hc|apply IH, Hs].
Qed.

Lemma rm_blanklines_Forall (P : Z -> Prop) s :
  Forall P s -> Forall P (rm_blanklines s).
Proof.
  intros Hs. rewrite rm_blanklines_squash.
  apply squash_chr_Forall, strip_by_Forall, Hs.
Qed.

Lemma norm_space_no_newline s : NL ∉ s -> NL ∉ norm_space s.
Proof.
  intros Hn. unfold norm_space. destruct (is_empty s); [exact Hn|]. cbv zeta.
  set (a := re_sub (Regex NoBehind [plus hspace] NoAhead) [TLit [SP]] s).
  assert (Ha : NL ∉ a).
  { apply not_elem_Forall. apply re_sub_Forall.
    - repeat constructor. discriminate.
    - apply not_elem_Forall, Hn. }
  assert (E : re_sub (Regex NoBehind [plus isspace; one (chr NL)] NoAhead)
                [TLit [NL]] a = a) by absent_newline (one (chr NL)).
  rewrite E. apply not_elem_Forall. apply strip_by_Forall.
  apply not_elem_Forall, Ha.
Qed.

(** ** The decimal numerals of [str(n)] *)

Lemma pretty_N_go_digits x : forall s,
  Forall (fun c => ascii_digit c = true) (lit s) ->
  Forall (fun c => ascii_digit c = true) (lit (pretty_N_go x s)).
Proof.
  induction (N.lt_wf_0 x) as [x _ IH]. intros s Hs.
  assert (Hx : (x = 0 \/ 0 < x)%N) by lia. destruct Hx as [->|Hx].
  - rewrite pretty_N_go_0. exact Hs.
  - rewrite pretty_N_go_step by exact Hx. apply IH.
    + apply N.div_lt; lia.
    + cbn [lit]. constructor; [|exact Hs].
      unfold pretty_N_char. repeat case_match; reflexivity.
Qed.

Lemma pretty_N_digits (x : N) :
  Forall (fun c => ascii_digit c = true) (lit (pretty x)).
Proof.
  unfold pretty, pretty_N. destruct (decide (x = 0%N)).
  - repeat constructor.
  - apply pretty_N_go_digits. constructor.
Qed.

Lemma py_str_chars n :
  Forall (fun c => ascii_digit c = true \/ c = HYPHEN) (py_str n).
Proof.
  unfold py_str, pretty, pretty_Z. destruct n as [|p|p].
  - repeat constructor.
  - eapply Forall_impl; [apply (pretty_N_digits (Npos p))|]. auto.
  - cbn [lit String.app]. constructor; [right; reflexivity|].
    eapply Forall_impl; [apply (pretty_N_digits (Npos p))|]. auto.
Qed.

Lemma py_str_Forall (P : Z -> Prop) n :
  (forall c, ascii_digit c = true -> P c) -> P HYPHEN -> Forall P (py_str n).
Proof.
  intros Hd Hh. eapply Forall_impl; [apply py_str_chars|].
  intros c [Hc| ->]; auto.
Qed.

Lemma py_str_nonempty n : py_str n <> [].
Proof.
  intros E. assert (E0 : py_str n = lit "") by exact E.
  apply lit_inj in E0. unfold pretty, pretty_Z in E0. destruct n as [|p|p].
  - discriminate.
  - unfold pretty, pretty_positive, pretty, pretty_N in E0.
    destruct (decide (N.pos p = 0%N)); [discriminate|].
    pose proof (pretty_N_go_ne_dash (N.pos p) "" "") as Hd.
    assert (Hlen : forall x s, (String.length s <= String.length (pretty_N_go x s))%nat).
    { intros x. induction (N.lt_wf_0 x) as [x _ IH]. intros s.
      assert (Hx : (x = 0 \/ 0 < x)%N) by lia. destruct Hx as [->|Hx].
      - rewrite pretty_N_go_0. lia.
      - rewrite pretty_N_go_step by exact Hx.
        etransitivity; [|apply IH; apply N.div_lt; lia]. cbn. lia. }
    rewrite pretty_N_go_step in E0 by lia.
    specialize (Hlen (N.pos p `div` 10)%N
                  (String (pretty_N_char (N.pos p `mod` 10)) "")).
    rewrite E0 in Hlen. cbn in Hlen. lia.
  - discriminate.
Qed.

(** ** [splitlines] *)

Lemma splitlines_go_lines : forall s after_cr cur,
  Forall (fun c => linebreak c = false) cur ->
  Forall (Forall (fun c => linebreak c = false)) (splitlines_go after_cr cur s).
Proof.
  induction s as [|c s IH]; intros after_cr cur Hcur.
  - cbn. destruct cur; [constructor|]. constructor; [|constructor].
    apply Forall_rev, Hcur.
  - cbn [splitlines_go]. destruct (after_cr && (c =? NL)); [apply IH, Hcur|].
    destruct (linebreak c) eqn:Ec.
    + constructor; [apply Forall_rev, Hcur|]. apply IH. constructor.
    + apply IH. constructor; assumption.
Qed.

Lemma splitlines_lines s :
  Forall (Forall (fun c => linebreak c = false)) (splitlines s).
Proof. apply splitlines_go_lines. constructor. Qed.

(** ** Lines and their text *)

Lemma linebreak_is_space c : linebreak c = true -> isspace c = true.
Proof. unfold linebreak, isspace, in_range. lia. Qed.

Lemma visible_app s t : visible (s ++ t) = visible s ++ visible t.
Proof. apply filter_app. Qed.

Lemma visible_space c s : isspace c = true -> visible (c :: s) = visible s.
Proof. intros Hc. unfold visible. rewrite filter_cons_False by congruence. reflexivity. Qed.

Lemma visible_blank s : Forall (fun c => isspace c = true) s -> visible s = [].
Proof.
  induction 1 as [|c s Hc _ IH]; [reflexivity|].
  rewrite visible_space by exact Hc. exact IH.
Qed.

Lemma lstrip_nil p s : lstrip_by p s = [] -> Forall (fun c => p c = true) s.
Proof.
  induction s as [|c s IH]; [constructor|]. cbn [lstrip_by].
  destruct (p c) eqn:E; [|discriminate]. intros Hs. constructor; auto.
Qed.

Lemma lstrip_dropped p s :
  exists w, s = w ++ lstrip_by p s /\ Forall (fun c => p c = true) w.
Proof.
  induction s as [|c s (w & Hw & Hall)]; [exists []; split; [reflexivity|constructor]|].
  cbn [lstrip_by]. destruct (p c) eqn:E.
  - exists (c :: w). split; [cbn; congruence|constructor; assumption].
  - exists []. split; [reflexivity|constructor].
Qed.

Lemma strip_by_nil p s : strip_by p s = [] -> Forall (fun c => p c = true) s.
Proof.
  unfold strip_by, rstrip_by. intros E.
  assert (E' : lstrip_by p (rev (lstrip_by p s)) = []).
  { rewrite <- (rev_involutive (lstrip_by p (rev (lstrip_by p s)))), E. reflexivity. }
  apply lstrip_nil in E'. apply Forall_rev in E'. rewrite rev_involutive in E'.
  destruct (lstrip_dropped p s) as (w & Hw & Hall). rewrite Hw.
  apply Forall_app. split; assumption.
Qed.

Lemma blank_visible s : nonblank s = false -> visible s = [].
Proof.
  unfold nonblank. intros Hb. apply negb_false_iff in Hb.
  apply visible_blank, strip_by_nil. unfold strip in Hb.
  destruct (strip_by isspace s); [reflexivity|discriminate].
Qed.

Lemma visible_concat_nonblank lines :
  visible (concat (filter (fun ln => nonblank ln = true) lines))
  = visible (concat lines).
Proof.
  induction lines as [|l lines IH]; [reflexivity|].
  rewrite filter_cons. destruct (nonblank l) eqn:E.
  - rewrite decide_True by reflexivity. cbn [concat].
    rewrite !visible_app, IH. reflexivity.
  - rewrite decide_False by discriminate. cbn [concat].
    rewrite visible_app, (blank_visible l E), IH. reflexivity.
Qed.

Lemma visible_join sep parts :
  Forall (fun c => isspace c = true) sep ->
  visible (join sep parts) = visible (concat parts).
Proof.
  intros Hsep. induction parts as [|p parts IH]; [reflexivity|].
  destruct parts as [|q parts].
  - cbn. rewrite app_nil_r. reflexivity.
  - change (join sep (p :: q :: parts)) with (p ++ sep ++ join sep (q :: parts)).
    change (concat (p :: q :: parts)) with (p ++ concat (q :: parts)).
    rewrite !visible_app, (visible_blank sep Hsep), IH. reflexivity.
Qed.

Lemma visible_splitlines_go : forall s after_cr cur,
  visible (concat (splitlines_go after_cr cur s)) = visible (rev cur ++ s).
Proof.
  induction s as [|c s IH]; intros after_cr cur.
  - cbn [splitlines_go]. destruct cur as [|x cur]; [reflexivity|].
    cbn [concat]. rewrite !app_nil_r. reflexivity.
  - cbn [splitlines_go]. destruct (after_cr && (c =? NL)) eqn:E.
    + apply andb_prop in E as [_ E]. apply Z.eqb_eq in E as ->.
      rewrite IH, !visible_app, (visible_space NL s) by reflexivity. reflexivity.
    + destruct (linebreak c) eqn:Ec.
      * cbn [concat]. rewrite visible_app, IH. cbn [rev app].
        rewrite !visible_app, (visible_space c s) by (apply linebreak_is_space, Ec).
        reflexivity.
      * rewrite IH. cbn [rev]. rewrite <- app_assoc. reflexivity.
Qed.

Lemma visible_splitlines s : visible (concat (splitlines s)) = visible s.
Proof. apply visible_splitlines_go. Qed.

(** ** [split_source_title_body] *)

(** X5. The title that [split_source_title_body] returns is one line, and is
    blank only if the body is empty too; title and body together have the
    text of the source: only white space is lost. *)
Theorem split_source_title_body_keeps_text source_all :
  let title := fst (split_source_title_body source_all) in
  let body := snd (split_source_title_body source_all) in
  Forall (fun c => linebreak c = false) title
  /\ (nonblank title = false -> title = [] /\ body = [])
  /\ visible (title ++ body) = visible source_all.
Proof.
  cbv zeta. unfold split_source_title_body.
  destruct (is_empty source_all) eqn:E.
  { destruct source_all; [|discriminate]. cbn. repeat split; constructor. }
  pose proof (splitlines_lines source_all) as Hlines.
  pose proof (visible_concat_nonblank (splitlines source_all)) as Hvis.
  rewrite visible_splitlines in Hvis.
  assert (Hnb : Forall (fun ln => nonblank ln = true)
                  (filter (fun ln => nonblank ln = true) (splitlines source_all))).
  { apply Forall_forall. intros l Hl. apply list_elem_of_filter in Hl as [Hl _]. exact Hl. }
  assert (Hbr : Forall (Forall (fun c => linebreak c = false))
                  (filter (fun ln => nonblank ln = true) (splitlines source_all))).
  { apply Forall_forall. intros l Hl. apply list_elem_of_filter in Hl as [_ Hl].
    rewrite Forall_forall in Hlines. apply Hlines, Hl. }
  destruct (filter (fun ln => nonblank ln = true) (splitlines source_all))
    as [|title rest].
  { cbn [fst snd app] in *. repeat split; [constructor|exact Hvis]. }
  cbn [fst snd]. apply Forall_cons in Hnb as [Ht _].
  apply Forall_cons in Hbr as [Hb _].
  split; [exact Hb|]. split; [congruence|].
  rewrite visible_app, visible_join by (repeat constructor).
  rewrite <- visible_app. exact Hvis.
Qed.

(** ** [format_references_for_fulltext] *)

Lemma stripped_nil_or s : stripped s ->
  s = [] \/ exists c e, head s = Some c /\ last s = Some e
                        /\ isspace c = false /\ isspace e = false.
Proof.
  destruct s as [|c s]; [left; reflexivity|].
  intros (Hc & e & Hl & He). right. exists c, e. auto.
Qed.

Lemma stripped_ends s c e :
  head s = Some c -> last s = Some e -> isspace c = false -> isspace e = false ->
  stripped s.
Proof.
  destruct s as [|x s]; [discriminate|]. cbn [head]. intros [= ->] Hl Hc He.
  split; [exact Hc|eauto].
Qed.

Lemma last_app_cons (s t : str) x : last (s ++ x :: t) = last (x :: t).
Proof. rewrite last_app. destruct (last (x :: t)) eqn:E; [reflexivity|].
  apply last_None in E. discriminate. Qed.

(** Stripped parts joined by a separator that is not white space. *)
Lemma join_stripped sep parts :
  sep <> [] -> Forall (fun c => isspace c = false) sep ->
  Forall stripped parts -> stripped (join sep parts).
Proof.
  intros Hne Hsep Hparts.
  destruct sep as [|x sep]; [congruence|].
  assert (Hx : isspace x = false) by (apply Forall_cons in Hsep as [? _]; assumption).
  assert (Hlast : exists e, last (x :: sep) = Some e /\ isspace e = false).
  { destruct (last (x :: sep)) as [e|] eqn:E.
    - exists e. split; [reflexivity|]. rewrite Forall_forall in Hsep.
      apply Hsep. apply last_Some in E as [l' ->]. apply elem_of_app. right. left.
    - apply last_None in E. discriminate. }
  destruct Hlast as (ex & Hex & Hexs).
  induction Hparts as [|p parts Hp Hps IH]; [exact I|].
  destruct parts as [|q parts]; [exact Hp|].
  change (join (x :: sep) (p :: q :: parts))
    with (p ++ (x :: sep) ++ join (x :: sep) (q :: parts)).
  set (r := join (x :: sep) (q :: parts)) in *.
  assert (Hhead : exists c, head (p ++ (x :: sep) ++ r) = Some c /\ isspace c = false).
  { destruct (stripped_nil_or p Hp) as [->|(c & e & Hc & _ & Hcs & _)].
    - exists x. split; [reflexivity|exact Hx].
    - exists c. destruct p; [discriminate|]. split; [exact Hc|exact Hcs]. }
  assert (Htail : exists e, last (p ++ (x :: sep) ++ r) = Some e /\ isspace e = false).
  { destruct (stripped_nil_or r IH) as [->|(c & e & Hc & He & _ & Hes)].
    - exists ex. rewrite app_nil_r. cbn [app]. rewrite last_app_cons. auto.
    - exists e. destruct r as [|y r]; [discriminate|].
      rewrite app_assoc, last_app_cons. auto. }
  destruct Hhead as (c & Hc & Hcs). destruct Htail as (e & He & Hes).
  exact (stripped_ends _ c e Hc He Hcs Hes).
Qed.

Lemma reference_line_inv (P : Z -> Prop) acc line :
  Forall P line -> stripped line ->
  (Forall (fun l => Forall P l /\ stripped l) (fst acc) /\ Forall P (snd acc)) ->
  Forall (fun l => Forall P l /\ stripped l) (fst (reference_line acc line))
  /\ Forall P (snd (reference_line acc line)).
Proof.
  intros Hl Hs. destruct acc as [result_lines current_item].
  cbn [fst snd]. intros [Hres Hcur]. unfold reference_line.
  destruct (_ && _).
  - cbn [fst snd]. split; [|exact Hl].
    destruct (is_empty current_item); [exact Hres|].
    constructor; [|exact Hres]. split; [apply strip_by_Forall, Hcur|apply stripped_strip].
  - destruct (is_empty current_item); cbn [fst snd].
    + split; [|exact Hcur]. constructor; [split; assumption|exact Hres].
    + split; [exact Hres|]. apply Forall_app. split; assumption.
Qed.

(** X7. [format_references_for_fulltext] returns one line: the result has no
    line break and no white space at either end, and a blank input gives
    the empty string. *)
Theorem format_references_one_line ref_raw :
  Forall (fun c => linebreak c = false) (format_references_for_fulltext ref_raw)
  /\ stripped (format_references_for_fulltext ref_raw)
  /\ (Forall (fun c => isspace c = true) ref_raw ->
      format_references_for_fulltext ref_raw = []).
Proof.
  unfold format_references_for_fulltext.
  destruct (is_empty ref_raw) eqn:E.
  { split; [constructor|]. split; [exact I|reflexivity]. }
  cbv zeta.
  set (s := rm_blanklines (strip_bpmf_adjacent_newlines (condense_zhuyin ref_raw))).
  set (lines := map strip (filter (fun ln => nonblank ln = true) (splitlines s))).
  assert (Hlines : Forall (fun l => Forall (fun c => linebreak c = false) l
                                    /\ stripped l) lines).
  { unfold lines. apply Forall_forall. intros l Hl.
    apply list_elem_of_fmap in Hl as (l0 & -> & Hl0).
    apply list_elem_of_filter in Hl0 as [_ Hl0].
    pose proof (splitlines_lines s) as Hall. rewrite Forall_forall in Hall.
    split; [apply strip_by_Forall, Hall, Hl0|apply stripped_strip]. }
  assert (Hfold : Forall (fun l => Forall (fun c => linebreak c = false) l
                                   /\ stripped l)
                    (fst (fold_left reference_line lines ([], [])))
                  /\ Forall (fun c => linebreak c = false)
                       (snd (fold_left reference_line lines ([], [])))).
  { apply (fold_left_inv
             (fun acc => Forall (fun l => Forall (fun c => linebreak c = false) l
                                          /\ stripped l) (fst acc)
                         /\ Forall (fun c => linebreak c = false) (snd acc))).
    - split; constructor.
    - intros acc l Hacc Hl. rewrite Forall_forall in Hlines.
      destruct (Hlines l Hl) as [Hb Hs]. apply reference_line_inv; assumption. }
  destruct (fold_left reference_line lines ([], []))
    as [result_lines current_item] eqn:Ef.
  cbn [fst snd] in Hfold. destruct Hfold as [Hres Hcur].
  set (final := if is_empty current_item then result_lines
                else strip current_item :: result_lines).
  assert (Hfinal : Forall (fun l => Forall (fun c => linebreak c = false) l
                                    /\ stripped l) final).
  { unfold final. destruct (is_empty current_item); [exact Hres|].
    constructor; [|exact Hres].
    split; [apply strip_by_Forall, Hcur|apply stripped_strip]. }
  apply Forall_rev in Hfinal.
  split; [|split].
  - apply join_Forall; [repeat constructor|].
    eapply Forall_impl; [exact Hfinal|]. intros l [Hl _]. exact Hl.
  - apply join_stripped; [discriminate|repeat constructor|].
    eapply Forall_impl; [exact Hfinal|]. intros l [_ Hl]. exact Hl.
  - intros Hblank.
    assert (Hs : s = []).
    { unfold s. rewrite rm_blanklines_squash.
      unfold strip. rewrite strip_by_all; [reflexivity|].
      apply strip_bpmf_Forall, condense_zhuyin_Forall, Hblank. }
    unfold final. revert Ef. unfold lines. rewrite Hs. cbn.
    intros [= <- <-]. reflexivity.
Qed.

(** ** [enumerate_source_notes] *)

Lemma note_head_colon s : note_head s = true -> 0xFF1A ∈ s.
Proof.
  unfold note_head. intros Hh. apply bool_decide_eq_true in Hh as [ls Hls].
  destruct (attempt_needs _ _ _ _ (one (chr 0xFF1A)) Hls) as (x & Hx & Hc).
  - cbn [re_atoms]. set_solver.
  - cbn. lia.
  - cbn in Hc. apply Z.eqb_eq in Hc as ->. exact Hx.
Qed.

Lemma notes_go_no_head : forall s prev,
  0xFF1A ∉ s -> notes_go prev Between s = [].
Proof.
  induction s as [|c s IH]; intros prev Hn; [reflexivity|].
  cbn [notes_go]. destruct (note_head (c :: s)) eqn:Eh.
  - exfalso. apply Hn, note_head_colon, Eh.
  - rewrite andb_false_r. apply IH. intros Hin. apply Hn. right. exact Hin.
Qed.

Lemma enumerate_source_notes_no_newline notes_raw :
  NL ∉ enumerate_source_notes notes_raw.
Proof.
  unfold enumerate_source_notes. destruct (is_empty notes_raw) eqn:E.
  { apply not_elem_of_nil. }
  cbv zeta.
  apply not_elem_Forall, Forall_concat, Forall_forall. intros x Hx.
  apply elem_of_lookup_imap_1 in Hx as (i & y & -> & _).
  assert (Hitem : Forall (fun c => c <> NL) (replace_char NL [] (norm_space y))).
  { rewrite replace_char_delete. apply Forall_forall. intros c Hc.
    apply list_elem_of_filter in Hc as [Hc _]. exact Hc. }
  rewrite !Forall_app. split; [repeat constructor; discriminate|].
  split.
  { apply py_str_Forall; [|discriminate].
    intros c Hc ->. discriminate Hc. }
  split; [repeat constructor; discriminate|].
  destruct (re_search closed_note _); [exact Hitem|].
  apply Forall_app. split; [exact Hitem|repeat constructor; discriminate].
Qed.

(** X6. [enumerate_source_notes] returns one line, which is empty or begins
    with the number of the first note; notes without a head of CJK
    characters and a full-width colon are dropped, so that raw notes
    without such a colon give the empty string. *)
Theorem enumerate_source_notes_one_line notes_raw :
  (NL ∉ enumerate_source_notes notes_raw)
  /\ (0xFF1A ∉ notes_raw -> enumerate_source_notes notes_raw = [])
  /\ (enumerate_source_notes notes_raw = []
      \/ exists rest, enumerate_source_notes notes_raw = lit "[1]" ++ rest).
Proof.
  split; [apply enumerate_source_notes_no_newline|].
  unfold enumerate_source_notes. destruct (is_empty notes_raw) eqn:E.
  { split; [reflexivity|left; reflexivity]. }
  cbv zeta.
  set (txt := rm_blanklines (strip_bpmf_adjacent_newlines (condense_zhuyin notes_raw))).
  split.
  - intros Hn. unfold note_items. rewrite notes_go_no_head; [reflexivity|].
    unfold txt. apply not_elem_Forall.
    apply rm_blanklines_Forall, strip_bpmf_Forall, condense_zhuyin_Forall.
    apply not_elem_Forall, Hn.
  - destruct (note_items txt) as [|x l]; [left; reflexivity|]. right.
    cbn [imap concat]. eexists.
    change (py_str (Z.of_nat 1)) with (lit "1").
    rewrite <- !app_assoc. reflexivity.
Qed.

(** ** The cells of the usage and of the synonyms *)

Lemma norm_space_normalised s : normalised (norm_space s).
Proof. apply norm_space_shape. Qed.

Lemma normalised_nil : normalised [].
Proof. repeat split; constructor. Qed.

Lemma starts_with_app b p s :
  starts_with p s = true -> starts_with (b ++ p) (b ++ s) = true.
Proof.
  intros Hp. induction b as [|x b IH]; [exact Hp|].
  cbn. rewrite Z.eqb_refl. exact IH.
Qed.

Lemma dedupe_spec : forall l seen,
  NoDup (dedupe seen l)
  /\ Forall (fun x => (x ∉ seen) /\ (x ∈ l) /\ x <> []) (dedupe seen l).
Proof.
  induction l as [|x l IH]; intros seen; [split; constructor|].
  cbn [dedupe]. destruct (nonempty x && negb (bool_decide (x ∈ seen))) eqn:E.
  - apply andb_prop in E as [Hne Hnot].
    apply negb_true_iff, bool_decide_eq_false in Hnot.
    destruct (IH (x :: seen)) as [Hnd Hall]. split.
    + constructor; [|exact Hnd]. intros Hin. rewrite Forall_forall in Hall.
      destruct (Hall x Hin) as (Hx & _). apply Hx. left.
    + constructor.
      * split; [exact Hnot|]. split; [left|]. intros ->. discriminate Hne.
      * eapply Forall_impl; [exact Hall|]. cbn beta.
        intros y (Hy & Hin & Hnil). split; [|split; [right; exact Hin|exact Hnil]].
        intros Hs. apply Hy. right. exact Hs.
  - destruct (IH seen) as [Hnd Hall]. split; [exact Hnd|].
    eapply Forall_impl; [exact Hall|]. cbn beta.
    intros y (Hy & Hin & Hnil). split; [exact Hy|]. split; [right; exact Hin|exact Hnil].
Qed.

Lemma dedupe_Forall (P : str -> Prop) l :
  Forall P l -> Forall (fun x => P x /\ x <> []) (dedupe [] l).
Proof.
  intros Hl. destruct (dedupe_spec l []) as [_ Hall].
  eapply Forall_impl; [exact Hall|]. cbn beta. intros x (_ & Hin & Hne).
  rewrite Forall_forall in Hl. split; [apply Hl, Hin|exact Hne].
Qed.

Section Cells.
Context `{Html}.

Lemma clean_text_no_newline t : NL ∉ clean_text t.
Proof. apply strip_newlines_no_newline. Qed.

(** X8. The examples that [parse_usage_td] returns are single lines without
    white space at their ends or doubled spaces; meaning and category are
    normalised texts; without a cell all three are empty. *)
Theorem parse_usage_td_fields td :
  Forall (fun ex => (NL ∉ ex) /\ single_spaced ex /\ stripped ex)
    (usage_examples (parse_usage_td td))
  /\ normalised (usage_meaning (parse_usage_td td))
  /\ normalised (usage_category (parse_usage_td td))
  /\ parse_usage_td None = Usage [] [] [].
Proof.
  split; [|split; [|split; [|reflexivity]]].
  - destruct td as [td|]; [|constructor]. unfold parse_usage_td.
    destruct (fold_left usage_heading _ _) as [[meaning category] examples].
    cbn [usage_examples]. apply Forall_forall. intros ex Hex.
    apply list_elem_of_fmap in Hex as (x & -> & _).
    destruct (norm_space_shape (strip_newlines x)) as (Hsp & _ & Hst).
    split; [|split; assumption].
    apply norm_space_no_newline, strip_newlines_no_newline.
  - destruct td as [td|]; [|apply normalised_nil]. unfold parse_usage_td.
    assert (Hinv : normalised
              (fst (fst (fold_left usage_heading
                           (find_all ["h4"; "strong"]%string td) ([], [], []))))).
    { apply (fold_left_inv (fun acc => normalised (fst (fst acc)))).
      - apply normalised_nil.
      - intros [[meaning category] examples] h Hacc _. cbn [fst] in Hacc.
        unfold usage_heading.
        repeat (match goal with
                | |- context [if ?b then _ else _] => destruct b
                end); cbn [fst]; first [exact Hacc|apply norm_space_normalised]. }
    destruct (fold_left usage_heading _ _) as [[meaning category] examples].
    exact Hinv.
  - destruct td as [td|]; [|apply normalised_nil]. unfold parse_usage_td.
    assert (Hinv : normalised
              (snd (fst (fold_left usage_heading
                           (find_all ["h4"; "strong"]%string td) ([], [], []))))).
    { apply (fold_left_inv (fun acc => normalised (snd (fst acc)))).
      - apply normalised_nil.
      - intros [[meaning category] examples] h Hacc _. cbn [fst snd] in Hacc.
        unfold usage_heading.
        repeat (match goal with
                | |- context [if ?b then _ else _] => destruct b
                end); cbn [fst snd]; first [exact Hacc|apply norm_space_normalised]. }
    destruct (fold_left usage_heading _ _) as [[meaning category] examples].
    exact Hinv.
Qed.

Lemma anchor_step_collected acc a :
  collected acc -> collected (anchor_step acc a).
Proof.
  destruct acc as [terms links]. intros [Ht Hl]. unfold anchor_step, collected.
  cbn [fst snd]. split.
  - destruct (is_empty (clean_text a)); [exact Ht|].
    apply Forall_app. split; [exact Ht|].
    constructor; [apply clean_text_no_newline|constructor].
  - destruct (nonempty _ && starts_with _ _) eqn:E; [|exact Hl].
    apply andb_prop in E as [_ E].
    apply Forall_app. split; [exact Hl|]. constructor; [|constructor].
    apply starts_with_app. exact E.
Qed.

Lemma term_step_no_newline label terms term :
  Forall (fun t => NL ∉ t) terms ->
  Forall (fun t => NL ∉ t) (term_step label terms term).
Proof.
  intros Ht. unfold term_step. destruct (_ && _); [|exact Ht].
  apply Forall_app. split; [exact Ht|].
  constructor; [apply strip_newlines_no_newline|constructor].
Qed.

Lemma node_terms_no_newline label t terms :
  Forall (fun t => NL ∉ t) terms ->
  Forall (fun t => NL ∉ t) (node_terms label t terms).
Proof.
  intros Ht. unfold node_terms. apply fold_left_inv; [exact Ht|].
  intros a x Ha _. apply term_step_no_newline, Ha.
Qed.

Lemma anchors_collected acc anchors :
  collected acc -> collected (fold_left anchor_step anchors acc).
Proof.
  intros Hacc. apply fold_left_inv; [exact Hacc|].
  intros a x Ha _. apply anchor_step_collected, Ha.
Qed.

Lemma synonym_node_collected acc node :
  collected acc -> collected (synonym_node acc node).
Proof.
  intros Hacc. destruct node as [t|s]; [|exact Hacc]. unfold synonym_node.
  pose proof (anchors_collected acc (select "a[href]" t) Hacc) as Hc.
  destruct (fold_left anchor_step _ acc) as [terms links].
  destruct Hc as [Ht Hl]. split; [|exact Hl].
  cbn [fst]. apply node_terms_no_newline, Ht.
Qed.

Lemma antonym_node_collected acc node :
  collected acc -> collected (antonym_node acc node).
Proof.
  intros Hacc. destruct node as [t|s]; [|exact Hacc]. unfold antonym_node.
  destruct (decide _); [exact Hacc|].
  pose proof (anchors_collected acc (select "a[href]" t) Hacc) as Hc.
  destruct (fold_left anchor_step _ acc) as [terms links].
  cbv zeta. destruct (existsb _ _); [exact Hc|].
  destruct Hc as [Ht Hl]. split; [|exact Hl].
  cbn [fst]. apply node_terms_no_newline, Ht.
Qed.

Lemma under_heading_collected label visit headings :
  (forall acc node, collected acc -> collected (visit acc node)) ->
  collected (fold_left (under_heading label visit) headings ([], [])).
Proof.
  intros Hvisit. apply fold_left_inv; [split; constructor|].
  intros acc h Hacc _. unfold under_heading.
  destruct (contains _ _); [|exact Hacc].
  apply fold_left_inv; [exact Hacc|]. intros a x Ha _. apply Hvisit, Ha.
Qed.

Lemma comparison_no_newline td :
  NL ∉ comparison (parse_synonyms_antonyms_td td).
Proof.
  destruct td as [td|]; [|apply not_elem_of_nil].
  unfold parse_synonyms_antonyms_td.
  destruct (fold_left (under_heading (u "近義成語") synonym_node) _ _)
    as [syn syn_links].
  destruct (fold_left (under_heading (u "反義成語") antonym_node) _ _)
    as [ant ant_links].
  cbn [comparison]. apply join_no_newline.
  - vm_compute. intros Hin.
    repeat (apply elem_of_cons in Hin as [Hin|Hin]; [discriminate Hin|]).
    inversion Hin.
  - apply Forall_app. split.
    + apply Forall_forall. intros x Hx.
      apply list_elem_of_fmap in Hx as (t & -> & _). apply clean_text_no_newline.
    + apply Forall_forall. intros x Hx.
      apply list_elem_of_filter in Hx as [_ Hx].
      apply list_elem_of_fmap in Hx as (t & -> & _). apply clean_text_no_newline.
Qed.

(** X9. The four lists that [parse_synonyms_antonyms_td] returns have no
    duplicate and no empty entry; every term is a single line, every link
    begins with the address of the dictionary's idiom view, and the
    comparison is a single line. *)
Theorem parse_synonyms_antonyms_td_lists td :
  let r := parse_synonyms_antonyms_td td in
  (NoDup (synonyms r) /\ NoDup (synonym_links r)
   /\ NoDup (antonyms r) /\ NoDup (antonym_links r))
  /\ Forall (fun t => (NL ∉ t) /\ t <> []) (synonyms r ++ antonyms r)
  /\ Forall (fun l => starts_with (BASE ++ VIEW) l = true /\ l <> [])
       (synonym_links r ++ antonym_links r)
  /\ (NL ∉ comparison r).
Proof.
  cbv zeta. pose proof (comparison_no_newline td) as Hcmp. revert Hcmp.
  destruct td as [td|]; cycle 1.
  { cbn. repeat split; try constructor. apply not_elem_of_nil. }
  unfold parse_synonyms_antonyms_td.
  pose proof (under_heading_collected (u "近義成語") synonym_node
                (find_all ["h4"; "strong"]%string td) synonym_node_collected)
    as Hsyn.
  pose proof (under_heading_collected (u "反義成語") antonym_node
                (find_all ["h4"; "strong"]%string td) antonym_node_collected)
    as Hant.
  destruct (fold_left (under_heading (u "近義成語") synonym_node) _ _)
    as [syn syn_links].
  destruct (fold_left (under_heading (u "反義成語") antonym_node) _ _)
    as [ant ant_links].
  destruct Hsyn as [Hs Hsl]. destruct Hant as [Ha Hal]. cbn [fst snd] in *.
  cbn [synonyms synonym_links antonyms antonym_links comparison].
  intros Hcmp. split; [|split; [|split]].
  - repeat split; apply dedupe_spec.
  - apply Forall_app. split; apply dedupe_Forall; assumption.
  - apply Forall_app. split; apply dedupe_Forall; assumption.
  - exact Hcmp.
Qed.
End Cells.

(** ** The fields of the record *)

Lemma re_sub_one_delete c s :
  re_sub (Regex NoBehind [one c] NoAhead) [] s = filter (fun x => c x = false) s.
Proof.
  unfold re_sub. generalize (@None Z). induction s as [|x s IH]; intros prev.
  - reflexivity.
  - cbn [sub_go]. unfold attempt. cbn [re_behind behind_ok re_ahead re_atoms].
    rewrite match_one. cbn [ahead_ok]. rewrite andb_true_r.
    destruct (c x) eqn:E.
    + cbn [total fold_right Nat.add expand app].
      rewrite filter_cons_False by congruence. apply IH.
    + rewrite filter_cons_True by exact E. f_equal. apply IH.
Qed.

Lemma parse_template_plain s :
  (BACKSLASH ∉ s) -> parse_template s = Some (map (fun c => TLit [c]) s).
Proof.
  unfold parse_template. induction s as [|c s IH]; intros Hn; [reflexivity|].
  cbn [parse_template_go].
  assert (Hc : (c =? BACKSLASH) = false).
  { apply Z.eqb_neq. intros ->. apply Hn. left. }
  rewrite Hc. cbn [negb]. rewrite IH; [reflexivity|].
  intros Hin. apply Hn. right. exact Hin.
Qed.

Section RecordFields.
Context `{Unicode} `{Network} `{Html}.

(** The values that [parse_idiom] puts into the record that it returns. *)
Lemma parse_idiom_fields id_value s data :
  fst (parse_idiom id_value s) = Return data ->
  exists html t,
    http_get s (request_url id_value) = Page html
    /\ table_of html = Some t
    /\ no_content (Some t) = false
    /\ is_empty (title_of (Some t)) = false
    /\ dict_get "url" data = Some (VStr (url_text (request_url id_value)))
    /\ dict_get "title" data = Some (VStr (title_of (Some t)))
    /\ dict_get "bopomofo" data = Some (VStr (bopomofo_of (Some t)))
    /\ dict_get "definition" data = Some (VStr (definition_of (Some t)))
    /\ (exists body,
          dict_get "source" data = Some (VStr (format_source_body body)))
    /\ (exists raw,
          dict_get "source_notes" data
          = Some (VStr (enumerate_source_notes raw)))
    /\ dict_get "synonyms" data
       = Some (VList (map strip_newlines
            (synonyms (parse_synonyms_antonyms_td (td_by_th (Some t) th_syn_ant)))))
    /\ dict_get "antonyms" data
       = Some (VList (map strip_newlines
            (antonyms (parse_synonyms_antonyms_td (td_by_th (Some t) th_syn_ant)))))
    /\ dict_get "comparison" data
       = Some (VStr (comparison
            (parse_synonyms_antonyms_td (td_by_th (Some t) th_syn_ant))))
    /\ (exists exs,
          dict_get "usage_examples" data = Some (VList exs)
          /\ fst (tighten_examples (title_of (Some t)) (examples_of (Some t))
                    (s ++ [request_url id_value])) = Return exs)
    /\ (exists lines, dict_get "fulltext" data
                      = Some (VStr (rm_blanklines (join [NL] lines)))
          /\ exists rest, lines = (u "成語：" ++ title_of (Some t))
                                  :: (u "注音：" ++ bopomofo_of (Some t)) :: rest).
Proof.
  unfold parse_idiom, bind, get_soup. fold (request_url id_value).
  destruct (http_get s (request_url id_value)) as [html|] eqn:Hget; [|discriminate].
  unfold table_of.
  destruct (idiom_table _) as [t|] eqn:Ht; [|discriminate].
  fold (title_of (Some t)). fold (bopomofo_of (Some t)).
  destruct (split_source_title_body _) as [st sb].
  match goal with
  | |- context [(if is_empty ?t then ret ?a else tighten_examples ?b ?c) ?s] =>
    destruct ((if is_empty t then ret a else tighten_examples b c) s)
      as [[ex|e] s'] eqn:Etight
  end; [|discriminate].
  cbv beta.
  match goal with
  | |- context [rm_blanklines (join [NL] ?l)] => remember l as lines eqn:Elines
  end.
  unfold ret, raise, no_content.
  fold (definition_of (Some t)).
  destruct (is_empty (title_of (Some t))) eqn:Et; [discriminate|].
  cbn [orb].
  destruct (is_empty (strip (title_of (Some t)))); [discriminate|].
  destruct (_ <? _)%nat eqn:Elen; [discriminate|].
  destruct (_ && _) eqn:Eblank; [discriminate|].
  cbn [fst orb]. intros [= <-].
  exists html, t. split; [reflexivity|]. split; [exact Ht|].
  split; [unfold no_content; rewrite Elen, Eblank; reflexivity|].
  split; [exact Et|].
  split; [reflexivity|]. split; [reflexivity|]. split; [reflexivity|].
  split; [reflexivity|]. split; [eexists; reflexivity|].
  split; [eexists; reflexivity|]. split; [reflexivity|]. split; [reflexivity|].
  split; [reflexivity|].
  split.
  { exists ex. split; [reflexivity|]. unfold title_of, examples_of in *.
    rewrite Etight. reflexivity. }
  exists lines. split; [reflexivity|].
  rewrite Elines. unfold fulltext_lines. cbn [app]. eexists. reflexivity.
Qed.
End RecordFields.

Lemma newline_to_cjk_comma_no_newline s : NL ∉ newline_to_cjk_comma s.
Proof.
  unfold newline_to_cjk_comma. destruct (is_empty s) eqn:Es.
  { destruct s; [apply not_elem_of_nil|discriminate]. }
  cbv zeta. rewrite re_sub_two, replace_char_delete.
  apply not_elem_Forall, squash_chr_Forall.
  apply Forall_forall. intros c Hc.
  apply list_elem_of_filter in Hc as [Hc _]. exact Hc.
Qed.

Lemma url_text_request id_value :
  id_value <> [] ->
  url_text (request_url id_value)
  = BASE ++ VIEW ++ lit "?ID=" ++ id_value ++ lit "&webMd=2&la=0".
Proof.
  intros Hne. unfold url_text.
  destruct (request_url_query id_value) as [-> ->].
  destruct id_value as [|c id]; [congruence|]. cbn [is_empty app map join fst snd].
  rewrite <- !app_assoc. reflexivity.
Qed.

Section RecordClaims.
Context `{Unicode} `{Network} `{Html}.

Lemma title_of_normalised table : normalised (title_of table).
Proof.
  unfold title_of, text_in_td. destruct (td_by_th table th_title).
  - apply norm_space_normalised.
  - apply normalised_nil.
Qed.

Lemma title_clean_filter title :
  title_clean title = filter (fun c => title_char c = true) (strip title).
Proof.
  unfold title_clean. rewrite re_sub_one_delete.
  apply list_filter_iff. intros c. unfold neg, title_char.
  destruct (either word (in_range 19968 40959) c); cbn; split; congruence.
Qed.

(** X10. A record that [parse_idiom] returns has passed the checks of validity:
    its [id] is the ID asked for and its [url] the address requested, which
    for the decimal ID [n] of the loop is
    [BASE/idiomView.jsp?ID=n&webMd=2&la=0]; the title is a normalised text
    with at least two characters of [\w] or U+4E00-U+9FFF, and bopomofo and
    definition are not both blank. *)
Theorem returned_record_is_valid id_value s data :
  fst (parse_idiom id_value s) = Return data ->
  exists title bopomofo definition,
    dict_get "id" data = Some (VStr id_value)
    /\ dict_get "url" data = Some (VStr (url_text (request_url id_value)))
    /\ (forall n, id_value = py_str n ->
        url_text (request_url id_value)
        = BASE ++ VIEW ++ lit "?ID=" ++ py_str n ++ lit "&webMd=2&la=0")
    /\ dict_get "title" data = Some (VStr title)
    /\ dict_get "bopomofo" data = Some (VStr bopomofo)
    /\ dict_get "definition" data = Some (VStr definition)
    /\ normalised title
    /\ (2 <= length (filter (fun c => title_char c = true) title))%nat
    /\ (nonblank bopomofo = true \/ nonblank definition = true).
Proof.
  intros Hret.
  destruct (parse_idiom_returns _ _ _ Hret) as (_ & Hid & _).
  destruct (parse_idiom_fields _ _ _ Hret)
    as (html & t & _ & _ & Hcontent & _ & Hurl & Htitle & Hb & Hd & _).
  exists (title_of (Some t)), (bopomofo_of (Some t)), (definition_of (Some t)).
  split; [exact Hid|]. split; [exact Hurl|].
  split; [intros n ->; apply url_text_request, py_str_nonempty|].
  split; [exact Htitle|]. split; [exact Hb|]. split; [exact Hd|].
  pose proof (title_of_normalised (Some t)) as Hn.
  split; [exact Hn|].
  unfold no_content in Hcontent. apply orb_false_iff in Hcontent as [Hlen Hblank].
  split.
  - apply Nat.ltb_ge in Hlen. rewrite title_clean_filter in Hlen.
    destruct Hn as (_ & _ & Hst). unfold strip in Hlen.
    rewrite (strip_by_fixed isspace _ Hst) in Hlen. exact Hlen.
  - unfold nonblank. apply andb_false_iff in Hblank as [E|E]; rewrite E; auto.
Qed.

Lemma format_source_body_no_newline body : NL ∉ format_source_body body.
Proof. apply newline_to_cjk_comma_no_newline. Qed.

(** X11. In a record that [parse_idiom] returns, the bopomofo, the source, the
    notes of the source and the comparison are single lines, and so is
    every synonym and antonym: none of them has a newline. *)
Theorem record_fields_are_single_lines id_value s data :
  fst (parse_idiom id_value s) = Return data ->
  exists bopomofo source source_notes comparison synonyms antonyms,
    dict_get "bopomofo" data = Some (VStr bopomofo)
    /\ dict_get "source" data = Some (VStr source)
    /\ dict_get "source_notes" data = Some (VStr source_notes)
    /\ dict_get "comparison" data = Some (VStr comparison)
    /\ dict_get "synonyms" data = Some (VList synonyms)
    /\ dict_get "antonyms" data = Some (VList antonyms)
    /\ (NL ∉ bopomofo) /\ (NL ∉ source) /\ (NL ∉ source_notes)
    /\ (NL ∉ comparison)
    /\ Forall (fun t => NL ∉ t) synonyms
    /\ Forall (fun t => NL ∉ t) antonyms.
Proof.
  intros Hret.
  destruct (parse_idiom_fields _ _ _ Hret)
    as (html & t & _ & _ & _ & _ & _ & _ & Hb & _ & (body & Hs) & (raw & Hn)
        & Hsyn & Hant & Hcmp & _).
  eexists _, _, _, _, _, _.
  split; [exact Hb|]. split; [exact Hs|]. split; [exact Hn|].
  split; [exact Hcmp|]. split; [exact Hsyn|]. split; [exact Hant|].
  split; [apply strip_newlines_no_newline|].
  split; [apply format_source_body_no_newline|].
  split; [apply enumerate_source_notes_no_newline|].
  split; [apply comparison_no_newline|].
  split; apply Forall_forall; intros x Hx;
    apply list_elem_of_fmap in Hx as (y & -> & _);
    apply strip_newlines_no_newline.
Qed.

(** X13. A title without a backslash is a replacement template, so that a page
    that was fetched and has the table is never an error of [re]: it is
    NotFound if the content is missing, and gives the record if not. *)
Theorem plain_title_is_no_error id_value s html t :
  http_get s (request_url id_value) = Page html ->
  table_of html = Some t ->
  BACKSLASH ∉ title_of (Some t) ->
  if no_content (Some t) then fst (parse_idiom id_value s) = Raise NotFound
  else exists data, fst (parse_idiom id_value s) = Return data
                    /\ keys data = record_keys.
Proof.
  intros Hget Ht Hplain.
  pose proof (parse_idiom_outcome id_value s html Hget) as Hout.
  rewrite Ht in Hout.
  assert (Hf : template_fails (Some t) = false).
  { unfold template_fails. rewrite (parse_template_plain _ Hplain).
    rewrite (bool_decide_eq_true_2 (is_Some (Some _))) by eauto. cbn [negb].
    apply andb_false_r. }
  rewrite Hf in Hout. exact Hout.
Qed.
End RecordClaims.

Lemma returned_record_is_valid_witness :
  idiom_there (fun U N D =>
    exists data title,
      fst (parse_idiom (py_str 7) []) = Return data
      /\ dict_get "title" data = Some (VStr title)
      /\ (2 <= length (filter (fun c => title_char c = true) title))%nat).
Proof.
  unfold idiom_there.
  pose (r := fst (@parse_idiom basic_unicode (always (Page []))
                    (sample_html idiom_page) (py_str 7) [])).
  assert (Hr : exists data, r = Return data) by (vm_compute; eauto).
  destruct Hr as (data & Hret). exists data.
  destruct (@returned_record_is_valid basic_unicode (always (Page []))
              (sample_html idiom_page) (py_str 7) [] data Hret)
    as (title & bopomofo & definition & _ & _ & _ & Ht & _ & _ & _ & Hlen & _).
  exists title. split; [exact Hret|]. split; [exact Ht|exact Hlen].
Defined.

Lemma record_fields_are_single_lines_witness :
  idiom_there (fun U N D =>
    exists data bopomofo,
      fst (parse_idiom (py_str 7) []) = Return data
      /\ dict_get "bopomofo" data = Some (VStr bopomofo)
      /\ (NL ∉ bopomofo)).
Proof.
  unfold idiom_there.
  pose (r := fst (@parse_idiom basic_unicode (always (Page []))
                    (sample_html idiom_page) (py_str 7) [])).
  assert (Hr : exists data, r = Return data) by (vm_compute; eauto).
  destruct Hr as (data & Hret). exists data.
  destruct (@record_fields_are_single_lines basic_unicode (always (Page []))
              (sample_html idiom_page) (py_str 7) [] data Hret)
    as (bopomofo & source & notes & cmp & syn & ant & Hb & _ & _ & _ & _ & _
        & Hnl & _).
  exists bopomofo. split; [exact Hret|]. split; [exact Hb|exact Hnl].
Defined.

Lemma plain_title_is_no_error_witness :
  @http_get (always (Page [])) [] (@request_url (py_str 7)) = Page []
  /\ @table_of (sample_html idiom_page) [] = Some idiom_page
  /\ (BACKSLASH ∉ @title_of (sample_html idiom_page) (Some idiom_page))
  /\ exists data,
       fst (@parse_idiom basic_unicode (always (Page []))
              (sample_html idiom_page) (py_str 7) []) = Return data
       /\ keys data = record_keys.
Proof.
  assert (H1 : @http_get (always (Page [])) [] (@request_url (py_str 7)) = Page [])
    by reflexivity.
  assert (H2 : @table_of (sample_html idiom_page) [] = Some idiom_page)
    by reflexivity.
  assert (H3 : BACKSLASH ∉ @title_of (sample_html idiom_page) (Some idiom_page)).
  { vm_compute. intros Hin.
    repeat (apply elem_of_cons in Hin as [Hin|Hin]; [discriminate Hin|]).
    inversion Hin. }
  split; [exact H1|]. split; [exact H2|]. split; [exact H3|].
  pose proof (@plain_title_is_no_error basic_unicode (always (Page []))
                (sample_html idiom_page) (py_str 7) [] [] idiom_page H1 H2 H3)
    as Hout.
  lazymatch type of Hout with
  | if ?b then _ else _ =>
    assert (Hc : b = false) by (vm_compute; reflexivity); rewrite Hc in Hout
  end.
  exact Hout.
Defined.

(** ** The files of different IDs *)

Lemma path_join_inj a b1 b2 :
  b1 <> [] -> b2 <> [] -> head b1 <> Some SLASH -> head b2 <> Some SLASH ->
  path_join a b1 = path_join a b2 -> b1 = b2.
Proof.
  intros N1 N2 H1 H2. unfold path_join.
  destruct b1 as [|c1 b1]; [congruence|]. destruct b2 as [|c2 b2]; [congruence|].
  cbn [head] in H1, H2.
  assert (E1 : (c1 =? SLASH) = false) by (apply Z.eqb_neq; congruence).
  assert (E2 : (c2 =? SLASH) = false) by (apply Z.eqb_neq; congruence).
  rewrite E1, E2. destruct (last a) as [e|]; [|auto].
  destruct (e =? SLASH); intros E.
  - apply app_inv_head in E. exact E.
  - apply app_inv_head in E. injection E as -> ->. reflexivity.
Qed.

(** Two texts that agree up to and after a separator that occurs in
    neither of the parts before it have the same part before it. *)
Lemma app_sep_inj (c : Z) : forall x y r r',
  c ∉ x -> c ∉ y -> x ++ c :: r = y ++ c :: r' -> x = y.
Proof.
  induction x as [|a x IH]; intros y r r' Hx Hy E.
  - destruct y as [|b y]; [reflexivity|]. cbn in E. injection E as <- _.
    exfalso. apply Hy. left.
  - destruct y as [|b y].
    + cbn in E. injection E as -> _. exfalso. apply Hx. left.
    + cbn in E. injection E as <- E. f_equal.
      apply (IH y r r'); [| |exact E].
      * intros Hin. apply Hx. right. exact Hin.
      * intros Hin. apply Hy. right. exact Hin.
Qed.

Lemma py_str_no_underscore n : UNDERSCORE ∉ py_str n.
Proof.
  apply not_elem_Forall, py_str_Forall; [|discriminate].
  intros c Hc ->. discriminate Hc.
Qed.

Lemma py_str_head n : head (py_str n) <> Some SLASH.
Proof.
  pose proof (py_str_chars n) as Hall. destruct (py_str n) as [|c s]; [discriminate|].
  apply Forall_cons in Hall as [[Hc| ->] _]; [|discriminate].
  cbn [head]. intros [= ->]. discriminate Hc.
Qed.

Section Files.
Context `{Unicode} `{Os}.

(** The file names of two IDs differ, whatever the titles are. *)
Lemma item_path_inj dir i j t1 t2 ext :
  path_join dir ((py_str i ++ lit "_" ++ safe_slug t1) ++ ext)
  = path_join dir ((py_str j ++ lit "_" ++ safe_slug t2) ++ ext) ->
  i = j.
Proof.
  intros E. apply path_join_inj in E.
  - rewrite <- !app_assoc in E. cbn [lit app] in E.
    apply app_sep_inj in E; try apply py_str_no_underscore.
    apply py_str_inj in E. exact E.
  - pose proof (py_str_nonempty i). destruct (py_str i); [congruence|discriminate].
  - pose proof (py_str_nonempty j). destruct (py_str j); [congruence|discriminate].
  - pose proof (py_str_head i). pose proof (py_str_nonempty i).
    destruct (py_str i); [congruence|assumption].
  - pose proof (py_str_head j). pose proof (py_str_nonempty j).
    destruct (py_str j); [congruence|assumption].
Qed.

(** X15. [write_item] names the files of a record after its ID: the records of
    two different IDs of the crawl go to different JSON files and to
    different TXT files, whatever their titles, and to the same corpus. *)
Theorem different_ids_have_their_own_files out_dir i j data1 data2 d1 d2
    js1 tx1 jl1 js2 tx2 jl2 :
  item "id" data1 = Some (py_str i) ->
  item "id" data2 = Some (py_str j) ->
  i <> j ->
  fst (write_item out_dir data1 d1) = Return (js1, tx1, jl1) ->
  fst (write_item out_dir data2 d2) = Return (js2, tx2, jl2) ->
  js1 <> js2 /\ tx1 <> tx2 /\ jl1 = jl2.
Proof.
  intros Hi Hj Hne. unfold write_item. rewrite Hi, Hj.
  destruct (match dict_get "title" data1 with
            | Some (VStr s) => Some s
            | Some (VList _) => None
            | None => Some []
            end) as [t1|]; [|discriminate].
  destruct (match dict_get "title" data2 with
            | Some (VStr s) => Some s
            | Some (VList _) => None
            | None => Some []
            end) as [t2|]; [|discriminate].
  intros E1 E2. repeat case_match; try discriminate.
  cbn [fst] in E1, E2. injection E1 as <- <- <-. injection E2 as <- <- <-.
  split; [|split; [|reflexivity]]; intros E; exact (Hne (item_path_inj _ _ _ _ _ _ E)).
Qed.
End Files.

Lemma different_ids_have_their_own_files_witness :
  let data1 := [("id", VStr (py_str 7)); ("title", VStr (u "一心一意"));
                ("fulltext", VStr (u "成語：一心一意"))]%string in
  let data2 := [("id", VStr (py_str 8)); ("title", VStr (u "一心一意"));
                ("fulltext", VStr (u "成語：一心一意"))]%string in
  item "id" data1 = Some (py_str 7) /\ item "id" data2 = Some (py_str 8)
  /\ 7 <> 8
  /\ fst (@write_item basic_unicode name_limit (lit "out") data1 (Fs ∅ ∅))
     = Return (u "out/json/7_一心一意.json", u "out/txt/7_一心一意.txt",
               u "out/moe_idioms.jsonl")
  /\ fst (@write_item basic_unicode name_limit (lit "out") data2 (Fs ∅ ∅))
     = Return (u "out/json/8_一心一意.json", u "out/txt/8_一心一意.txt",
               u "out/moe_idioms.jsonl")
  /\ u "out/json/7_一心一意.json" <> u "out/json/8_一心一意.json".
Proof.
  intros data1 data2.
  assert (Hi : item "id" data1 = Some (py_str 7)) by reflexivity.
  assert (Hj : item "id" data2 = Some (py_str 8)) by reflexivity.
  assert (Hne : 7 <> 8) by discriminate.
  assert (H1 : fst (@write_item basic_unicode name_limit (lit "out") data1 (Fs ∅ ∅))
               = Return (u "out/json/7_一心一意.json", u "out/txt/7_一心一意.txt",
                         u "out/moe_idioms.jsonl")) by reflexivity.
  assert (H2 : fst (@write_item basic_unicode name_limit (lit "out") data2 (Fs ∅ ∅))
               = Return (u "out/json/8_一心一意.json", u "out/txt/8_一心一意.txt",
                         u "out/moe_idioms.jsonl")) by reflexivity.
  split; [exact Hi|]. split; [exact Hj|]. split; [exact Hne|].
  split; [exact H1|]. split; [exact H2|].
  exact (proj1 (@different_ids_have_their_own_files basic_unicode name_limit (lit "out")
                  7 8 data1 data2 (Fs ∅ ∅) (Fs ∅ ∅) _ _ _ _ _ _
                  Hi Hj Hne H1 H2)).
Defined.

(** ** The layout of the full text *)

Lemma lstrip_app p (x y : str) e :
  head y = Some e -> p e = false -> lstrip_by p (x ++ y) = lstrip_by p x ++ y.
Proof.
  intros Hy He. induction x as [|c x IH].
  - cbn [app lstrip_by]. destruct y as [|c y]; [discriminate|].
    injection Hy as ->. cbn [lstrip_by]. rewrite He. reflexivity.
  - cbn [app lstrip_by]. destruct (p c); [exact IH|reflexivity].
Qed.

Lemma rstrip_app p (a b : str) e :
  last a = Some e -> p e = false -> rstrip_by p (a ++ b) = a ++ rstrip_by p b.
Proof.
  intros Ha He. unfold rstrip_by. rewrite rev_app_distr.
  rewrite (lstrip_app p (rev b) (rev a) e); [|rewrite head_rev; exact Ha|exact He].
  rewrite rev_app_distr, rev_involutive. reflexivity.
Qed.

Lemma squash_app cls y : forall (a b : str) in_run e,
  last a = Some e -> cls e = false ->
  squash cls y in_run (a ++ b) = squash cls y in_run a ++ squash cls y false b.
Proof.
  induction a as [|c a IH]; intros b in_run e Ha He; [discriminate|].
  destruct a as [|c' a'].
  - injection Ha as ->. cbn [app squash]. rewrite He. reflexivity.
  - change (last (c :: c' :: a')) with (last (c' :: a')) in Ha.
    change ((c :: c' :: a') ++ b) with (c :: (c' :: a') ++ b).
    remember (c' :: a') as t eqn:Et. cbn [squash].
    destruct (cls c); [destruct in_run|]; cbn [app];
      rewrite (IH b _ e Ha He); reflexivity.
Qed.

Lemma no_pair_app_intro bad (s1 s2 : str) :
  no_pair bad s1 -> no_pair bad s2 ->
  (forall a b, last s1 = Some a -> head s2 = Some b -> bad a b = false) ->
  no_pair bad (s1 ++ s2).
Proof.
  intros H1 H2 Hj. induction s1 as [|x s1 IH]; [exact H2|].
  destruct s1 as [|x' s1'].
  - cbn [app]. apply no_pair_head; [|exact H2].
    destruct s2 as [|b s2]; [exact I|]. apply Hj; reflexivity.
  - apply no_pair_cons in H1 as [Hx H1].
    change ((x :: x' :: s1') ++ s2) with (x :: x' :: (s1' ++ s2)).
    apply no_pair_cons. split; [exact Hx|].
    apply IH; [exact H1|]. intros a b Ha Hb. apply Hj; [exact Ha|exact Hb].
Qed.

Lemma no_pair_absent bad (s : str) :
  (forall a b, a ∈ s -> bad a b = false) -> no_pair bad s.
Proof.
  induction s as [|x s IH]; intros Hall; [exact I|].
  destruct s as [|y s]; [exact I|]. apply no_pair_cons. split.
  - apply Hall. left.
  - apply IH. intros a b Ha. apply Hall. right. exact Ha.
Qed.

Lemma join_head sep p (rest : list str) : exists tail, join sep (p :: rest) = p ++ tail.
Proof.
  destruct rest as [|q rest].
  - exists []. cbn. rewrite app_nil_r. reflexivity.
  - eexists. reflexivity.
Qed.

(** The head of the full text: after [rm_blanklines] the lines of the
    title and of the bopomofo still begin the text. *)
Lemma fulltext_head title bopomofo rest :
  title <> [] -> normalised title ->
  exists tail,
    rm_blanklines (join [NL] ((u "成語：" ++ title) :: (u "注音：" ++ bopomofo) :: rest))
    = u "成語：" ++ title ++ [NL] ++ u "注音：" ++ tail.
Proof.
  intros Hne (_ & Htight & Hst).
  destruct (join_head [NL] (u "注音：" ++ bopomofo) rest) as (tail & Htail).
  change (join [NL] ((u "成語：" ++ title) :: (u "注音：" ++ bopomofo) :: rest))
    with ((u "成語：" ++ title) ++ [NL] ++ join [NL] ((u "注音：" ++ bopomofo) :: rest)).
  rewrite Htail. rewrite rm_blanklines_squash.
  set (a := u "成語：" ++ title ++ [NL] ++ u "注音：").
  set (b := bopomofo ++ tail).
  assert (Eab : (u "成語：" ++ title) ++ [NL] ++ (u "注音：" ++ bopomofo) ++ tail
                = a ++ b).
  { unfold a, b. rewrite <- !app_assoc. reflexivity. }
  rewrite Eab.
  assert (Hlast : last a = Some 0xFF1A).
  { unfold a. rewrite !app_assoc. rewrite last_app. reflexivity. }
  assert (Hstrip : strip (a ++ b) = a ++ rstrip_by isspace b).
  { unfold strip, strip_by. rewrite lstrip_fixed by reflexivity.
    apply (rstrip_app isspace a b _ Hlast). reflexivity. }
  rewrite Hstrip.
  rewrite (squash_app (chr NL) NL a _ false _ Hlast) by reflexivity.
  assert (Hfix : squash (chr NL) NL false a = a).
  { apply squash_fixed.
    - apply Forall_forall. intros c _ Hc. apply Z.eqb_eq in Hc. exact Hc.
    - destruct title as [|c title]; [congruence|].
      destruct Hst as (_ & e & He & Hes).
      unfold a.
      apply no_pair_app_intro.
      + apply no_pair_absent. intros x y Hx.
        repeat (apply elem_of_cons in Hx as [->|Hx]; [reflexivity|]).
        inversion Hx.
      + apply no_pair_app_intro.
        * eapply no_pair_weaken; [|exact Htight]. cbn beta.
          intros x y _ Hxy. apply andb_prop in Hxy as [Hx Hy].
          unfold chr in Hx, Hy. apply Z.eqb_eq in Hx as ->. rewrite Hy. reflexivity.
        * apply no_pair_head; [reflexivity|].
          apply no_pair_absent. intros x y Hx.
          repeat (apply elem_of_cons in Hx as [->|Hx]; [reflexivity|]).
          inversion Hx.
        * intros x y Hx Hy. rewrite He in Hx. injection Hx as <-.
          unfold chr. destruct (Z.eqb_spec e NL) as [->|_]; [discriminate Hes|reflexivity].
      + intros x y Hx Hy. injection Hx as <-. reflexivity. }
  rewrite Hfix. unfold a. rewrite <- !app_assoc. eexists. reflexivity.
Qed.

Section FullText.
Context `{Unicode} `{Network} `{Html}.

(** X12. The full text of a record that [parse_idiom] returns begins with the
    line of the title and the label of the bopomofo, has no empty line and
    no white space at its ends. *)
Theorem record_fulltext_layout id_value s data :
  fst (parse_idiom id_value s) = Return data ->
  exists title fulltext rest,
    dict_get "title" data = Some (VStr title)
    /\ dict_get "fulltext" data = Some (VStr fulltext)
    /\ fulltext = u "成語：" ++ title ++ [NL] ++ u "注音：" ++ rest
    /\ no_pair (fun a b => (a =? NL) && (b =? NL)) fulltext
    /\ stripped fulltext.
Proof.
  intros Hret.
  destruct (parse_idiom_fields _ _ _ Hret)
    as (html & t & _ & _ & _ & Hne & _ & Htitle & _ & _ & _ & _ & _ & _ & _
        & _ & lines & Hfull & rest & ->).
  destruct (fulltext_head (title_of (Some t)) (bopomofo_of (Some t)) rest)
    as (tail & Htail).
  { intros E. rewrite E in Hne. discriminate Hne. }
  { apply title_of_normalised. }
  exists (title_of (Some t)). eexists. exists tail.
  split; [exact Htitle|]. split; [exact Hfull|].
  split; [exact Htail|].
  split; [apply rm_blanklines_no_pair|apply rm_blanklines_stripped].
Qed.
End FullText.

Lemma record_fulltext_layout_witness :
  idiom_there (fun U N D =>
    exists data fulltext rest,
      fst (parse_idiom (py_str 7) []) = Return data
      /\ dict_get "fulltext" data = Some (VStr fulltext)
      /\ fulltext = u "成語：" ++ u "一心一意" ++ [NL] ++ u "注音：" ++ rest).
Proof.
  unfold idiom_there.
  pose (r := fst (@parse_idiom basic_unicode (always (Page []))
                    (sample_html idiom_page) (py_str 7) [])).
  assert (Hr : exists data, r = Return data) by (vm_compute; eauto).
  destruct Hr as (data & Hret). exists data.
  destruct (@record_fulltext_layout basic_unicode (always (Page []))
              (sample_html idiom_page) (py_str 7) [] data Hret)
    as (title & fulltext & rest & Ht & Hf & Hlay & _).
  assert (Htitle : title = u "一心一意").
  { vm_compute in Hret. injection Hret as <-. vm_compute in Ht.
    injection Ht as <-. reflexivity. }
  exists fulltext, rest. split; [exact Hret|]. split; [exact Hf|].
  rewrite <- Htitle. exact Hlay.
Defined.

(** ** Repairs that only take white space away *)

Lemma take_total_segments : forall ls s,
  concat (segments ls s) = take (total ls) s.
Proof.
  induction ls as [|j ls IH]; intros s; [reflexivity|].
  cbn [segments concat total fold_right]. rewrite IH.
  fold (total ls). rewrite <- take_take_drop. reflexivity.
Qed.

Lemma group_text_segments : forall ls s i,
  group_text ls s i = nth i (segments ls s) [].
Proof.
  unfold group_text. induction ls as [|j ls IH]; intros s i.
  - destruct i; reflexivity.
  - destruct i as [|i].
    + cbn. reflexivity.
    + cbn [nth segments take total fold_right]. fold (total (take i ls)).
      rewrite <- IH. rewrite drop_drop. reflexivity.
Qed.

Lemma take_run_Forall c s j :
  (j <= run_length c s)%nat -> Forall (fun x => c x = true) (take j s).
Proof.
  intros Hj. destruct (run_length_app c s) as [Hall _].
  rewrite <- (Nat.min_l _ _ Hj), <- take_take. apply Forall_take, Hall.
Qed.

Lemma splits_segments la : forall atoms s ls,
  splits la atoms s ls ->
  Forall2 (fun a seg => Forall (fun x => a_cls a x = true) seg)
    atoms (segments ls s).
Proof.
  induction atoms as [|a atoms IH]; intros s ls Hs.
  - destruct ls; [constructor|destruct Hs].
  - destruct ls as [|j ls]; [destruct Hs|]. destruct Hs as [Hj Hrest].
    cbn [segments]. constructor; [|apply IH, Hrest].
    apply take_run_Forall. unfold most in Hj. destruct (a_max a); lia.
Qed.

Lemma attempt_segments r prev s ls :
  attempt r prev s = Some ls ->
  Forall2 (fun a seg => Forall (fun x => a_cls a x = true) seg)
    (re_atoms r) (segments ls s).
Proof.
  unfold attempt. destruct (behind_ok _ _); [|discriminate].
  intros Hm. apply splits_segments with (la := re_ahead r).
  apply match_atoms_sound, Hm.
Qed.

(** If every replacement has the text of what it replaces, the result has
    the text of the input. *)
Lemma sub_go_visible r t :
  (forall prev s ls, attempt r prev s = Some ls ->
     visible (expand t ls s) = visible (take (total ls) s)) ->
  forall n s prev, (length s <= n)%nat ->
    visible (sub_go r t prev O s) = visible s.
Proof.
  intros Hm. induction n as [|n IH]; intros s prev Hlen.
  - destruct s; [reflexivity|cbn in Hlen; lia].
  - destruct s as [|c s]; [reflexivity|]. cbn [length] in Hlen.
    rewrite sub_go_step.
    destruct (attempt r prev (c :: s)) as [ls|] eqn:Ea.
    + destruct (total ls) as [|k] eqn:Et.
      * unfold visible. rewrite !filter_cons.
        destruct (decide _); [f_equal|]; apply IH; lia.
      * rewrite visible_app, (Hm _ _ _ Ea), Et.
        rewrite IH by (rewrite length_drop; lia).
        rewrite <- visible_app. cbn [take]. cbn [app].
        rewrite take_drop. reflexivity.
    + unfold visible. rewrite !filter_cons.
      destruct (decide _); [f_equal|]; apply IH; lia.
Qed.

Lemma re_sub_visible r t s :
  (forall prev s ls, attempt r prev s = Some ls ->
     visible (expand t ls s) = visible (take (total ls) s)) ->
  visible (re_sub r t s) = visible s.
Proof. intros Hm. apply (sub_go_visible r t Hm (length s)). lia. Qed.

Lemma visible_class (cls : cclass) seg :
  (forall x, cls x = true -> isspace x = true) ->
  Forall (fun x => cls x = true) seg -> visible seg = [].
Proof.
  intros Hc Hall. apply visible_blank. eapply Forall_impl; [exact Hall|]. exact Hc.
Qed.

(** A match laid out as the texts of its classes. *)
Ltac lay_out Hm :=
  apply attempt_segments in Hm; cbn [re_atoms] in Hm;
  rewrite <- take_total_segments; cbn [expand];
  rewrite ?group_text_segments;
  repeat match type of Hm with
         | Forall2 _ (_ :: _) _ =>
           let a := fresh "Hseg" in
           apply Forall2_cons_inv_l in Hm as (? & ? & a & Hm & ->);
           cbn [a_cls one opt star plus at_least] in a
         end;
  apply Forall2_nil_inv_l in Hm as ->;
  cbn [nth concat]; rewrite ?app_nil_r, ?visible_app.

Ltac blank_segments :=
  repeat match goal with
         | H : Forall (fun x => isspace x = true) ?g |- _ =>
           rewrite (visible_blank g H); clear H
         | H : Forall (fun x => chr NL x = true) ?g |- _ =>
           rewrite (visible_class (chr NL) g chr_is_space H); clear H
         end;
  rewrite ?app_nil_r; cbn [app]; try reflexivity.

Lemma visible_lstrip s : visible (lstrip_by isspace s) = visible s.
Proof.
  induction s as [|c s IH]; [reflexivity|]. cbn [lstrip_by].
  destruct (isspace c) eqn:E; [|reflexivity].
  rewrite visible_space by exact E. exact IH.
Qed.

Lemma visible_rev s : visible (rev s) = rev (visible s).
Proof.
  induction s as [|c s IH]; [reflexivity|]. cbn [rev].
  rewrite visible_app, IH. destruct (isspace c) eqn:E.
  - rewrite !visible_space by exact E. apply app_nil_r.
  - unfold visible. rewrite !filter_cons_True by exact E. reflexivity.
Qed.

Lemma visible_strip s : visible (strip s) = visible s.
Proof.
  unfold strip, strip_by, rstrip_by.
  rewrite visible_rev, visible_lstrip, visible_rev, rev_involutive.
  apply visible_lstrip.
Qed.

Lemma visible_squash cls y : forall s b,
  (forall x, cls x = true -> isspace x = true) -> isspace y = true ->
  visible (squash cls y b s) = visible s.
Proof.
  intros s b Hc Hy. revert b. induction s as [|c s IH]; intros b; [reflexivity|].
  cbn [squash]. destruct (cls c) eqn:E.
  - rewrite (visible_space c s) by (apply Hc, E). destruct b; [apply IH|].
    rewrite visible_space by exact Hy. apply IH.
  - unfold visible. rewrite !filter_cons. destruct (decide _); [f_equal|]; apply IH.
Qed.

Lemma visible_delete_newlines s : visible (delete_newlines s) = visible s.
Proof.
  unfold delete_newlines. induction s as [|c s IH]; [reflexivity|].
  rewrite filter_cons. destruct (decide (c <> NL)) as [Hc|Hc].
  - unfold visible. rewrite !filter_cons. destruct (decide _); [f_equal|]; exact IH.
  - assert (c = NL) as -> by (destruct (decide (c = NL)); [assumption|contradiction]).
    rewrite visible_space by reflexivity. exact IH.
Qed.

(** X3. [rm_blanklines], [strip_newlines], [condense_zhuyin],
    [strip_bpmf_adjacent_newlines] and [fix_inline_markers_and_quotes] take
    nothing but white space out of a text: the characters that are not
    white space come back unchanged and in order. *)
Theorem repairs_keep_the_text s :
  visible (rm_blanklines s) = visible s
  /\ visible (strip_newlines s) = visible s
  /\ visible (condense_zhuyin s) = visible s
  /\ visible (strip_bpmf_adjacent_newlines s) = visible s
  /\ visible (fix_inline_markers_and_quotes s) = visible s.
Proof.
  split; [|split; [|split; [|split]]].
  - rewrite rm_blanklines_squash, visible_squash, visible_strip;
      [reflexivity|apply chr_is_space|reflexivity].
  - unfold strip_newlines. destruct (is_empty s); [reflexivity|].
    rewrite replace_char_delete. apply visible_delete_newlines.
  - unfold condense_zhuyin. destruct (is_empty s); [reflexivity|].
    apply re_sub_visible. intros prev s' ls Hm. lay_out Hm. blank_segments.
  - unfold strip_bpmf_adjacent_newlines. destruct (is_empty s); [reflexivity|].
    cbv zeta. rewrite !re_sub_visible; [reflexivity| |];
      intros prev s' ls Hm; lay_out Hm; blank_segments.
  - unfold fix_inline_markers_and_quotes. destruct (is_empty s); [reflexivity|].
    cbv zeta. rewrite !re_sub_visible; [reflexivity| | | |];
      intros prev s' ls Hm; lay_out Hm; blank_segments.
Qed.

(** ** The rewrite of the examples *)













Section Examples.
Context `{Unicode} `{Network} `{Html}.

End Examples.


(** ** The files that a run leaves *)

Section FileNames.
Context `{Unicode} `{Os}.

Lemma safe_slug_class s : Forall (fun c => slug_class c = true) (safe_slug s).
Proof.
  rewrite safe_slug_core. destruct (_ || _); [apply NA_slug|].
  apply slug_core_shape.
Qed.

Lemma py_str_class n : Forall (fun c => slug_class c = true) (py_str n).
Proof.
  apply py_str_Forall.
  - intros c Hc. unfold slug_class, word, either.
    rewrite isalnum_ascii by (rewrite Hc; apply orb_true_r). reflexivity.
  - unfold slug_class, word, either, chr. cbn. rewrite orb_true_r. reflexivity.
Qed.

(** X16. The files of an integer ID have the name [<id>_<slug>], and every
    character of that name is a letter or digit, an underscore, a hyphen or
    a CJK character; so, as a slash is not alphanumeric, the name has no
    slash: neither the ID nor the title can direct a file out of the
    folders [json] and [txt]. *)
Theorem file_names_are_plain out_dir i data d js tx jl :
  item "id" data = Some (py_str i) ->
  fst (write_item out_dir data d) = Return (js, tx, jl) ->
  exists name,
    js = path_join (path_join out_dir (lit "json")) (name ++ lit ".json")
    /\ tx = path_join (path_join out_dir (lit "txt")) (name ++ lit ".txt")
    /\ name <> []
    /\ Forall (fun c => isalnum c || (c =? UNDERSCORE) || (c =? HYPHEN) || CJK c
                        = true) name
    /\ (isalnum SLASH = false -> SLASH ∉ name).
Proof.
  intros Hid. unfold write_item. rewrite Hid.
  destruct (match dict_get "title" data with
            | Some (VStr s) => Some s
            | Some (VList _) => None
            | None => Some []
            end) as [title|]; [|discriminate].
  intros E. repeat case_match; try discriminate.
  cbn [fst] in E. injection E as <- <- <-.
  exists (py_str i ++ lit "_" ++ safe_slug title).
  split; [reflexivity|]. split; [reflexivity|].
  assert (Hall : Forall (fun c => slug_class c = true)
                   (py_str i ++ lit "_" ++ safe_slug title)).
  { rewrite !Forall_app. split; [apply py_str_class|].
    split; [|apply safe_slug_class].
    constructor; [apply slug_class_underscore|constructor]. }
  split; [|split].
  - pose proof (py_str_nonempty i). destruct (py_str i); [congruence|discriminate].
  - eapply Forall_impl; [exact Hall|]. intros c Hc.
    unfold slug_class, word, either, chr in Hc. exact Hc.
  - intros Hslash Hin. rewrite Forall_forall in Hall.
    specialize (Hall _ Hin). unfold slug_class, word, either, chr in Hall.
    rewrite Hslash in Hall. discriminate Hall.
Qed.
End FileNames.

Lemma file_names_are_plain_witness :
  let data := [("id", VStr (py_str 7)); ("title", VStr (u "../一心/一意"));
               ("fulltext", VStr (u "成語：一心一意"))]%string in
  item "id" data = Some (py_str 7)
  /\ fst (@write_item basic_unicode name_limit (lit "out") data (Fs ∅ ∅))
     = Return (u "out/json/7_一心_一意.json", u "out/txt/7_一心_一意.txt",
               u "out/moe_idioms.jsonl")
  /\ exists name,
       u "out/json/7_一心_一意.json"
       = path_join (path_join (lit "out") (lit "json")) (name ++ lit ".json")
       /\ (SLASH ∉ name).
Proof.
  intros data.
  assert (Hi : item "id" data = Some (py_str 7)) by reflexivity.
  assert (Hw : fst (@write_item basic_unicode name_limit (lit "out") data (Fs ∅ ∅))
               = Return (u "out/json/7_一心_一意.json", u "out/txt/7_一心_一意.txt",
                         u "out/moe_idioms.jsonl")) by reflexivity.
  split; [exact Hi|]. split; [exact Hw|].
  destruct (@file_names_are_plain basic_unicode name_limit (lit "out") 7 data (Fs ∅ ∅)
              _ _ _ Hi Hw) as (name & Hjs & _ & _ & _ & Hslash).
  exists name. split; [exact Hjs|]. apply Hslash. reflexivity.
Defined.

Section RunFilesProofs.
Context `{Unicode} `{Network} `{Html} `{Os}.

Lemma last_with_ext dir name ext c :
  last ext = Some c -> last (path_join dir (name ++ ext)) = Some c.
Proof.
  intros Hc. assert (Hne : ext <> []) by (intros ->; discriminate).
  rewrite last_path_join.
  - rewrite last_app, Hc. reflexivity.
  - intros E. apply app_eq_nil in E as [_ E]. contradiction.
Qed.

Lemma json_path_last a id title : last (json_path a id title) = Some 0x6E.
Proof. apply last_with_ext. reflexivity. Qed.

Lemma txt_path_last a id title : last (txt_path a id title) = Some 0x74.
Proof. apply last_with_ext. reflexivity. Qed.

Lemma jsonl_path_last a : last (jsonl_path a) = Some 0x6C.
Proof. unfold jsonl_path. rewrite last_path_join by discriminate. reflexivity. Qed.

(** The files of a record after [write_item]: if it returned, the JSON
    and TXT files hold the record; whether it returned or raised, it has
    touched no file but the three of the record. *)
Lemma write_item_files a data d id title fulltext :
  dict_get "id" data = Some (VStr id) ->
  dict_get "title" data = Some (VStr title) ->
  dict_get "fulltext" data = Some (VStr fulltext) ->
  let d' := snd (write_item (out_dir a) data d) in
  (forall paths, fst (write_item (out_dir a) data d) = Return paths ->
     paths = (json_path a id title, txt_path a id title, jsonl_path a)
     /\ files d' !! json_path a id title = Some (dump_indent data)
     /\ files d' !! txt_path a id title = Some (fulltext ++ [NL]))
  /\ (forall p, p <> json_path a id title -> p <> txt_path a id title ->
        p <> jsonl_path a -> files d' !! p = files d !! p).
Proof.
  intros Hid Ht Hf. cbv zeta.
  destruct (write_item_parsed (out_dir a) data d id title fulltext Hid Ht Hf)
    as (d0 & Hfiles & ->).
  fold (base_name id title). fold (json_path a id title).
  fold (txt_path a id title). fold (jsonl_path a).
  unfold append_file, write_file.
  assert (N1 : txt_path a id title <> json_path a id title).
  { intros E. pose proof (json_path_last a id title) as L.
    rewrite <- E, txt_path_last in L. discriminate L. }
  assert (N2 : jsonl_path a <> json_path a id title).
  { intros E. pose proof (json_path_last a id title) as L.
    rewrite <- E, jsonl_path_last in L. discriminate L. }
  assert (N3 : jsonl_path a <> txt_path a id title).
  { intros E. pose proof (txt_path_last a id title) as L.
    rewrite <- E, jsonl_path_last in L. discriminate L. }
  destruct (can_open d0 (json_path a id title)).
  2:{ cbn [fst snd]. split; [discriminate|]. intros p _ _ _.
      rewrite Hfiles. reflexivity. }
  destruct (can_open _ (txt_path a id title)).
  2:{ cbn [fst snd files]. split; [discriminate|]. intros p P1 P2 P3.
      rewrite lookup_insert_ne, Hfiles by congruence. reflexivity. }
  destruct (can_open _ (jsonl_path a)); cbn [fst snd files].
  - split.
    + intros paths [= <-]. split; [reflexivity|]. split.
      * rewrite (lookup_insert_ne _ (jsonl_path a)) by exact N2.
        rewrite (lookup_insert_ne _ (txt_path a id title)) by exact N1.
        apply lookup_insert_eq.
      * rewrite (lookup_insert_ne _ (jsonl_path a)) by exact N3.
        apply lookup_insert_eq.
    + intros p P1 P2 P3.
      rewrite !lookup_insert_ne, Hfiles by congruence. reflexivity.
  - split; [discriminate|]. intros p P1 P2 P3.
    rewrite !lookup_insert_ne, Hfiles by congruence. reflexivity.
Qed.

Lemma nth_id_inj a k n : step a <> 0 -> nth_id a k = nth_id a n -> k = n.
Proof. unfold nth_id. intros Hs E. nia. Qed.

(** A pass keeps the files of the passes before it. *)
Lemma iteration_on_disk a d n st :
  step a <> 0 -> main a n d = (Running, st) ->
  idx st = nth_id a n -> sess st = requests a n ->
  on_disk a d n (disk st) ->
  on_disk a d (S n) (disk (snd (iteration a st)))
  /\ sess (snd (iteration a st)) = requests a (S n)
  /\ (fst (iteration a st) = Running ->
      idx (snd (iteration a st)) = nth_id a (S n))
  /\ (fst (iteration a st) = Stopped -> nth_result a n = Raise NotFound).
Proof.
  intros Hstep Hmain Hidx Hsess Hdisk.
  split; [|split; [|split]].
  - unfold iteration. rewrite parse_idiom_eq.
    assert (Hres : fst (parse_idiom (py_str (idx st)) (sess st)) = nth_result a n).
    { unfold nth_result. rewrite Hidx, Hsess. reflexivity. }
    rewrite Hres.
    assert (Hold : forall d',
              (forall k title, (k < n)%nat ->
                 files d' !! json_path a (py_str (nth_id a k)) title
                 = files (disk st) !! json_path a (py_str (nth_id a k)) title
                 /\ files d' !! txt_path a (py_str (nth_id a k)) title
                    = files (disk st) !! txt_path a (py_str (nth_id a k)) title) ->
              (forall data paths title fulltext,
                 nth_result a n = Return data ->
                 fst (write_item (out_dir a) data (disk st)) = Return paths ->
                 dict_get "title" data = Some (VStr title) ->
                 dict_get "fulltext" data = Some (VStr fulltext) ->
                 files d' !! json_path a (py_str (nth_id a n)) title
                 = Some (dump_indent data)
                 /\ files d' !! txt_path a (py_str (nth_id a n)) title
                    = Some (fulltext ++ [NL])) ->
              on_disk a d (S n) d').
    { intros d' Hkeep Hnew k data paths title fulltext Hk Hr Hw Ht Hf.
      destruct (decide (k = n)) as [->|Hne].
      - rewrite Hmain in Hw. cbn [snd] in Hw.
        exact (Hnew data paths title fulltext Hr Hw Ht Hf).
      - destruct (Hkeep k title ltac:(lia)) as [-> ->].
        apply (Hdisk k data paths title fulltext); [lia|assumption..]. }
    destruct (nth_result a n) as [data|e] eqn:Er.
    + destruct (parse_idiom_returns _ _ _ Hres) as (_ & Hid & title & fulltext & Ht & Hf).
      destruct (write_item_files a data (disk st) _ _ _ Hid Ht Hf)
        as (Hnewfiles & Hother).
      assert (Hkeep : forall k title', (k < n)%nat ->
                files (snd (write_item (out_dir a) data (disk st)))
                  !! json_path a (py_str (nth_id a k)) title'
                = files (disk st) !! json_path a (py_str (nth_id a k)) title'
                /\ files (snd (write_item (out_dir a) data (disk st)))
                     !! txt_path a (py_str (nth_id a k)) title'
                   = files (disk st) !! txt_path a (py_str (nth_id a k)) title').
      { intros k title' Hk.
        assert (Hik : nth_id a k <> nth_id a n).
        { intros E. apply nth_id_inj in E; [lia|exact Hstep]. }
        split; apply Hother.
        -- intros E. apply Hik. rewrite Hidx in E.
           exact (item_path_inj _ _ _ _ _ _ E).
        -- intros E. pose proof (txt_path_last a (py_str (idx st)) title) as L.
           rewrite <- E, json_path_last in L. discriminate L.
        -- intros E. pose proof (jsonl_path_last a) as L.
           rewrite <- E, json_path_last in L. discriminate L.
        -- intros E. pose proof (json_path_last a (py_str (idx st)) title) as L.
           rewrite <- E, txt_path_last in L. discriminate L.
        -- intros E. apply Hik. rewrite Hidx in E.
           exact (item_path_inj _ _ _ _ _ _ E).
        -- intros E. pose proof (jsonl_path_last a) as L.
           rewrite <- E, txt_path_last in L. discriminate L. }
      destruct (write_item (out_dir a) data (disk st)) as [[p|e] disk'] eqn:Ew;
        cbn [fst snd] in *; unfold advance; cbn [snd disk]; apply Hold;
        try exact Hkeep.
      * intros data' paths' title' fulltext' [= <-] _ Ht' Hf'.
        rewrite Ht in Ht'. injection Ht' as <-.
        rewrite Hf in Hf'. injection Hf' as <-.
        rewrite <- Hidx. exact (proj2 (Hnewfiles p eq_refl)).
      * intros data' paths' title' fulltext' [= <-] Hw'.
        rewrite Ew in Hw'. discriminate Hw'.
    + assert (Hsame : on_disk a d (S n) (disk st)).
      { apply Hold; [auto|]. intros data paths title fulltext Hr. discriminate Hr. }
      destruct e; try exact Hsame.
      cbv zeta. destruct (_ >=? _); exact Hsame.
  - rewrite iteration_session, Hidx, Hsess, requests_S. reflexivity.
  - unfold iteration. rewrite parse_idiom_eq.
    destruct (fst (parse_idiom _ _)) as [data|e].
    + destruct (write_item _ _ _) as [[p|e] d']; intros _; cbn [snd];
        unfold advance; cbn [idx]; rewrite Hidx, nth_id_S; reflexivity.
    + destruct e; try (intros _; cbn [snd]; unfold advance; cbn [idx];
                       rewrite Hidx, nth_id_S; reflexivity).
      cbv zeta. destruct (_ >=? _); [discriminate|].
      intros _. cbn [snd]. unfold advance. cbn [idx].
      rewrite Hidx, nth_id_S. reflexivity.
  - unfold iteration. rewrite parse_idiom_eq.
    assert (Hres : fst (parse_idiom (py_str (idx st)) (sess st)) = nth_result a n).
    { unfold nth_result. rewrite Hidx, Hsess. reflexivity. }
    rewrite Hres. destruct (nth_result a n) as [data|e].
    + destruct (write_item _ _ _) as [[p|e] d']; discriminate.
    + destruct e; try discriminate. reflexivity.
Qed.

Lemma main_on_disk a d n :
  step a <> 0 ->
  match main a n d with
  | (Running, st) =>
    idx st = nth_id a n /\ sess st = requests a n /\ on_disk a d n (disk st)
  | (Stopped, st) =>
    exists k, sess st = requests a (S k) /\ nth_result a k = Raise NotFound
              /\ on_disk a d (S k) (disk st)
  end.
Proof.
  intros Hstep. induction n as [|n IH].
  - cbn. split; [unfold nth_id; lia|]. split; [reflexivity|].
    intros k data paths title fulltext Hk. lia.
  - pose proof (run_snoc a n (initial a d)) as Hsnoc.
    fold (main a (S n) d) in Hsnoc. fold (main a n d) in Hsnoc.
    rewrite Hsnoc. clear Hsnoc.
    destruct (main a n d) as [[|] st] eqn:En.
    + destruct IH as (Hidx & Hsess & Hdisk).
      destruct (iteration_on_disk a d n st Hstep En Hidx Hsess Hdisk)
        as (Hd & Hs & Hrun & Hstop).
      destruct (iteration a st) as [[|] st']; cbn [fst snd] in *.
      * split; [apply Hrun; reflexivity|]. split; assumption.
      * exists n. split; [exact Hs|]. split; [apply Hstop; reflexivity|exact Hd].
    + exact IH.
Qed.

Lemma main_made_requests a d n :
  step a <> 0 -> (0 < n)%nat -> (0 < length (sess (snd (main a n d))))%nat.
Proof.
  intros Hstep Hn. pose proof (main_on_disk a d n Hstep) as Hm.
  destruct (main a n d) as [[|] st]; cbn [snd].
  - destruct Hm as (_ & -> & _). rewrite length_requests. exact Hn.
  - destruct Hm as (k & -> & _). rewrite length_requests. lia.
Qed.

(** X17. With a step that is not zero, a run keeps what it has found: after
    any number of passes, every pass [k] of them that succeeded, which
    means that [parse_idiom] returned a record and [write_item] returned
    its paths, has the record in its JSON file and the full text in its
    TXT file, at the paths that [write_item] returned; no later pass has
    overwritten them. *)
Theorem found_idioms_stay_on_disk a d n k data paths title fulltext :
  step a <> 0 ->
  (k < length (sess (snd (main a n d))))%nat ->
  nth_result a k = Return data ->
  fst (write_item (out_dir a) data (disk (snd (main a k d)))) = Return paths ->
  dict_get "title" data = Some (VStr title) ->
  dict_get "fulltext" data = Some (VStr fulltext) ->
  let now := disk (snd (main a n d)) in
  files now !! json_path a (py_str (nth_id a k)) title = Some (dump_indent data)
  /\ files now !! txt_path a (py_str (nth_id a k)) title = Some (fulltext ++ [NL])
  /\ paths = (json_path a (py_str (nth_id a k)) title,
              txt_path a (py_str (nth_id a k)) title, jsonl_path a).
Proof.
  intros Hstep Hk Hr Hw Ht Hf now.
  assert (Hpaths : paths = (json_path a (py_str (nth_id a k)) title,
                            txt_path a (py_str (nth_id a k)) title, jsonl_path a)).
  { destruct (parse_idiom_returns _ _ _ Hr) as (_ & Hid & _).
    exact (proj1 (proj1 (write_item_files a data _ _ _ _ Hid Ht Hf) paths Hw)). }
  assert (Hfiles : files now !! json_path a (py_str (nth_id a k)) title
                   = Some (dump_indent data)
                   /\ files now !! txt_path a (py_str (nth_id a k)) title
                      = Some (fulltext ++ [NL])).
  { subst now. pose proof (main_on_disk a d n Hstep) as Hm.
    destruct (main a n d) as [[|] st]; cbn [snd] in *.
    - destruct Hm as (_ & Hs & Hd). rewrite Hs, length_requests in Hk.
      exact (Hd k data paths title fulltext Hk Hr Hw Ht Hf).
    - destruct Hm as (k0 & Hs & Hnf & Hd). rewrite Hs, length_requests in Hk.
      exact (Hd k data paths title fulltext Hk Hr Hw Ht Hf). }
  split; [exact (proj1 Hfiles)|]. split; [exact (proj2 Hfiles)|exact Hpaths].
Qed.
End RunFilesProofs.

Lemma found_idioms_stay_on_disk_witness :
  idiom_there (fun U N D =>
    let a := Args 7 1 (lit "out") 3 in
    exists data fulltext,
      step a <> 0
      /\ (0 < length (sess (snd (main a 2 (Fs ∅ ∅)))))%nat
      /\ nth_result a 0 = Return data
      /\ fst (write_item (out_dir a) data (disk (snd (main a 0 (Fs ∅ ∅)))))
         = Return (u "out/json/7_一心一意.json", u "out/txt/7_一心一意.txt",
                   u "out/moe_idioms.jsonl")
      /\ dict_get "title" data = Some (VStr (u "一心一意"))
      /\ dict_get "fulltext" data = Some (VStr fulltext)
      /\ files (disk (snd (main a 2 (Fs ∅ ∅)))) !! u "out/json/7_一心一意.json"
         = Some (dump_indent data)).
Proof.
  unfold idiom_there. pose (a := Args 7 1 (lit "out") 3).
  pose (r := @nth_result basic_unicode (always (Page [])) (sample_html idiom_page) a 0).
  assert (Hr : exists data fulltext, r = Return data
                 /\ dict_get "title" data = Some (VStr (u "一心一意"))
                 /\ dict_get "fulltext" data = Some (VStr fulltext)
                 /\ fst (@write_item basic_unicode name_limit (out_dir a) data
                           (disk (snd (@main basic_unicode (always (Page []))
                                         (sample_html idiom_page) name_limit
                                         a 0 (Fs ∅ ∅)))))
                    = Return (u "out/json/7_一心一意.json",
                              u "out/txt/7_一心一意.txt",
                              u "out/moe_idioms.jsonl")).
  { eexists. eexists. split; [vm_compute; reflexivity|].
    split; [vm_compute; reflexivity|]. split; vm_compute; reflexivity. }
  destruct Hr as (data & fulltext & Hret & Ht & Hf & Hw). exists data, fulltext.
  assert (Hs : step a <> 0) by discriminate.
  assert (Hk : (0 < length (sess (snd (@main basic_unicode (always (Page []))
                                         (sample_html idiom_page) name_limit
                                         a 2 (Fs ∅ ∅)))))%nat).
  { apply main_made_requests; [exact Hs|lia]. }
  split; [exact Hs|]. split; [exact Hk|]. split; [exact Hret|].
  split; [exact Hw|]. split; [exact Ht|]. split; [exact Hf|].
  exact (proj1 (@found_idioms_stay_on_disk basic_unicode (always (Page []))
                  (sample_html idiom_page) name_limit a (Fs ∅ ∅) 2 0 data _ _
                  fulltext Hs Hk Hret Hw Ht Hf)).
Defined.
